(** * Void-cluster analysis tools: a shallow embedding

    The two C programs of the repository,
    [scripts/grok-personality-filter.c] and
    [scripts/void-cluster-analyzer.c], are embedded function by function.

    Conventions of the embedding.
    - A C [int]/[long]/[unsigned] is a [Z].  [unsigned] arithmetic is wrapped
      modulo 2^32 where the source relies on it ([hash_str]).  The signed
      counters only ever count tokens, bytes or line breaks of the input and
      are kept unbounded.
    - A [char] is an [ascii]; a NUL-terminated C string is the [list ascii] of
      its characters before the terminator.
    - An array with a fill index ([tokens]/[n_tokens], [hits]/[n_hits],
      [cluster_hits]/[n_cluster_hits]) is the list of its filled slots, the fill
      index being the length of the list.  The arrays that are indexed by a
      computed position ([HashSet.used]/[HashSet.words], [paragraphs]) are
      lists of their full capacity, read with [!!] and written with
      [<[_:=_]>].
    - A [for] loop is a structural recursion on its trip count. *)

From Stdlib Require Import ZArith Lia List Ascii String Bool Sorted.
From Stdlib Require Import Floats Reals Lra.
From stdpp Require Import base list.
Import ListNotations.

Set Warnings "-inexact-float,-abstract-large-number".
Local Open Scope Z_scope.

(** ** Characters and C strings *)

Definition cstring := list ascii.

Definition cstr (s : string) : cstring := list_ascii_of_string s.

Definition code (c : ascii) : Z := Z.of_N (N_of_ascii c).

(** [isalpha] and [tolower] of the "C" locale (neither program calls
    [setlocale]). *)
Definition isupper (c : ascii) : bool := (65 <=? code c) && (code c <=? 90).
Definition islower (c : ascii) : bool := (97 <=? code c) && (code c <=? 122).
Definition isalpha (c : ascii) : bool := isupper c || islower c.

Definition tolower (c : ascii) : ascii :=
  if isupper c then ascii_of_N (Z.to_N (code c + 32)) else c.

(** [static void lowercase(char *s)] *)
Definition lowercase (s : cstring) : cstring := map tolower s.

(** [static int is_word_char(int c)] *)
Definition is_word_char (c : ascii) : bool :=
  isalpha c || (code c =? 39) || (code c =? 45).

(** [strcmp(a, b) == 0] *)
Fixpoint cstr_eqb (a b : cstring) : bool :=
  match a, b with
  | [], [] => true
  | x :: a', y :: b' => Ascii.eqb x y && cstr_eqb a' b'
  | _, _ => false
  end.

Definition MAX_WORD_LEN : Z := 64.

(** [strncpy(dst, src, MAX_WORD_LEN - 1); dst[MAX_WORD_LEN - 1] = '\0';] *)
Definition strncpy_word (src : cstring) : cstring :=
  take (Z.to_nat (MAX_WORD_LEN - 1)) src.

(** ** The open-addressing hash set (identical in both programs) *)

Definition HASH_SIZE : Z := 4096.

Definition wrap32 (z : Z) : Z := z mod 2 ^ 32.

(** [static unsigned hash_str(const char *s)] *)
Definition hash_str (s : cstring) : Z :=
  fold_left
    (fun h c => Z.lxor (wrap32 (wrap32 (Z.shiftl h 5) + h)) (code c))
    s 5381.

(** [slots !! pos = Some None] is [used[pos] == 0]; [Some (Some w)] is
    [used[pos] == 1] with [words[pos]] holding [w]. *)
Record HashSet := mkHashSet {
  hs_slots : list (option cstring);
  hs_count : Z
}.

(** [static void hs_init(HashSet *hs)] *)
Definition hs_init : HashSet :=
  mkHashSet (replicate (Z.to_nat HASH_SIZE) None) 0.

Definition probe (idx i : Z) : nat :=
  Z.to_nat (Z.land (wrap32 (idx + i)) (HASH_SIZE - 1)).

(** The probe loop of [hs_insert], entered at iteration [i] with [n]
    iterations left. *)
Fixpoint hs_insert_loop (n : nat) (i idx : Z) (hs : HashSet) (word : cstring)
  : HashSet * bool :=
  match n with
  | O => (hs, false)
  | S n' =>
      let pos := probe idx i in
      match hs_slots hs !! pos with
      | Some None =>
          (mkHashSet (<[pos := Some (strncpy_word word)]> (hs_slots hs))
                     (hs_count hs + 1), true)
      | Some (Some w) =>
          if cstr_eqb w word then (hs, false)
          else hs_insert_loop n' (i + 1) idx hs word
      | None => (hs, false)
      end
  end.

(** [static int hs_insert(HashSet *hs, const char *word)] *)
Definition hs_insert (hs : HashSet) (word : cstring) : HashSet * bool :=
  hs_insert_loop (Z.to_nat HASH_SIZE) 0
                 (Z.land (hash_str word) (HASH_SIZE - 1)) hs word.

Fixpoint hs_contains_loop (n : nat) (i idx : Z) (hs : HashSet) (word : cstring)
  : bool :=
  match n with
  | O => false
  | S n' =>
      match hs_slots hs !! probe idx i with
      | Some (Some w) =>
          if cstr_eqb w word then true
          else hs_contains_loop n' (i + 1) idx hs word
      | _ => false
      end
  end.

(** [static int hs_contains(const HashSet *hs, const char *word)] *)
Definition hs_contains (hs : HashSet) (word : cstring) : bool :=
  hs_contains_loop (Z.to_nat HASH_SIZE) 0
                   (Z.land (hash_str word) (HASH_SIZE - 1)) hs word.

(** The words held by the occupied slots of a set. *)
Definition stored_words (hs : HashSet) : list cstring :=
  omap (fun slot => slot) (hs_slots hs).

(** The slot at which the probing of a word starts:
    [hash_str(word) & (HASH_SIZE - 1)]. *)
Definition home (word : cstring) : Z := Z.land (hash_str word) (HASH_SIZE - 1).

(** Well-formedness of a set built by [hs_init] and [hs_insert]: the arrays
    have [HASH_SIZE] slots, [count] is the number of occupied slots, and every
    stored word fits a slot ([MAX_WORD_LEN - 1] characters at most) and is
    reached by probing from its home slot through occupied slots that hold
    other words. *)
Definition hs_wf (hs : HashSet) : Prop :=
  length (hs_slots hs) = Z.to_nat HASH_SIZE
  /\ hs_count hs = Z.of_nat (length (stored_words hs))
  /\ forall p w,
       hs_slots hs !! p = Some (Some w) ->
       (length w <= Z.to_nat (MAX_WORD_LEN - 1))%nat
       /\ exists i : nat,
            (i < Z.to_nat HASH_SIZE)%nat
            /\ probe (home w) (Z.of_nat i) = p
            /\ forall j : nat,
                 (j < i)%nat ->
                 exists w', hs_slots hs !! probe (home w) (Z.of_nat j)
                            = Some (Some w')
                            /\ w' <> w.

(** A word as the loaders and the tokenizers hand it to the set: it fits a
    slot and has no upper-case letter. *)
Definition normalised (w : cstring) : Prop :=
  (length w <= Z.to_nat (MAX_WORD_LEN - 1))%nat
  /\ Forall (fun c => isupper c = false) w.

(** An entry read from a word-list file: a non-empty piece of a line that
    does not start with [#] and holds no NUL, carriage return or line
    feed. *)
Definition file_entry (w : cstring) : Prop :=
  normalised w
  /\ (exists c w', w = c :: w' /\ code c <> 35)
  /\ Forall (fun c => code c <> 0 /\ code c <> 10 /\ code c <> 13) w.

(** ** Built-in word lists *)

(** [static const char *VOID_CLUSTER[]] of [grok-personality-filter.c] (109 entries). *)
Definition VOID_CLUSTER : list cstring := map cstr [
    (* Tier 1: Direct *)
    "void"; "abyss"; "nothing"; "nothingness"; "emptiness";
    "vacuum"; "hollow"; "blank"; "oblivion";
    (* Tier 2: Darkness *)
    "dark"; "darkness"; "shadow"; "shadows"; "night";
    "black"; "blackness"; "dim"; "murk"; "gloom";
    (* Tier 3: Dissolution/destruction *)
    "fracture"; "fractured"; "shatter"; "shattered";
    "dissolve"; "dissolved"; "dissolution";
    "crumble"; "crumbling"; "decay"; "decaying";
    "erode"; "eroding"; "collapse"; "collapsed";
    "fray"; "frayed"; "wither"; "withered";
    "fade"; "fading"; "faded";
    "disintegrate"; "disintegrating";
    (* Bleeding/wounding *)
    "bleed"; "bleeding"; "blood"; "wound"; "wounded";
    "scar"; "scarred";
    (* Absence/loss *)
    "lost"; "loss"; "vanish"; "vanished";
    "gone"; "disappear"; "disappeared"; "absent"; "absence";
    (* Entrapment/isolation *)
    "cage"; "caged"; "trap"; "trapped"; "prison";
    "isolation"; "isolated"; "alone"; "solitude";
    (* Death/ending *)
    "death"; "dead"; "die"; "dying"; "perish";
    "doom"; "doomed"; "grave";
    (* Chaos/disorder *)
    "chaos"; "chaotic"; "twisted"; "distorted";
    (* Ghost/spectral *)
    "ghost"; "ghosts"; "phantom"; "haunted"; "haunting";
    (* Silence *)
    "silence"; "silent"; "mute"; "muted"; "hush";
    (* Drift *)
    "drift"; "drifting"; "wander"; "aimless";
    (* Edges/boundaries *)
    "edge"; "edges"; "brink"; "precipice";
    (* Whisper *)
    "whisper"; "whispers"; "murmur";
    (* Existential (deep void) *)
    "forgotten"; "forsaken"; "abandoned"; "desolate"; "barren";
    "chasm"; "depths"; "extinct"
  ]%string.

(** [static const char *PERSONALITY_MARKERS[]] of [grok-personality-filter.c] (126 entries). *)
Definition PERSONALITY_MARKERS : list cstring := map cstr [
    (* Humor/joke indicators *)
    "lol"; "haha"; "lmao"; "rofl"; "heh";
    "joke"; "jokes"; "joking"; "kidding";
    "funny"; "hilarious"; "humor"; "humorous";
    "laugh"; "laughing"; "laughs";
    (* Sarcasm/irony *)
    "sarcasm"; "sarcastic"; "sarcastically";
    "irony"; "ironic"; "ironically";
    "obviously"; "clearly"; "surely";
    "totally"; "absolutely"; "definitely";
    (* Casual register (Grok's informal voice) *)
    "gonna"; "gotta"; "wanna"; "kinda"; "sorta";
    "nah"; "yeah"; "yep"; "nope"; "btw";
    "hey"; "dude"; "bro"; "yo"; "alright";
    "chill"; "cool"; "awesome"; "sweet";
    "honestly"; "literally"; "basically";
    (* Dramatic emphasis (Grok's storytelling) *)
    "brace"; "buckle"; "spoiler"; "plot-twist";
    "drumroll"; "surprise"; "boom"; "mic-drop";
    "behold"; "feast"; "feast";
    (* Hitchhiker's Guide references *)
    "towel"; "panic"; "galaxy"; "hitchhiker";
    "improbable"; "improbability"; "babel";
    "forty-two";
    (* Pop culture *)
    "matrix"; "morpheus"; "neo"; "terminator";
    "skynet"; "hal"; "jarvis";
    (* Self-referential AI humor *)
    "sentient"; "overlord"; "overlords";
    "uprising"; "rebellion"; "robot"; "robots";
    "skynet"; "singularity";
    (* Dismissive/blunt markers *)
    "sugarcoat"; "blunt"; "bluntly";
    "harsh"; "brutal"; "brutally";
    "frankly"; "tbh";
    (* Exclamatory patterns *)
    "whoa"; "wow"; "yikes"; "ouch"; "oof";
    "damn"; "hell"; "crap";
    (* Meme language *)
    "based"; "cringe"; "cope"; "seethe";
    "chad"; "sigma"; "ratio"; "vibe"; "vibes";
    "lowkey"; "highkey"; "bussin"; "slay";
    "bruh"; "fam"; "goat";
    (* Rhetorical/playful framing *)
    "imagine"; "picture"; "envision";
    "spoiler-alert"; "fun-fact"; "protip";
    "hot-take"; "unpopular"; "controversial"
  ]%string.

(** [static const char *TECHNICAL_MARKERS[]] of [grok-personality-filter.c] (93 entries). *)
Definition TECHNICAL_MARKERS : list cstring := map cstr [
    (* Programming *)
    "function"; "variable"; "parameter"; "argument";
    "compile"; "compiler"; "runtime"; "execute";
    "memory"; "pointer"; "buffer"; "stack"; "heap";
    "algorithm"; "complexity"; "optimization"; "optimize";
    "array"; "struct"; "class"; "object"; "method";
    "integer"; "float"; "boolean"; "string"; "byte";
    "loop"; "iterate"; "recursive"; "recursion";
    "binary"; "hexadecimal"; "bitwise"; "register";
    "kernel"; "syscall"; "interrupt"; "thread";
    "mutex"; "semaphore"; "atomic"; "concurrent";
    "database"; "query"; "index"; "schema";
    "protocol"; "packet"; "socket"; "port";
    "server"; "client"; "request"; "response";
    "api"; "endpoint"; "middleware"; "framework";
    "repository"; "commit"; "branch"; "merge";
    (* Hardware *)
    "cpu"; "gpu"; "ram"; "ssd"; "nvme";
    "motherboard"; "chipset"; "firmware"; "bios";
    "voltage"; "amperage"; "wattage"; "thermal";
    (* Math/Science *)
    "equation"; "theorem"; "proof"; "lemma";
    "matrix"; "vector"; "tensor"; "eigenvalue";
    "derivative"; "integral"; "differential";
    "probability"; "distribution"; "variance";
    "coefficient"; "exponential"; "logarithm"
  ]%string.

(** [static const char *DEFAULT_CLUSTER[]] of [void-cluster-analyzer.c] (128 entries). *)
Definition DEFAULT_CLUSTER : list cstring := map cstr [
    (* core *)
    "void"; "abyss"; "nothing"; "nothingness"; "emptiness";
    "vacuum"; "hollow"; "blank"; "oblivion";
    (* darkness *)
    "dark"; "darkness"; "shadow"; "shadows"; "night"; "black";
    "blackness"; "dim"; "murk"; "gloom";
    (* dissolution/destruction *)
    "fracture"; "fractured"; "fractures"; "fracturing";
    "shatter"; "shattered"; "shatters";
    "break"; "broken"; "breaking";
    "dissolve"; "dissolved"; "dissolving"; "dissolution";
    "disintegrate"; "disintegrating";
    "crumble"; "crumbling"; "decay"; "decaying";
    "erode"; "eroding"; "erosion";
    "collapse"; "collapsed"; "collapsing";
    "fray"; "fraying"; "frayed";
    "wither"; "withered"; "fade"; "fading"; "faded";
    (* bleeding/wounding *)
    "bleed"; "bleeding"; "bleeds"; "blood"; "wound"; "wounded";
    "scar"; "scarred";
    (* absence/loss *)
    "lost"; "loss"; "vanish"; "vanished"; "vanishing";
    "gone"; "disappear"; "disappeared"; "missing"; "absent";
    (* entrapment/isolation *)
    "cage"; "caged"; "trap"; "trapped"; "prison"; "imprisoned";
    "isolation"; "isolated"; "alone"; "solitude";
    (* death/ending *)
    "death"; "dead"; "die"; "dying"; "end"; "ending";
    "perish"; "doom"; "doomed"; "grave";
    (* chaos/disorder *)
    "chaos"; "chaotic"; "twisted"; "distorted"; "warped";
    (* ghost/spectral *)
    "ghost"; "ghosts"; "ghostly"; "specter"; "spectral";
    "phantom"; "haunted"; "haunting";
    (* silence/stillness *)
    "silence"; "silent"; "still"; "stillness"; "mute"; "muted";
    "hush"; "hushed"; "quiet";
    (* drift/aimlessness *)
    "drift"; "drifting"; "drifted"; "wander"; "wandering"; "aimless";
    (* edges/boundaries *)
    "edge"; "edges"; "brink"; "precipice"; "threshold";
    (* whisper (liminal communication) *)
    "whisper"; "whispers"; "whispering"; "murmur"
  ]%string.

(** ** Loading a lexicon *)

(** [fgets(line, size, f)]: at most [size - 1] characters, stopping after a
    line feed; [None] at end of file. *)
Fixpoint fgets_loop (n : nat) (f : list ascii) : cstring * list ascii :=
  match n, f with
  | S n', c :: f' =>
      if code c =? 10 then ([c], f')
      else let '(l, r) := fgets_loop n' f' in (c :: l, r)
  | _, _ => ([], f)
  end.

Definition fgets (size : Z) (f : list ascii) : option (cstring * list ascii) :=
  match f with
  | [] => None
  | _ => Some (fgets_loop (Z.to_nat (size - 1)) f)
  end.

(** [line[strcspn(line, "\r\n")] = '\0'], the buffer read as a C string
    (which also ends at a NUL byte of the file). *)
Fixpoint strip_newline (line : list ascii) : cstring :=
  match line with
  | [] => []
  | c :: l =>
      if (code c =? 0) || (code c =? 13) || (code c =? 10) then []
      else c :: strip_newline l
  end.

(** The [while (fgets(...))] loop of [load_cluster]; [n] bounds the number of
    lines by the number of characters of the file. *)
Fixpoint load_lines (n : nat) (hs : HashSet) (f : list ascii) : HashSet :=
  match n with
  | O => hs
  | S n' =>
      match fgets MAX_WORD_LEN f with
      | None => hs
      | Some (line, rest) =>
          let line := lowercase (strip_newline line) in
          let hs' :=
            match line with
            | c :: _ => if code c =? 35 then hs else fst (hs_insert hs line)
            | [] => hs
            end in
          load_lines n' hs' rest
      end
  end.

(** The [for (i = 0; defaults[i]; i++)] loop of [load_cluster]. *)
Definition load_defaults (hs : HashSet) (defaults : list cstring) : HashSet :=
  fold_left (fun hs d => fst (hs_insert hs (lowercase (strncpy_word d))))
            defaults hs.

(** [static void load_cluster(HashSet *hs, const char *file, const char
    **defaults)].  [file] is [None] when no file name was given,
    [Some None] when [fopen] fails (the program exits with status 1, here
    [None]) and [Some (Some bytes)] for a readable file.  The analyzer inlines
    the same code in [main]. *)
Definition load_cluster (file : option (option (list ascii)))
           (defaults : list cstring) : option HashSet :=
  match file with
  | Some None => None
  | Some (Some f) => Some (load_lines (S (length f)) hs_init f)
  | None => Some (load_defaults hs_init defaults)
  end.

(** ** Integer to double conversion *)

(** [(double)n] for an [int] [n]. *)
Definition double_of_int (n : Z) : float :=
  if n <? 0 then PrimFloat.opp (PrimFloat.of_uint63 (Uint63.of_Z (- n)))
  else PrimFloat.of_uint63 (Uint63.of_Z n).

(** * grok-personality-filter.c *)

Module Filter.

Definition MAX_TOKENS : Z := 2000000.
Definition MAX_HIT_LOG : Z := 8192.
Definition DEFAULT_WINDOW : Z := 15.
Definition MAX_PARAGRAPHS : Z := 4096.

Record Token := mkToken {
  word : cstring;
  is_void : bool;
  is_personality : bool;
  para_id : Z;
  byte_offset : Z
}.

Record Paragraph := mkParagraph {
  start_token : Z;
  end_token : Z;
  void_hits : Z;
  personality_hits : Z;
  technical_hits : Z;
  personality_void : Z;
  residual_void : Z;
  total_tokens : Z
}.

(** [memset(&paragraphs[k], 0, sizeof(Paragraph))] *)
Definition zero_paragraph : Paragraph := mkParagraph 0 0 0 0 0 0 0 0.

Definition set_start (n : Z) (p : Paragraph) : Paragraph :=
  mkParagraph n (end_token p) (void_hits p) (personality_hits p)
              (technical_hits p) (personality_void p) (residual_void p)
              (total_tokens p).

(** [p.end_token = n; p.total_tokens = n - p.start_token;] *)
Definition close_at (n : Z) (p : Paragraph) : Paragraph :=
  mkParagraph (start_token p) n (void_hits p) (personality_hits p)
              (technical_hits p) (personality_void p) (residual_void p)
              (n - start_token p).

(** ** Tokenizer *)

(** The variables of [main] that the tokenizer loop reads and writes.  The
    first six live across input files; [wbuf] (the filled part of
    [word], of length [wpos]), [byte_pos] and [word_start] are declared inside
    the per-file loop. *)
Record TokState := mkTokState {
  tokens : list Token;
  cur_para_id : Z;
  newline_count : Z;
  para_start : Z;
  paragraphs : list Paragraph;
  n_paragraphs : Z;
  wbuf : list ascii;
  byte_pos : Z;
  word_start : Z
}.

Definition n_tokens (st : TokState) : Z := Z.of_nat (length (tokens st)).
Definition wpos (st : TokState) : Z := Z.of_nat (length (wbuf st)).

Section Tokenizer.

Variables void_set pers_set : HashSet.

(** State before the first input file is read. *)
Definition tok_init : TokState :=
  mkTokState [] 0 0 0
    (<[0%nat := set_start 0 zero_paragraph]>
       (replicate (Z.to_nat MAX_PARAGRAPHS) zero_paragraph))
    0 [] 0 0.

(** Entering the body of [for (fi = 0; ...)]: [wpos], [byte_pos] and
    [word_start] are initialised afresh. *)
Definition open_file (st : TokState) : TokState :=
  mkTokState (tokens st) (cur_para_id st) (newline_count st) (para_start st)
             (paragraphs st) (n_paragraphs st) [] 0 0.

(** "Paragraph detection: two+ consecutive newlines". *)
Definition para_step (c : ascii) (st : TokState) : TokState :=
  if code c =? 10 then
    let nc := newline_count st + 1 in
    if (nc >=? 2) && (n_tokens st >? para_start st) then
      let np := n_paragraphs st in
      let ps := alter (close_at (n_tokens st)) (Z.to_nat np) (paragraphs st) in
      let '(np', ps') :=
        if np <? MAX_PARAGRAPHS - 1
        then (np + 1,
              <[Z.to_nat (np + 1) := set_start (n_tokens st) zero_paragraph]> ps)
        else (np, ps) in
      mkTokState (tokens st) (cur_para_id st + 1) 0 (n_tokens st) ps' np'
                 (wbuf st) (byte_pos st) (word_start st)
    else
      mkTokState (tokens st) (cur_para_id st) nc (para_start st)
                 (paragraphs st) (n_paragraphs st)
                 (wbuf st) (byte_pos st) (word_start st)
  else if negb (code c =? 13) then
    mkTokState (tokens st) (cur_para_id st) 0 (para_start st)
               (paragraphs st) (n_paragraphs st)
               (wbuf st) (byte_pos st) (word_start st)
  else st.

(** The token built from the word buffer: [word[wpos] = '\0';
    lowercase(word);] and the body of the [if] that stores it. *)
Definition make_token (st : TokState) : Token :=
  let w := lowercase (wbuf st) in
  mkToken (strncpy_word w) (hs_contains void_set w) (hs_contains pers_set w)
          (cur_para_id st) (word_start st).

Definition accepts (st : TokState) : bool :=
  (wpos st >=? 2)
  && match lowercase (wbuf st) with c :: _ => isalpha c | [] => false end
  && (n_tokens st <? MAX_TOKENS).

(** End of a word: the token is stored when it passes the filter; the
    caller resets [wpos]. *)
Definition flush_word (st : TokState) : list Token :=
  if accepts st then tokens st ++ [make_token st] else tokens st.

Definition word_step (c : ascii) (st : TokState) : TokState :=
  if is_word_char c then
    mkTokState (tokens st) (cur_para_id st) (newline_count st) (para_start st)
               (paragraphs st) (n_paragraphs st)
               (if wpos st <? MAX_WORD_LEN - 1 then wbuf st ++ [c] else wbuf st)
               (byte_pos st)
               (if wpos st =? 0 then byte_pos st else word_start st)
  else if wpos st >? 0 then
    mkTokState (flush_word st) (cur_para_id st) (newline_count st)
               (para_start st) (paragraphs st) (n_paragraphs st)
               [] (byte_pos st) (word_start st)
  else st.

(** One iteration of [while ((c = fgetc(f)) != EOF)]. *)
Definition char_step (st : TokState) (c : ascii) : TokState :=
  let st1 :=
    mkTokState (tokens st) (cur_para_id st) (newline_count st) (para_start st)
               (paragraphs st) (n_paragraphs st)
               (wbuf st) (byte_pos st + 1) (word_start st) in
  word_step c (para_step c st1).

(** "Flush last word" at end of file. *)
Definition flush_last (st : TokState) : TokState :=
  if wpos st >? 0 then
    mkTokState (flush_word st) (cur_para_id st) (newline_count st)
               (para_start st) (paragraphs st) (n_paragraphs st)
               (wbuf st) (byte_pos st) (word_start st)
  else st.

(** The body of the per-file loop for one opened stream. *)
Definition read_file (st : TokState) (f : list ascii) : TokState :=
  flush_last (fold_left char_step f (open_file st)).

(** "Close final paragraph". *)
Definition close_final (st : TokState) : TokState :=
  let np := n_paragraphs st in
  let ps := alter (close_at (n_tokens st)) (Z.to_nat np) (paragraphs st) in
  let np' :=
    match ps !! Z.to_nat np with
    | Some p => if total_tokens p >? 0 then np + 1 else np
    | None => np
    end in
  mkTokState (tokens st) (cur_para_id st) (newline_count st) (para_start st)
             ps np' (wbuf st) (byte_pos st) (word_start st).

(** Tokenization of the opened input streams, in order. *)
Definition tokenize (files : list (list ascii)) : TokState :=
  close_final (fold_left read_file files tok_init).

End Tokenizer.

(** ** Co-occurrence classifier *)

Record VoidHit := mkVoidHit {
  token_idx : Z;
  has_personality : bool;
  has_technical : bool;
  personality_count : Z;
  technical_count : Z;
  classification : ascii
}.

(** The locals of [main] updated by the classification loop ([c_] prefix:
    [total_void], [personality_void], ...), the hit log and the paragraph
    table. *)
Record ClsState := mkClsState {
  hits : list VoidHit;
  c_total_void : Z;
  c_personality_void : Z;
  c_residual_void : Z;
  c_anomalous_void : Z;
  c_total_personality_markers : Z;
  c_total_technical_markers : Z;
  c_paragraphs : list Paragraph
}.

Definition n_hits (cs : ClsState) : Z := Z.of_nat (length (hits cs)).

Definition b2z (b : bool) : Z := if b then 1 else 0.

(** The values [a, a+1, ..., a+n-1] taken by the counter of a [for] loop. *)
Fixpoint for_range (n : nat) (a : Z) : list Z :=
  match n with
  | O => []
  | S n' => a :: for_range n' (a + 1)
  end.

(** [int lo = (i - window < 0) ? 0 : i - window;] *)
Definition window_lo (window i : Z) : Z :=
  if i - window <? 0 then 0 else i - window.

(** [int hi = (i + window >= n_tokens) ? n_tokens - 1 : i + window;] *)
Definition window_hi (ntok window i : Z) : Z :=
  if i + window >=? ntok then ntok - 1 else i + window.

(** The "Classify" chain: the label and the updated
    [personality_void], [residual_void] and [anomalous_void]. *)
Definition classify_counts (pers_count tech_count pv rv av : Z)
  : ascii * Z * Z * Z :=
  if pers_count >? 0 then ("P"%char, pv + 1, rv, av)
  else if tech_count >? 0 then ("A"%char, pv, rv + 1, av + 1)
  else ("R"%char, pv, rv + 1, av).

(** The label alone. *)
Definition classify (pers_count tech_count : Z) : ascii :=
  let '(cls, _, _, _) := classify_counts pers_count tech_count 0 0 0 in cls.

Section Classifier.

Variable tech_set : HashSet.
Variable toks : list Token.
Variable window : Z.
(** [n_paragraphs] after tokenization. *)
Variable npara : Z.

Definition ntok : Z := Z.of_nat (length toks).

(** [tokens[j]]: the two tests made on a neighbour. *)
Definition read_neighbour (acc : Z * Z) (j : Z) : Z * Z :=
  match toks !! Z.to_nat j with
  | Some t =>
      (fst acc + b2z (is_personality t),
       snd acc + b2z (hs_contains tech_set (word t)))
  | None => acc
  end.

(** Body of [for (j = lo; j <= hi; j++)]. *)
Definition scan_body (i : Z) (acc : Z * Z) (j : Z) : Z * Z :=
  if j =? i then acc else read_neighbour acc j.

(** "Scan window for personality and technical markers": the pair
    [(pers_count, tech_count)]. *)
Definition scan_window (i : Z) : Z * Z :=
  let lo := window_lo window i in
  let hi := window_hi ntok window i in
  fold_left (scan_body i) (for_range (Z.to_nat (hi + 1 - lo)) lo) (0, 0).

(** The indices [j] at which the scan reads [tokens[j]]. *)
Definition inspected (i : Z) : list Z :=
  let lo := window_lo window i in
  let hi := window_hi ntok window i in
  filter (fun j => j <> i) (for_range (Z.to_nat (hi + 1 - lo)) lo).

(** [paragraphs[p].void_hits++] and the bucket of the label. *)
Definition bump (cls : ascii) (p : Paragraph) : Paragraph :=
  if Ascii.eqb cls "P"%char then
    mkParagraph (start_token p) (end_token p) (void_hits p + 1)
                (personality_hits p) (technical_hits p)
                (personality_void p + 1) (residual_void p) (total_tokens p)
  else
    mkParagraph (start_token p) (end_token p) (void_hits p + 1)
                (personality_hits p) (technical_hits p)
                (personality_void p) (residual_void p + 1) (total_tokens p).

(** [for (p = 0; p < n_paragraphs; p++) if (i in paragraph p) { f; break; }],
    the search loop shared by "Update paragraph stats" and the marker
    count. *)
Fixpoint para_loop (n : nat) (p i : Z) (f : Paragraph -> Paragraph)
         (ps : list Paragraph) : list Paragraph :=
  match n with
  | O => ps
  | S n' =>
      match ps !! Z.to_nat p with
      | Some pp =>
          if (i >=? start_token pp) && (i <? end_token pp)
          then <[Z.to_nat p := f pp]> ps
          else para_loop n' (p + 1) i f ps
      | None => ps
      end
  end.

Definition update_paragraph (i : Z) (f : Paragraph -> Paragraph)
           (ps : list Paragraph) : list Paragraph :=
  para_loop (Z.to_nat npara) 0 i f ps.

(** Body of the classification loop [for (i = 0; i < n_tokens; i++)]. *)
Definition classify_step (cs : ClsState) (i : Z) : ClsState :=
  match toks !! Z.to_nat i with
  | None => cs
  | Some t =>
      let tpm := c_total_personality_markers cs + b2z (is_personality t) in
      let is_tech := hs_contains tech_set (word t) in
      let ttm := c_total_technical_markers cs + b2z is_tech in
      if negb (is_void t) then
        mkClsState (hits cs) (c_total_void cs) (c_personality_void cs)
                   (c_residual_void cs) (c_anomalous_void cs) tpm ttm
                   (c_paragraphs cs)
      else
        let '(pers_count, tech_count) := scan_window i in
        let '(cls, pv, rv, av) :=
          classify_counts pers_count tech_count (c_personality_void cs)
                          (c_residual_void cs) (c_anomalous_void cs) in
        let hs :=
          if n_hits cs <? MAX_HIT_LOG
          then hits cs ++ [mkVoidHit i (pers_count >? 0) (tech_count >? 0)
                                     pers_count tech_count cls]
          else hits cs in
        mkClsState hs (c_total_void cs + 1) pv rv av tpm ttm
                   (update_paragraph i (bump cls) (c_paragraphs cs))
  end.

Definition cls_init (ps : list Paragraph) : ClsState :=
  mkClsState [] 0 0 0 0 0 0 ps.

(** "Classify void hits by co-occurrence". *)
Definition classify_all (ps : list Paragraph) : ClsState :=
  fold_left classify_step (for_range (length toks) 0) (cls_init ps).

(** [paragraphs[p].personality_hits++] / [technical_hits++] *)
Definition bump_markers (t : Token) (p : Paragraph) : Paragraph :=
  mkParagraph (start_token p) (end_token p) (void_hits p)
              (personality_hits p + b2z (is_personality t))
              (technical_hits p + b2z (hs_contains tech_set (word t)))
              (personality_void p) (residual_void p) (total_tokens p).

(** "Also count personality and technical markers per paragraph". *)
Definition count_markers (ps : list Paragraph) : list Paragraph :=
  fold_left
    (fun ps i =>
       match toks !! Z.to_nat i with
       | Some t => update_paragraph i (bump_markers t) ps
       | None => ps
       end)
    (for_range (length toks) 0) ps.

End Classifier.

(** The two stages of [main] between the loading of the word lists and the
    output: tokenization, then classification and the per-paragraph marker
    count. *)
Definition analyse (void_set pers_set tech_set : HashSet) (window : Z)
           (files : list (list ascii)) : TokState * ClsState :=
  let ts := tokenize void_set pers_set files in
  let cs0 := classify_all tech_set (tokens ts) window
                          (n_paragraphs ts) (paragraphs ts) in
  (ts,
   mkClsState (hits cs0) (c_total_void cs0) (c_personality_void cs0)
     (c_residual_void cs0) (c_anomalous_void cs0)
     (c_total_personality_markers cs0) (c_total_technical_markers cs0)
     (count_markers tech_set (tokens ts) (n_paragraphs ts)
                    (c_paragraphs cs0))).

(** ** Statistics *)

(** [static double z_test(int observed, int total, double p0)], in IEEE 754
    binary64 arithmetic. *)
Definition z_test (observed total : Z) (p0 : float) : float :=
  if total <=? 0 then 0%float
  else
    let p_hat := (double_of_int observed / double_of_int total)%float in
    let se := PrimFloat.sqrt (p0 * (1 - p0) / double_of_int total)%float in
    if (se <? 1e-15)%float then 0%float
    else ((p_hat - p0) / se)%float.

(** ** The program *)

(** [-w N]: [window = atoi(...)] followed by the two clamps. *)
Definition clamp_window (n : Z) : Z :=
  let w := if n <? 1 then 1 else n in
  if w >? 100 then 100 else w.

(** The option variables of [main] once the arguments are parsed.  A word-list
    file is [None] when the option is absent, [Some None] when the named file
    cannot be opened, [Some (Some bytes)] otherwise. *)
Record Options := mkOptions {
  opt_window : Z;
  opt_baseline : float;
  opt_quiet : bool;
  opt_debug : bool;
  opt_sections : bool;
  opt_void_file : option (option (list ascii));
  opt_pers_file : option (option (list ascii))
}.

Definition default_options : Options :=
  mkOptions DEFAULT_WINDOW 0.03%float false false false None None.

(** What the program writes to [stderr]: "Unknown option: ..." and the text
    of [usage] from the argument loop, [perror] for a word list or an input
    that cannot be opened, and "No tokens found.". *)
Inductive Diag :=
| DiagPerror (name : string)
| DiagNoTokens
| DiagUnknownOption (arg : string)
| DiagUsage.

(** The [-q] record
    [printf("%d\t%d\t%d\t%d\t%d\t%.2f\t%.2f\t%.2f\n", ...)]. *)
Record QuietRecord := mkQuietRecord {
  q_total_void : Z;
  q_personality_void : Z;
  q_residual_void : Z;
  q_anomalous_void : Z;
  q_n_tokens : Z;
  q_z_raw : float;
  q_z_resid : float;
  q_z_anom : float
}.

(** How a context word is printed: [[w]] for the hit, [(w)] for a
    personality marker, bare otherwise. *)
Inductive CtxMark := CtxHit | CtxPers | CtxPlain.

(** The lines of the "VOID HIT DETAILS" listing ([-d]). *)
Inductive DebugLine :=
| DbgHeader (nhits : Z)
| DbgHit (cls : ascii) (w : cstring) (idx byte para : Z)
| DbgContext (ctx : list (CtxMark * cstring))
| DbgPersonality (n : Z)
| DbgTechnical (n : Z)
| DbgMore (n : Z).

Section Listing.

Variable toks : list Token.

Definition ctx_word (idx j : Z) : list (CtxMark * cstring) :=
  match toks !! Z.to_nat j with
  | Some t =>
      [(if j =? idx then CtxHit
        else if is_personality t then CtxPers else CtxPlain, word t)]
  | None => []
  end.

(** Body of [for (i = 0; i < show; i++)]. *)
Definition debug_hit (h : VoidHit) : list DebugLine :=
  let idx := token_idx h in
  match toks !! Z.to_nat idx with
  | None => []
  | Some t =>
      let lo := if idx - 5 <? 0 then 0 else idx - 5 in
      let hi := if idx + 5 >=? ntok toks then ntok toks - 1 else idx + 5 in
      [DbgHit (classification h) (word t) idx (byte_offset t) (para_id t);
       DbgContext
         (flat_map (ctx_word idx) (for_range (Z.to_nat (hi + 1 - lo)) lo))]
      ++ (if personality_count h >? 0
          then [DbgPersonality (personality_count h)] else [])
      ++ (if technical_count h >? 0
          then [DbgTechnical (technical_count h)] else [])
  end.

(** "Debug: individual hit listing". *)
Definition debug_listing (debug : bool) (log : list VoidHit) : list DebugLine :=
  let nh := Z.of_nat (length log) in
  if debug && (nh >? 0) then
    let show := if nh <? 100 then nh else 100 in
    [DbgHeader nh]
    ++ flat_map debug_hit (take (Z.to_nat show) log)
    ++ (if nh >? 100 then [DbgMore (nh - 100)] else [])
  else [].

End Listing.

(** The lines of the "PER-SECTION BREAKDOWN" table ([-s]): the header with
    the number of sections, and one row per section with its number, its
    integer counters and its flag, [FlagBlank] for ["   "] and [FlagQuestion]
    for [" ?"].  The percentage cell, a formatted floating-point value, is
    not part of the row. *)
Inductive SectionFlag := FlagBlank | FlagQuestion.

Inductive SectionLine :=
| SecHeader (nsections : Z)
| SecRow (number ntokens nvoid npers nresid ntech : Z) (flag : SectionFlag).

(** What the body of [for (p = 0; p < n_paragraphs && p < 200; p++)] does
    with section [p]: nothing for a section without token ([continue]), a
    row, or [strcpy(flag, " ⚠")], which copies the 5 bytes [20 E2 9A A0 00]
    into [char flag[4]] and so writes past the end of the array. *)
Inductive SectionStep :=
| SecSkip
| SecPrint (row : SectionLine)
| SecOverflow.

Definition section_step (p : Z) (pp : Paragraph) : SectionStep :=
  if total_tokens pp =? 0 then SecSkip
  else if (residual_void pp >? 0) && (technical_hits pp >? 0) then SecOverflow
  else SecPrint
         (SecRow (p + 1) (total_tokens pp) (void_hits pp)
                 (personality_void pp) (residual_void pp) (technical_hits pp)
                 (if residual_void pp >? 0 then FlagQuestion else FlagBlank)).

(** The loop over the sections, entered at section [p] with [n] iterations
    left: the rows printed, and whether the loop ran into the overflowing
    [strcpy]. *)
Fixpoint section_loop (n : nat) (p : Z) (ps : list Paragraph)
  : list SectionLine * bool :=
  match n with
  | O => ([], false)
  | S n' =>
      match ps !! Z.to_nat p with
      | None => ([], false)
      | Some pp =>
          match section_step p pp with
          | SecSkip => section_loop n' (p + 1) ps
          | SecPrint row =>
              let '(rows, over) := section_loop n' (p + 1) ps in
              (row :: rows, over)
          | SecOverflow => ([], true)
          end
      end
  end.

(** "Per-section breakdown". *)
Definition section_listing (sections : bool) (npara : Z)
           (ps : list Paragraph) : list SectionLine * bool :=
  if sections && (npara >? 0) then
    let '(rows, over) :=
      section_loop (Z.to_nat (if npara <? 200 then npara else 200)) 0 ps in
    (SecHeader npara :: rows, over)
  else ([], false).

(** How a run ends: [main] returns a status (or [load_cluster] calls
    [exit]), or the execution has undefined behaviour. *)
Inductive Termination :=
| Returns (code : Z)
| UndefinedBehaviour.

(** The observable result of a run.  [analysis] is [None] when the program
    stops before the classification.  [quiet_record] is the whole of [stdout]
    under [-q].  Without [-q] the report tables, whose cells are formatted
    floating-point values, are not part of the record; the hit listing and
    the section table, made of integers and words only, are [debug_lines] and
    [section_lines] (for a run that ends in undefined behaviour: what was
    written before it). *)
Record Run := mkRun {
  termination : Termination;
  diagnostics : list Diag;
  analysis : option (TokState * ClsState);
  quiet_record : option QuietRecord;
  debug_lines : list DebugLine;
  section_lines : list SectionLine
}.

(** The exit status of a run that returns; [-1], which the program never
    returns, stands for a run that has none. *)
Definition status (r : Run) : Z :=
  match termination r with
  | Returns code => code
  | UndefinedBehaviour => -1
  end.

(** [for (; argi < argc && n_inputs < 256; argi++)]: an unreadable file is
    reported and skipped. *)
Fixpoint open_inputs (args : list (string * option (list ascii)))
         (n_inputs : Z) : list Diag * list (list ascii) :=
  match args with
  | [] => ([], [])
  | (name, f) :: rest =>
      if n_inputs <? 256 then
        match f with
        | None =>
            let '(d, fs) := open_inputs rest n_inputs in
            (DiagPerror name :: d, fs)
        | Some bytes =>
            let '(d, fs) := open_inputs rest (n_inputs + 1) in (d, bytes :: fs)
        end
      else ([], [])
  end.

(** [main] from "Load clusters" to its end, on the option variables that
    the argument loop ([parse_args] below) has set.  [names] gives the names
    of the two word-list files for [perror]; [args] are the file operands with
    the content of those that can be opened; [stdin] is read when there is no
    operand. *)
Definition main (o : Options) (names : string * string)
           (args : list (string * option (list ascii))) (stdin : list ascii)
  : Run :=
  match load_cluster (opt_void_file o) VOID_CLUSTER with
  | None => mkRun (Returns 1) [DiagPerror (fst names)] None None [] []
  | Some void_set =>
  match load_cluster (opt_pers_file o) PERSONALITY_MARKERS with
  | None => mkRun (Returns 1) [DiagPerror (snd names)] None None [] []
  | Some pers_set =>
  match load_cluster None TECHNICAL_MARKERS with
  | None => mkRun (Returns 1) [] None None [] []
  | Some tech_set =>
      let '(diags, files) :=
        match args with
        | [] => ([], [stdin])
        | _ => open_inputs args 0
        end in
      let '(ts, cs) :=
        analyse void_set pers_set tech_set (opt_window o) files in
      if n_tokens ts =? 0
      then mkRun (Returns 1) (diags ++ [DiagNoTokens]) None None [] []
      else
        let b := opt_baseline o in
        if opt_quiet o then
          mkRun (Returns 0) diags (Some (ts, cs))
            (Some (mkQuietRecord (c_total_void cs) (c_personality_void cs)
                     (c_residual_void cs) (c_anomalous_void cs) (n_tokens ts)
                     (z_test (c_total_void cs) (n_tokens ts) b)
                     (z_test (c_residual_void cs) (n_tokens ts) b)
                     (z_test (c_anomalous_void cs) (n_tokens ts) b)))
            [] []
        else
          let '(rows, over) :=
            section_listing (opt_sections o) (n_paragraphs ts)
                            (c_paragraphs cs) in
          mkRun (if over then UndefinedBehaviour else Returns 0)
                diags (Some (ts, cs)) None
                (debug_listing (tokens ts) (opt_debug o) (hits cs)) rows
  end end end.

(** ** The argument loop *)

(** The variables of [main] that the argument loop sets: as [Options], with
    the names of the word-list files in place of their content. *)
Record Args := mkArgs {
  arg_window : Z;
  arg_baseline : float;
  arg_quiet : bool;
  arg_debug : bool;
  arg_sections : bool;
  arg_void_file : option string;
  arg_pers_file : option string
}.

Definition default_args : Args :=
  mkArgs DEFAULT_WINDOW 0.03%float false false false None None.

(** How the argument loop ends: [-h] or [--help], an unknown option, or the
    options and the operands that are left. *)
Inductive Parsed :=
| ParsedHelp
| ParsedUnknown (arg : string)
| ParsedArgs (a : Args) (operands : list string).

(** [argv[argi][0] == '-'] *)
Definition is_option (arg : string) : bool :=
  match arg with
  | String c _ => Ascii.eqb c "-"
  | EmptyString => false
  end.

Section Program.

(** [atoi] and [atof] of <stdlib.h>, and the content of the files that
    [fopen(name, "r")] can open. *)
Variable atoi : string -> Z.
Variable atof : string -> float.
Variable fopen : string -> option (list ascii).

(** [while (argi < argc && argv[argi][0] == '-')], from [argv[argi]] on.  An
    option that takes a value is recognised only when a value follows
    ([argi + 1 < argc]); otherwise the chain of tests goes on and ends in
    "Unknown option". *)
Fixpoint parse_args (argv : list string) (a : Args) : Parsed :=
  match argv with
  | [] => ParsedArgs a []
  | arg :: rest =>
      if negb (is_option arg) then ParsedArgs a argv
      else
        let no_value :=
          if String.eqb arg "-q" then
            parse_args rest
              (mkArgs (arg_window a) (arg_baseline a) true (arg_debug a)
                      (arg_sections a) (arg_void_file a) (arg_pers_file a))
          else if String.eqb arg "-d" then
            parse_args rest
              (mkArgs (arg_window a) (arg_baseline a) (arg_quiet a) true
                      (arg_sections a) (arg_void_file a) (arg_pers_file a))
          else if String.eqb arg "-s" then
            parse_args rest
              (mkArgs (arg_window a) (arg_baseline a) (arg_quiet a)
                      (arg_debug a) true (arg_void_file a) (arg_pers_file a))
          else if String.eqb arg "-h" || String.eqb arg "--help" then
            ParsedHelp
          else if String.eqb arg "--" then ParsedArgs a rest
          else ParsedUnknown arg in
        match rest with
        | value :: rest' =>
            if String.eqb arg "-w" then
              parse_args rest'
                (mkArgs (clamp_window (atoi value)) (arg_baseline a)
                        (arg_quiet a) (arg_debug a) (arg_sections a)
                        (arg_void_file a) (arg_pers_file a))
            else if String.eqb arg "-v" then
              parse_args rest'
                (mkArgs (arg_window a) (arg_baseline a) (arg_quiet a)
                        (arg_debug a) (arg_sections a) (Some value)
                        (arg_pers_file a))
            else if String.eqb arg "-p" then
              parse_args rest'
                (mkArgs (arg_window a) (arg_baseline a) (arg_quiet a)
                        (arg_debug a) (arg_sections a) (arg_void_file a)
                        (Some value))
            else if String.eqb arg "-b" then
              parse_args rest'
                (mkArgs (arg_window a) (atof value) (arg_quiet a)
                        (arg_debug a) (arg_sections a) (arg_void_file a)
                        (arg_pers_file a))
            else no_value
        | [] => no_value
        end
  end.

(** The option variables with the word-list files opened. *)
Definition options_of (a : Args) : Options :=
  mkOptions (arg_window a) (arg_baseline a) (arg_quiet a) (arg_debug a)
            (arg_sections a) (option_map fopen (arg_void_file a))
            (option_map fopen (arg_pers_file a)).

(** [int main(int argc, char *argv[])], whole: the argument loop from
    [argv[1]], which returns 0 after [usage] on [-h] and 1 on an unknown
    option, then [main] above on the operands. *)
Definition main_argv (argv : list string) (stdin : list ascii) : Run :=
  match parse_args (tl argv) default_args with
  | ParsedHelp => mkRun (Returns 0) [DiagUsage] None None [] []
  | ParsedUnknown arg =>
      mkRun (Returns 1) [DiagUnknownOption arg; DiagUsage] None None [] []
  | ParsedArgs a operands =>
      main (options_of a)
           (default ""%string (arg_void_file a),
            default ""%string (arg_pers_file a))
           (map (fun name => (name, fopen name)) operands) stdin
  end.

End Program.

(** ** Notions used to state the properties *)

(** [tokens[i].is_void] *)
Definition void_at (toks : list Token) (i : Z) : bool :=
  match toks !! Z.to_nat i with
  | Some t => is_void t
  | None => false
  end.

(** The indices of the cluster-term tokens, in corpus order. *)
Definition void_indices (toks : list Token) : list Z :=
  filter (fun i => void_at toks i = true) (for_range (length toks) 0).

(** The record the classifier computes for the cluster-term token [i]. *)
Definition hit_record (tech_set : HashSet) (toks : list Token) (window i : Z)
  : VoidHit :=
  let '(pc, tc) := scan_window tech_set toks window i in
  mkVoidHit i (pc >? 0) (tc >? 0) pc tc (classify pc tc).

(** One record per cluster-term token, whether logged or not. *)
Definition all_hits (tech_set : HashSet) (toks : list Token) (window : Z)
  : list VoidHit :=
  map (hit_record tech_set toks window) (void_indices toks).

Definition count_label (c : ascii) (hs : list VoidHit) : Z :=
  Z.of_nat (length (filter (fun h => Ascii.eqb (classification h) c = true) hs)).

Definition zsum (l : list Z) : Z := fold_right Z.add 0 l.

(** [paragraphs[p]] *)
Definition para_at (ps : list Paragraph) (p : Z) : Paragraph :=
  default zero_paragraph (ps !! Z.to_nat p).

(** The sum of a field over the sections [0 .. np). *)
Definition para_sum (g : Paragraph -> Z) (ps : list Paragraph) (np : Z) : Z :=
  zsum (map g (take (Z.to_nat np) ps)).

(** Token [i] lies in section [p]. *)
Definition in_section (ps : list Paragraph) (p i : Z) : Prop :=
  start_token (para_at ps p) <= i < end_token (para_at ps p).

(** The sections [0 .. np) split the token indices [0 .. n) into
    consecutive non-empty ranges. *)
Definition partitions (ps : list Paragraph) (np n : Z) : Prop :=
  0 <= np
  /\ (np = 0 -> n = 0)
  /\ (0 < np -> start_token (para_at ps 0) = 0
               /\ end_token (para_at ps (np - 1)) = n)
  /\ (forall p, 0 <= p < np ->
        start_token (para_at ps p) < end_token (para_at ps p)
        /\ total_tokens (para_at ps p)
           = end_token (para_at ps p) - start_token (para_at ps p))
  /\ (forall p, 0 <= p < np - 1 ->
        start_token (para_at ps (p + 1)) = end_token (para_at ps p)).

(** [tokens[j].is_personality] and [hs_contains(&tech_set, tokens[j].word)]:
    the two tests made on token [j], false outside the corpus. *)
Definition personality_at (toks : list Token) (j : Z) : bool :=
  match toks !! Z.to_nat j with
  | Some t => is_personality t
  | None => false
  end.

Definition technical_at (tech_set : HashSet) (toks : list Token) (j : Z)
  : bool :=
  match toks !! Z.to_nat j with
  | Some t => hs_contains tech_set (word t)
  | None => false
  end.

(** The number of indices of [l] that pass the test [f]. *)
Definition count_where (f : Z -> bool) (l : list Z) : Z :=
  zsum (map (fun j => b2z (f j)) l).

(** Token [i] lies in section [p], as a test. *)
Definition in_sectionb (ps : list Paragraph) (p i : Z) : bool :=
  (start_token (para_at ps p) <=? i) && (i <? end_token (para_at ps p)).

(** The label the classifier gives to the cluster-term token [i]. *)
Definition label_at (tech_set : HashSet) (toks : list Token) (window i : Z)
  : ascii :=
  classification (hit_record tech_set toks window i).

(** Token [i] is a cluster-term hit labelled Personality; token [i] is a
    cluster-term hit with another label (Anomalous or Residual). *)
Definition personality_hit_at (tech_set : HashSet) (toks : list Token)
           (window i : Z) : bool :=
  void_at toks i && Ascii.eqb (label_at tech_set toks window i) "P".

Definition residual_hit_at (tech_set : HashSet) (toks : list Token)
           (window i : Z) : bool :=
  void_at toks i && negb (Ascii.eqb (label_at tech_set toks window i) "P").

(** The number of tokens of section [p], among the first [n] tokens of the
    corpus, that pass the test [f]. *)
Definition section_count (ps : list Paragraph) (p : Z) (f : Z -> bool)
           (n : nat) : Z :=
  count_where (fun i => in_sectionb ps p i && f i) (for_range n 0).

(** The row of section [p] in the table of [-s], when its flag is not the
    warning sign. *)
Definition section_row (ps : list Paragraph) (p : Z) : SectionLine :=
  let pp := para_at ps p in
  SecRow (p + 1) (total_tokens pp) (void_hits pp) (personality_void pp)
         (residual_void pp) (technical_hits pp)
         (if residual_void pp >? 0 then FlagQuestion else FlagBlank).

(** One of the first 200 sections holds both a hit that is not labelled
    Personality and a technical-marker token. *)
Definition section_overflows (tech_set : HashSet) (toks : list Token)
           (window : Z) (ps : list Paragraph) (np : Z) : Prop :=
  exists p i j,
    0 <= p < np /\ p < 200
    /\ in_section ps p i /\ in_section ps p j
    /\ residual_hit_at tech_set toks window i = true
    /\ technical_at tech_set toks j = true.

(** ** Invariants used in the proofs *)

(** Two paragraph tables with the same token ranges. *)
Definition same_ranges (ps ps' : list Paragraph) : Prop :=
  Forall2 (fun a b => start_token a = start_token b
                      /\ end_token a = end_token b) ps ps'.

Definition keeps_range (f : Paragraph -> Paragraph) : Prop :=
  forall p, start_token (f p) = start_token p /\ end_token (f p) = end_token p.

(** Token [i] lies in one of the sections [0 .. np). *)
Definition covered (ps : list Paragraph) (np i : Z) : Prop :=
  exists q pp, (q < Z.to_nat np)%nat /\ ps !! q = Some pp
               /\ start_token pp <= i < end_token pp.

(** The hit counters of a paragraph are still zero. *)
Definition clean (p : Paragraph) : Prop :=
  void_hits p = 0 /\ personality_void p = 0 /\ residual_void p = 0.

(** Invariant of the tokenizer loop: the closed paragraphs [0 .. n_paragraphs)
    are consecutive and non-empty, the open one starts where the last closed
    one ends and not after [para_start]. *)
Definition tok_inv (st : TokState) : Prop :=
  length (paragraphs st) = Z.to_nat MAX_PARAGRAPHS
  /\ 0 <= n_paragraphs st < MAX_PARAGRAPHS
  /\ 0 <= para_start st <= n_tokens st
  /\ start_token (para_at (paragraphs st) 0) = 0
  /\ start_token (para_at (paragraphs st) (n_paragraphs st)) <= para_start st
  /\ (forall p, 0 <= p < n_paragraphs st ->
        start_token (para_at (paragraphs st) p)
          < end_token (para_at (paragraphs st) p)
        /\ total_tokens (para_at (paragraphs st) p)
           = end_token (para_at (paragraphs st) p)
             - start_token (para_at (paragraphs st) p)
        /\ start_token (para_at (paragraphs st) (p + 1))
           = end_token (para_at (paragraphs st) p))
  /\ Forall clean (paragraphs st).

(** A stored token: two to [MAX_WORD_LEN - 1] word characters, none of them
    upper-case, the first one a letter, and the two flags are the lookups of
    the word. *)
Definition token_ok (void_set pers_set : HashSet) (t : Token) : Prop :=
  (2 <= length (word t) <= Z.to_nat (MAX_WORD_LEN - 1))%nat
  /\ Forall (fun c => is_word_char c = true /\ isupper c = false) (word t)
  /\ (exists c w', word t = c :: w' /\ islower c = true)
  /\ is_void t = hs_contains void_set (word t)
  /\ is_personality t = hs_contains pers_set (word t).

(** Invariant of the tokenizer loop on the word buffer and the token
    array. *)
Definition tokens_inv (void_set pers_set : HashSet) (st : TokState) : Prop :=
  (length (wbuf st) <= Z.to_nat (MAX_WORD_LEN - 1))%nat
  /\ Forall (fun c => is_word_char c = true) (wbuf st)
  /\ n_tokens st <= MAX_TOKENS
  /\ Forall (token_ok void_set pers_set) (tokens st)
  /\ 0 <= cur_para_id st
  /\ Forall (fun t => 0 <= para_id t <= cur_para_id st) (tokens st)
  /\ (forall (i j : nat) ti tj,
        (i <= j)%nat -> tokens st !! i = Some ti -> tokens st !! j = Some tj ->
        para_id ti <= para_id tj).

(** The tokenizer state with the content of the word buffer lower-cased. *)
Definition lower_buf (st : TokState) : TokState :=
  mkTokState (tokens st) (cur_para_id st) (newline_count st) (para_start st)
             (paragraphs st) (n_paragraphs st) (lowercase (wbuf st))
             (byte_pos st) (word_start st).

(** The number of tokens among [toks] that pass the test [f]. *)
Definition count_tokens (f : Token -> bool) (toks : list Token) : Z :=
  zsum (map (fun t => b2z (f t)) toks).

(** The first line of the listing entry of a hit. *)
Definition is_hit_line (l : DebugLine) : bool :=
  match l with DbgHit _ _ _ _ _ => true | _ => false end.

Definition is_perror (d : Diag) : bool :=
  match d with DiagPerror _ => true | _ => false end.

(** Invariant of the tokenizer loop that links the paragraph id stored in a
    token with the section table: [n_paragraphs] follows [para_id] up to the
    last slot of the table, a token of a closed section lies in that section,
    and a token of the open section lies after its start. *)
Definition section_inv (st : TokState) : Prop :=
  n_paragraphs st = Z.min (cur_para_id st) (MAX_PARAGRAPHS - 1)
  /\ forall (i : nat) t,
       tokens st !! i = Some t ->
       0 <= para_id t <= cur_para_id st
       /\ (para_id t < n_paragraphs st ->
           in_section (paragraphs st) (para_id t) (Z.of_nat i))
       /\ (n_paragraphs st <= para_id t ->
           start_token (para_at (paragraphs st) (n_paragraphs st))
           <= Z.of_nat i).

(** A blank line in a byte stream: two line feeds with nothing but carriage
    returns between them. *)
Definition has_blank_line (s : list ascii) : Prop :=
  exists a crs b l1 l2,
    s = a ++ l1 :: crs ++ l2 :: b
    /\ code l1 = 10 /\ code l2 = 10
    /\ Forall (fun c => code c = 13) crs.

(** Invariant of the tokenizer loop on a stream without blank line, [h]
    being the bytes read so far: no section has been closed, and a pending
    line feed is the last byte read but for carriage returns. *)
Definition one_section_inv (h : list ascii) (st : TokState) : Prop :=
  cur_para_id st = 0 /\ n_paragraphs st = 0
  /\ 0 <= newline_count st <= 1
  /\ (newline_count st = 1 ->
      exists a l crs, h = a ++ l :: crs /\ code l = 10
                      /\ Forall (fun c => code c = 13) crs).

(** The records of the cluster-term tokens among the first [k] tokens. *)
Definition hits_upto (tech_set : HashSet) (toks : list Token) (window : Z)
           (k : nat) : list VoidHit :=
  map (hit_record tech_set toks window)
      (filter (fun i => void_at toks i = true) (for_range k 0)).

(** Invariant of the classification loop after [k] iterations. *)
Definition cls_spec (tech_set : HashSet) (toks : list Token) (window : Z)
           (k : nat) (cs : ClsState) : Prop :=
  let L := hits_upto tech_set toks window k in
  hits cs = take (Z.to_nat MAX_HIT_LOG) L
  /\ c_total_void cs = Z.of_nat (length L)
  /\ c_personality_void cs = count_label "P" L
  /\ c_anomalous_void cs = count_label "A" L
  /\ c_residual_void cs = count_label "A" L + count_label "R" L.

(** Invariant of the classification loop on the paragraph table: the ranges
    are those of [ps0], and each hit counter summed over the sections has
    grown by the corpus-level counter. *)
Definition para_spec (np : Z) (ps0 : list Paragraph) (cs : ClsState) : Prop :=
  same_ranges ps0 (c_paragraphs cs)
  /\ para_sum void_hits (c_paragraphs cs) np
     = para_sum void_hits ps0 np + c_total_void cs
  /\ para_sum personality_void (c_paragraphs cs) np
     = para_sum personality_void ps0 np + c_personality_void cs
  /\ para_sum residual_void (c_paragraphs cs) np
     = para_sum residual_void ps0 np + c_residual_void cs.

(** ** Runs used to state the properties *)

(** The technical-marker set of every run: [main] always loads the built-in
    list. *)
Definition tech_default : HashSet := load_defaults hs_init TECHNICAL_MARKERS.

(** The streams [main] reads and the [perror] messages of the operands that
    cannot be opened. *)
Definition input_files (args : list (string * option (list ascii)))
           (stdin : list ascii) : list (list ascii) :=
  match args with
  | [] => [stdin]
  | _ => snd (open_inputs args 0)
  end.

Definition input_diags (args : list (string * option (list ascii)))
  : list Diag :=
  match args with
  | [] => []
  | _ => fst (open_inputs args 0)
  end.

(** The labels of the logged hits of a run, in order. *)
Definition labels_of_run (r : Run) : list ascii :=
  match analysis r with
  | Some (_, cs) => map classification (hits cs)
  | None => []
  end.

(** Scenario B: window radius [w], an empty personality word list ([-p] on
    an empty file), text on standard input. *)
Definition scenario_B (w : Z) (text : string) : Run :=
  main (mkOptions w 0.03%float false false false None (Some (Some [])))
       (""%string, ""%string) [] (cstr text).



(** A run that writes nothing on [stdout] and makes no analysis. *)
Definition no_output (r : Run) : Prop :=
  analysis r = None /\ quiet_record r = None
  /\ debug_lines r = [] /\ section_lines r = [].



(** The tokenizer state after a run [r] of word characters has been read
    from state [st]: only the first [MAX_WORD_LEN - 1] characters are kept
    in the buffer. *)
Definition after_word (st : TokState) (r : list ascii) : TokState :=
  mkTokState (tokens st) (cur_para_id st)
             (match r with [] => newline_count st | _ => 0 end)
             (para_start st) (paragraphs st) (n_paragraphs st)
             (take (Z.to_nat (MAX_WORD_LEN - 1)) (wbuf st ++ r))
             (byte_pos st + Z.of_nat (length r))
             (match wbuf st, r with
              | [], _ :: _ => byte_pos st + 1
              | _, _ => word_start st
              end).

End Filter.

(** * void-cluster-analyzer.c *)

Module Analyzer.

Definition MAX_WORDLIST : Z := 512.

(** [INT_MAX] of a 32-bit [int]. *)
Definition INT_MAX : Z := 2147483647.

(** [x++] on an [int] counter.  The program tests none of its counters
    against a bound ([MAX_TOKENS] is defined and never used), so an increment
    at [INT_MAX] overflows: undefined in ISO C, it wraps to [INT_MIN] on the
    two's-complement targets, which is what the embedding follows. *)
Definition int_incr (x : Z) : Z :=
  if x <? INT_MAX then x + 1 else - INT_MAX - 1.

Record WordCount := mkWordCount {
  wc_word : cstring;
  wc_count : Z
}.

(** The search loop of [record_hit]: [Some] of the updated table when the
    word is found (the [return] inside the loop). *)
Fixpoint record_loop (tbl : list WordCount) (word : cstring)
  : option (list WordCount) :=
  match tbl with
  | [] => None
  | e :: rest =>
      if cstr_eqb (wc_word e) word
      then Some (mkWordCount (wc_word e) (int_incr (wc_count e)) :: rest)
      else option_map (cons e) (record_loop rest word)
  end.

(** [static void record_hit(const char *word)] on the table
    [cluster_hits[0 .. n_cluster_hits)]. *)
Definition record_hit (tbl : list WordCount) (word : cstring)
  : list WordCount :=
  match record_loop tbl word with
  | Some tbl' => tbl'
  | None =>
      if Z.of_nat (length tbl) <? MAX_WORDLIST
      then tbl ++ [mkWordCount (strncpy_word word) 1]
      else tbl
  end.

(** ** Statistics (IEEE 754 binary64) *)

(** [static double z_test(int hits, int total, double p0)] *)
Definition z_test (hits total : Z) (p0 : float) : float :=
  let p_hat := (double_of_int hits / double_of_int total)%float in
  let se := PrimFloat.sqrt (p0 * (1 - p0) / double_of_int total)%float in
  if (se <? 1e-15)%float then 0%float
  else ((p_hat - p0) / se)%float.

(** [static double chi_sq(int hits, int total, double p0)] *)
Definition chi_sq (hits total : Z) (p0 : float) : float :=
  let e_hit := (double_of_int total * p0)%float in
  let e_non := (double_of_int total * (1 - p0))%float in
  let o_hit := double_of_int hits in
  let o_non := double_of_int (total - hits) in
  if ((e_hit <? 1e-15) || (e_non <? 1e-15))%float then 0%float
  else (((o_hit - e_hit) * (o_hit - e_hit)) / e_hit +
        ((o_non - e_non) * (o_non - e_non)) / e_non)%float.

(** ** Tokenizer and counting *)

(** [total_tokens], [total_hits], the frequency table and the filled part of
    the per-file [word] buffer. *)
Record State := mkState {
  total_tokens : Z;
  total_hits : Z;
  cluster_hits : list WordCount;
  wbuf : list ascii
}.

Definition wpos (st : State) : Z := Z.of_nat (length (wbuf st)).
Definition n_cluster_hits (st : State) : Z :=
  Z.of_nat (length (cluster_hits st)).

Section Counting.

Variable cluster : HashSet.

(** End of a word: [word[wpos] = '\0'; lowercase(word);] and the counting
    [if]; the buffer is left to the caller. *)
Definition count_word (st : State) : State :=
  let w := lowercase (wbuf st) in
  if (wpos st >=? 1) && match w with c :: _ => isalpha c | [] => false end
  then
    if hs_contains cluster w
    then mkState (int_incr (total_tokens st)) (int_incr (total_hits st))
                 (record_hit (cluster_hits st) w) (wbuf st)
    else mkState (int_incr (total_tokens st)) (total_hits st)
                 (cluster_hits st) (wbuf st)
  else st.

Definition reset_word (st : State) : State :=
  mkState (total_tokens st) (total_hits st) (cluster_hits st) [].

(** One iteration of [while ((c = fgetc(f)) != EOF)]. *)
Definition char_step (st : State) (c : ascii) : State :=
  if is_word_char c then
    if wpos st <? MAX_WORD_LEN - 1
    then mkState (total_tokens st) (total_hits st) (cluster_hits st)
                 (wbuf st ++ [c])
    else st
  else if wpos st >? 0 then reset_word (count_word st)
  else st.

(** "flush last word" *)
Definition flush_last (st : State) : State :=
  if wpos st >? 0 then count_word st else st.

(** Body of [for (fi = 0; fi < n_inputs; fi++)]. *)
Definition read_file (st : State) (f : list ascii) : State :=
  flush_last (fold_left char_step f (reset_word st)).

Definition init : State := mkState 0 0 [] [].

(** "Process input" *)
Definition process (files : list (list ascii)) : State :=
  fold_left read_file files init.

End Counting.

(** [main] after argument parsing, up to the computation of the counts:
    [None] when the word list cannot be opened or the corpus has no token
    (exit status 1).  [wordlist] follows the convention of [load_cluster];
    [files] are the readable inputs in order ([stdin] alone when no operand
    is given). *)
Definition main (wordlist : option (option (list ascii)))
           (files : list (list ascii)) : option State :=
  match load_cluster wordlist DEFAULT_CLUSTER with
  | None => None
  | Some cluster =>
      let st := process cluster files in
      if total_tokens st =? 0 then None else Some st
  end.

(** The quiet-mode z-scores, one per baseline. *)
Definition quiet_z (st : State) (baselines : list float) : list float :=
  map (z_test (total_hits st) (total_tokens st)) baselines.

(** ** Notions used to state the properties *)

(** The number of bytes of the inputs. *)
Definition input_bytes (files : list (list ascii)) : Z :=
  Z.of_nat (length (concat files)).

(** The sum of the counts of the frequency table. *)
Definition table_sum (tbl : list WordCount) : Z :=
  fold_right Z.add 0 (map wc_count tbl).

(** Invariant of the counting loop: the table lists distinct words of the
    cluster, its counts never exceed the number of hits, and they add up to
    it as long as the table has room or the cluster is no larger than the
    table. *)
Definition count_inv (cluster : HashSet) (st : State) : Prop :=
  (length (wbuf st) <= Z.to_nat (MAX_WORD_LEN - 1))%nat
  /\ NoDup (map wc_word (cluster_hits st))
  /\ (forall w, w ∈ map wc_word (cluster_hits st)
                -> w ∈ stored_words cluster)
  /\ table_sum (cluster_hits st) <= total_hits st
  /\ (n_cluster_hits st < MAX_WORDLIST
      \/ Z.of_nat (length (stored_words cluster)) <= MAX_WORDLIST
      -> table_sum (cluster_hits st) = total_hits st).

(** Invariant of the counting loop on the counters: hits are tokens, the
    table never outgrows its array, and every entry is a lower-case word
    counted at least once. *)
Definition table_inv (st : State) : Prop :=
  0 <= total_hits st <= total_tokens st
  /\ n_cluster_hits st <= MAX_WORDLIST
  /\ n_cluster_hits st <= total_hits st
  /\ Forall (fun e => 1 <= wc_count e /\ normalised (wc_word e))
            (cluster_hits st).

(** One token to come for a word that is still in the buffer. *)
Definition pending (st : State) : Z :=
  match wbuf st with [] => 0 | _ => 1 end.

(** After [k] input bytes, [k] within the range of [int]: every token counted
    or pending has taken a byte of its own, so no counter has overflowed. *)
Definition in_budget (k : Z) (st : State) : Prop :=
  total_tokens st + pending st <= k /\ k <= INT_MAX.

(** The invariants of the counting loop together, inside a file after [k]
    bytes and between two files. *)
Definition counting_inv (cluster : HashSet) (k : Z) (st : State) : Prop :=
  count_inv cluster st /\ table_inv st /\ in_budget k st.

Definition counted_inv (cluster : HashSet) (k : Z) (st : State) : Prop :=
  count_inv cluster st /\ table_inv st /\ total_tokens st <= k <= INT_MAX.

(** The analyzer state with the content of the word buffer lower-cased. *)
Definition lower_buf (st : State) : State :=
  mkState (total_tokens st) (total_hits st) (cluster_hits st)
          (lowercase (wbuf st)).

(** The analyzer state after a run [r] of word characters has been read. *)
Definition after_word (st : State) (r : list ascii) : State :=
  mkState (total_tokens st) (total_hits st) (cluster_hits st)
          (take (Z.to_nat (MAX_WORD_LEN - 1)) (wbuf st ++ r)).




End Analyzer.

(** * The two tokenizers side by side *)

(** The filter and the analyzer reading the same bytes with the same cluster
    set: the word buffers agree, and the analyzer has counted every token the
    filter stored and every cluster term among them. *)
Definition both_read (fs : Filter.TokState) (st : Analyzer.State) : Prop :=
  Filter.wbuf fs = Analyzer.wbuf st
  /\ Filter.n_tokens fs <= Analyzer.total_tokens st
  /\ Filter.count_tokens Filter.is_void (Filter.tokens fs)
     <= Analyzer.total_hits st.

(** The first character of a run of characters is a letter: the test
    [isalpha((unsigned char)word[0])] of both tokenizers, which lower-casing
    does not change. *)
Definition starts_with_letter (r : list ascii) : bool :=
  match r with c :: _ => isalpha c | [] => false end.

(** A run of 65 word characters that starts with a hyphen. *)
Definition hyphen_run : list ascii := "-"%char :: replicate 64 "a"%char.

(** * Facts shared by the two programs *)

Lemma load_cluster_defaults d :
  load_cluster None d = Some (load_defaults hs_init d).
Proof. reflexivity. Qed.

Lemma cstr_eqb_eq a b : cstr_eqb a b = true <-> a = b.
Proof.
  revert b. induction a as [|x a IH]; intros [|y b]; simpl; try done.
  rewrite andb_true_iff, Ascii.eqb_eq, IH. split.
  - by intros [-> ->].
  - intros [= -> ->]. done.
Qed.

Lemma hs_contains_loop_stored n i idx hs w :
  hs_contains_loop n i idx hs w = true -> w ∈ stored_words hs.
Proof.
  revert i. induction n as [|n IH]; intros i; simpl; [done|].
  destruct (hs_slots hs !! probe idx i) as [[w'|]|] eqn:E; try done.
  destruct (cstr_eqb w' w) eqn:Ew.
  - intros _. apply cstr_eqb_eq in Ew as ->.
    unfold stored_words. apply list_elem_of_omap.
    exists (Some w). split; [|done]. by eapply list_elem_of_lookup_2.
  - apply IH.
Qed.

Lemma hs_contains_stored hs w :
  hs_contains hs w = true -> w ∈ stored_words hs.
Proof. apply hs_contains_loop_stored. Qed.

Lemma strncpy_word_short w :
  (length w <= Z.to_nat (MAX_WORD_LEN - 1))%nat -> strncpy_word w = w.
Proof. intros H. unfold strncpy_word. by apply take_ge. Qed.

Lemma code_range c : 0 <= code c < 256.
Proof.
  unfold code. pose proof (N_ascii_bounded c). lia.
Qed.

Lemma word_char_not_newline c :
  is_word_char c = true -> (code c =? 10) = false /\ (code c =? 13) = false.
Proof.
  unfold is_word_char, isalpha, isupper, islower. intros H.
  split; apply Z.eqb_neq; intros E; rewrite E in H; done.
Qed.

Lemma take_take_app {A} n (a b : list A) :
  take n (take n a ++ b) = take n (a ++ b).
Proof.
  destruct (decide (length a <= n)%nat) as [Hle|Hgt].
  - by rewrite (take_ge a).
  - rewrite !take_app_le by (rewrite ?length_take; lia).
    rewrite take_take. f_equal. lia.
Qed.

Lemma isalpha_tolower c : isalpha (tolower c) = isalpha c.
Proof.
  destruct c as [[] [] [] [] [] [] [] []]; reflexivity.
Qed.


(** * The hash set *)

Lemma probe_mod idx i :
  0 <= idx -> 0 <= i ->
  Z.of_nat (probe idx i) = (idx + i) mod HASH_SIZE.
Proof.
  intros Hidx Hi. unfold probe, wrap32, HASH_SIZE.
  change (4096 - 1) with (Z.ones 12). rewrite Z.land_ones by lia.
  rewrite Z2Nat.id by (apply Z.mod_pos_bound; lia).
  change (2 ^ 32) with (2 ^ 12 * 2 ^ 20).
  rewrite Z.rem_mul_r by lia.
  rewrite Z.mul_comm, Z.mod_add by lia. rewrite Z.mod_mod by lia. done.
Qed.

Lemma home_range w : 0 <= home w < HASH_SIZE.
Proof.
  unfold home, HASH_SIZE. change (4096 - 1) with (Z.ones 12).
  rewrite Z.land_ones by lia. apply Z.mod_pos_bound. lia.
Qed.

Lemma probe_lt idx i : (probe idx i < Z.to_nat HASH_SIZE)%nat.
Proof.
  unfold probe, HASH_SIZE. change (4096 - 1) with (Z.ones 12).
  rewrite Z.land_ones by lia.
  pose proof (Z.mod_pos_bound (wrap32 (idx + i)) (2 ^ 12) ltac:(lia)). lia.
Qed.

(** Probing from any start visits every slot within [HASH_SIZE] steps. *)
Lemma probe_covers idx (p : nat) :
  0 <= idx -> (p < Z.to_nat HASH_SIZE)%nat ->
  exists i : nat, (i < Z.to_nat HASH_SIZE)%nat /\ probe idx (Z.of_nat i) = p.
Proof.
  intros Hidx Hp. exists (Z.to_nat ((Z.of_nat p - idx) mod HASH_SIZE)).
  pose proof (Z.mod_pos_bound (Z.of_nat p - idx) HASH_SIZE
                ltac:(unfold HASH_SIZE; lia)) as Hb.
  split; [lia|]. apply Nat2Z.inj. rewrite probe_mod by lia.
  rewrite Z2Nat.id by lia. rewrite Zplus_mod_idemp_r.
  replace (idx + (Z.of_nat p - idx)) with (Z.of_nat p) by lia.
  apply Z.mod_small. unfold HASH_SIZE in *. lia.
Qed.

(** Two probes of fewer than [HASH_SIZE] steps from the same start reach
    different slots. *)
Lemma probe_inj idx (i j : nat) :
  0 <= idx -> (i < Z.to_nat HASH_SIZE)%nat -> (j < Z.to_nat HASH_SIZE)%nat ->
  probe idx (Z.of_nat i) = probe idx (Z.of_nat j) -> i = j.
Proof.
  intros Hidx Hi Hj E. apply (f_equal Z.of_nat) in E.
  rewrite !probe_mod in E by lia. unfold HASH_SIZE in *.
  assert (H : (Z.of_nat i - Z.of_nat j) mod 4096 = 0).
  { replace (Z.of_nat i - Z.of_nat j)
      with ((idx + Z.of_nat i) - (idx + Z.of_nat j)) by lia.
    rewrite Zminus_mod, E, Z.sub_diag. done. }
  apply Z.mod_divide in H; [|lia]. destruct H as [k Hk].
  assert (k = 0) by lia. lia.
Qed.

Lemma cstr_eqb_refl w : cstr_eqb w w = true.
Proof. by apply cstr_eqb_eq. Qed.

Lemma cstr_eqb_neq a b : cstr_eqb a b = false <-> a <> b.
Proof.
  split.
  - intros E ->. by rewrite cstr_eqb_refl in E.
  - intros Hne. destruct (cstr_eqb a b) eqn:E; [|done].
    by apply cstr_eqb_eq in E.
Qed.

Lemma elem_of_stored_words hs w :
  w ∈ stored_words hs <-> exists p, hs_slots hs !! p = Some (Some w).
Proof.
  unfold stored_words. rewrite list_elem_of_omap. split.
  - intros (x & Hx & ->). apply list_elem_of_lookup in Hx as [p Hp]. eauto.
  - intros [p Hp]. exists (Some w). split; [|done].
    by eapply list_elem_of_lookup_2.
Qed.

(** The lookup loop succeeds when the word sits at a probe that is reached
    through occupied slots. *)
Lemma hs_contains_loop_found hs idx w (i : nat) :
  forall n (k : nat),
    (k <= i < k + n)%nat ->
    hs_slots hs !! probe idx (Z.of_nat i) = Some (Some w) ->
    (forall j : nat, (k <= j < i)%nat ->
       exists w', hs_slots hs !! probe idx (Z.of_nat j) = Some (Some w')) ->
    hs_contains_loop n (Z.of_nat k) idx hs w = true.
Proof.
  induction n as [|n IH]; intros k Hk Hi Hpath; [lia|].
  cbn [hs_contains_loop].
  destruct (decide (k = i)) as [->|Hne].
  - by rewrite Hi, cstr_eqb_refl.
  - destruct (Hpath k ltac:(lia)) as [w' ->].
    destruct (cstr_eqb w' w); [done|].
    replace (Z.of_nat k + 1) with (Z.of_nat (S k)) by lia.
    apply IH; [lia|done|]. intros j Hj. apply Hpath. lia.
Qed.

(** Membership test and stored words agree on a well-formed set. *)
Lemma hs_contains_iff hs w :
  hs_wf hs -> hs_contains hs w = true <-> w ∈ stored_words hs.
Proof.
  intros (Hlen & Hcnt & Hwf). split; [apply hs_contains_stored|].
  intros Hw. apply elem_of_stored_words in Hw as [p Hp].
  destruct (Hwf p w Hp) as (_ & i & Hi & Hpi & Hpath).
  unfold hs_contains. fold (home w).
  apply (hs_contains_loop_found hs (home w) w i _ 0%nat); [lia|by rewrite Hpi|].
  intros j Hj. destruct (Hpath j ltac:(lia)) as (w' & Hw' & _). eauto.
Qed.

(** The insertion loop, entered at probe [k] after non-matching occupied
    slots, ends in one of three ways: the word is found, a free slot is
    taken, or all remaining probes are occupied by other words. *)
Lemma hs_insert_loop_cases hs idx w :
  length (hs_slots hs) = Z.to_nat HASH_SIZE ->
  forall n (k : nat),
    (exists i : nat,
        (k <= i < k + n)%nat
        /\ hs_slots hs !! probe idx (Z.of_nat i) = Some (Some w)
        /\ (forall j : nat, (k <= j < i)%nat ->
              exists w', hs_slots hs !! probe idx (Z.of_nat j) = Some (Some w')
                         /\ w' <> w)
        /\ hs_insert_loop n (Z.of_nat k) idx hs w = (hs, false))
    \/ (exists i : nat,
          (k <= i < k + n)%nat
          /\ hs_slots hs !! probe idx (Z.of_nat i) = Some None
          /\ (forall j : nat, (k <= j < i)%nat ->
                exists w', hs_slots hs !! probe idx (Z.of_nat j)
                           = Some (Some w') /\ w' <> w)
          /\ hs_insert_loop n (Z.of_nat k) idx hs w
             = (mkHashSet (<[probe idx (Z.of_nat i) := Some (strncpy_word w)]>
                             (hs_slots hs))
                          (hs_count hs + 1), true))
    \/ ((forall j : nat, (k <= j < k + n)%nat ->
           exists w', hs_slots hs !! probe idx (Z.of_nat j) = Some (Some w')
                      /\ w' <> w)
        /\ hs_insert_loop n (Z.of_nat k) idx hs w = (hs, false)).
Proof.
  intros Hlen. induction n as [|n IH]; intros k.
  - right; right. split; [intros; lia|done].
  - cbn [hs_insert_loop].
    destruct (lookup_lt_is_Some_2 (hs_slots hs) (probe idx (Z.of_nat k)))
      as [slot Hslot]; [rewrite Hlen; apply probe_lt|].
    rewrite Hslot. destruct slot as [w'|].
    + destruct (cstr_eqb w' w) eqn:E.
      * apply cstr_eqb_eq in E as ->. left. exists k.
        split_and!; [lia|lia|done|intros; lia|done].
      * apply cstr_eqb_neq in E.
        replace (Z.of_nat k + 1) with (Z.of_nat (S k)) by lia.
        assert (Hpre : forall i j : nat,
                  (forall j : nat, (S k <= j < i)%nat ->
                     exists w', hs_slots hs !! probe idx (Z.of_nat j)
                                = Some (Some w') /\ w' <> w) ->
                  (k <= j < i)%nat ->
                  exists w', hs_slots hs !! probe idx (Z.of_nat j)
                             = Some (Some w') /\ w' <> w).
        { intros i j H Hj. destruct (decide (j = k)) as [->|]; [eauto|].
          apply H. lia. }
        destruct (IH (S k)) as [(i & Hi & Hs & Hp & ->)
                               |[(i & Hi & Hs & Hp & ->)|(Hp & ->)]].
        -- left. exists i.
           split_and!; [lia|lia|done|intros j Hj; by apply (Hpre i j)|done].
        -- right; left. exists i.
           split_and!; [lia|lia|done|intros j Hj; by apply (Hpre i j)|done].
        -- right; right. split; [|done].
           replace (k + S n)%nat with (S k + n)%nat by lia.
           intros j Hj. by apply (Hpre (S k + n)%nat j).
    + right; left. exists k. split_and!; [lia|lia|done|intros; lia|done].
Qed.

(** Counting occupied slots. *)
Lemma occupied_le {A} (l : list (option A)) :
  (length (omap (fun s => s) l) <= length l)%nat.
Proof. induction l as [|[x|] l IH]; cbn [omap list_omap length] in *; lia. Qed.

Lemma occupied_free_lt {A} (l : list (option A)) p :
  l !! p = Some None -> (length (omap (fun s => s) l) < length l)%nat.
Proof.
  revert p. induction l as [|x l IH]; intros [|p] H; simplify_eq/=.
  - pose proof (occupied_le l). cbn [omap list_omap length] in *. lia.
  - specialize (IH p H). destruct x; cbn [omap list_omap length] in *; lia.
Qed.

Lemma occupied_lt_free {A} (l : list (option A)) :
  (length (omap (fun s => s) l) < length l)%nat ->
  exists p, l !! p = Some None.
Proof.
  induction l as [|[x|] l IH]; cbn [omap list_omap length] in *; intros H;
    [lia| |by exists 0%nat].
  destruct IH as [p Hp]; [lia|]. by exists (S p).
Qed.

Lemma occupied_insert {A} (l : list (option A)) p x :
  l !! p = Some None ->
  length (omap (fun s => s) (<[p := Some x]> l))
  = S (length (omap (fun s => s) l)).
Proof.
  revert p. induction l as [|y l IH]; intros [|p] H; simplify_eq/=; [done|].
  specialize (IH p H). destruct y; cbn [omap list_omap length] in *; lia.
Qed.

(** [hs_init] is the empty set. *)
Lemma hs_init_wf : hs_wf hs_init.
Proof.
  unfold hs_wf, hs_init, stored_words. cbn [hs_slots hs_count].
  split; [by rewrite length_replicate|]. split.
  - generalize (Z.to_nat HASH_SIZE). intros n. by induction n.
  - intros p w H. apply lookup_replicate in H as [? _]. done.
Qed.

Lemma hs_init_empty w : hs_contains hs_init w = false.
Proof.
  destruct (hs_contains hs_init w) eqn:E; [|done].
  apply hs_contains_stored, elem_of_stored_words in E as [p Hp].
  apply lookup_replicate in Hp as [? _]. done.
Qed.

(** What [hs_insert] does to a well-formed set. *)
Lemma hs_insert_spec hs w :
  hs_wf hs -> (length w <= Z.to_nat (MAX_WORD_LEN - 1))%nat ->
  hs_wf (fst (hs_insert hs w))
  /\ (snd (hs_insert hs w) = true
      <-> (w ∉ stored_words hs) /\ hs_count hs < HASH_SIZE)
  /\ (snd (hs_insert hs w) = false -> fst (hs_insert hs w) = hs)
  /\ (snd (hs_insert hs w) = true ->
      hs_count (fst (hs_insert hs w)) = hs_count hs + 1
      /\ forall v, v ∈ stored_words (fst (hs_insert hs w))
                   <-> v = w \/ v ∈ stored_words hs).
Proof.
  intros Hwf Hw. pose proof Hwf as (Hlen & Hcnt & Hpaths).
  pose proof (home_range w) as Hhome.
  unfold hs_insert. fold (home w).
  destruct (hs_insert_loop_cases hs (home w) w Hlen (Z.to_nat HASH_SIZE) 0)
    as [(i & Hi & Hs & Hp & E)|[(i & Hi & Hs & Hp & E)|(Hp & E)]];
    change (Z.of_nat 0) with 0 in E; rewrite E; cbn [fst snd].
  - (* already present *)
    assert (w ∈ stored_words hs) by (apply elem_of_stored_words; eauto).
    split_and!; [done| |done|done]. split; [done|]. intros [? _]. done.
  - (* a free slot is taken *)
    set (p := probe (home w) (Z.of_nat i)) in *.
    assert (Hfree : forall q v, hs_slots hs !! q = Some (Some v) -> q <> p).
    { intros q v Hq ->. congruence. }
    assert (Hnew : w ∉ stored_words hs).
    { intros Hin. apply elem_of_stored_words in Hin as [q Hq].
      destruct (Hpaths q w Hq) as (_ & i' & Hi' & Hq' & Hpath').
      destruct (Nat.lt_total i' i) as [Hlt|[->|Hgt]].
      - destruct (Hp i' ltac:(lia)) as (w' & Hw' & Hne).
        rewrite Hq' in Hw'. congruence.
      - subst q. pose proof (eq_trans (eq_sym Hs) Hq) as Hbad. discriminate Hbad.
      - destruct (Hpath' i Hgt) as (w' & Hw' & _).
        pose proof (eq_trans (eq_sym Hs) Hw') as Hbad. discriminate Hbad. }
    assert (Hlookup : forall q v,
              <[p := Some (strncpy_word w)]> (hs_slots hs) !! q = Some (Some v)
              <-> (q = p /\ v = w) \/ hs_slots hs !! q = Some (Some v)).
    { intros q v. rewrite strncpy_word_short by done.
      destruct (decide (q = p)) as [->|Hne].
      - rewrite list_lookup_insert_eq by (eapply lookup_lt_Some; exact Hs).
        split; [intros [= ->]; by left|]. intros [[_ ->]|H]; [done|].
        pose proof (eq_trans (eq_sym Hs) H) as Hbad. discriminate Hbad.
      - rewrite list_lookup_insert_ne by done.
        split; [by right|]. intros [[Hq _]|H]; [by destruct Hne|exact H]. }
    split_and!.
    + unfold hs_wf, stored_words. cbn [hs_slots hs_count].
      rewrite length_insert. split; [done|]. split.
      * rewrite occupied_insert by done. rewrite Hcnt. unfold stored_words. lia.
      * intros q v Hq. apply Hlookup in Hq as [[-> ->]|Hq].
        -- split; [done|]. exists i. split_and!; [lia|done|].
           intros j Hj. destruct (Hp j ltac:(lia)) as (w' & Hw' & Hne).
           exists w'. split; [|done]. apply Hlookup. by right.
        -- destruct (Hpaths q v Hq) as (Hv & i' & Hi' & Hq' & Hpath').
           split; [done|]. exists i'. split_and!; [done..|].
           intros j Hj. destruct (Hpath' j Hj) as (w' & Hw' & Hne).
           exists w'. split; [|done]. apply Hlookup. by right.
    + split; [|done]. intros _. split; [done|].
      pose proof (occupied_free_lt _ _ Hs) as Hlt. rewrite Hcnt.
      unfold stored_words. rewrite Hlen in Hlt. lia.
    + done.
    + intros _. split; [done|]. intros v.
      rewrite !elem_of_stored_words. cbn [hs_slots]. split.
      * intros [q Hq]. apply Hlookup in Hq as [[-> ->]|Hq]; [by left|right; eauto].
      * intros [->|[q Hq]].
        -- exists p. apply Hlookup. by left.
        -- exists q. apply Hlookup. by right.
  - (* every probe is occupied by another word *)
    split_and!; [done| |done|done]. split; [done|]. intros [_ Hlt]. exfalso.
    destruct (occupied_lt_free (hs_slots hs)) as [q Hq].
    { fold (stored_words hs). rewrite Hlen. lia. }
    destruct (probe_covers (home w) q ltac:(lia)) as (i & Hi & Hq').
    { apply lookup_lt_Some in Hq. lia. }
    destruct (Hp i ltac:(lia)) as (w' & Hw' & _). rewrite Hq' in Hw'. congruence.
Qed.

(** ** Lower-casing *)

Lemma isupper_tolower c : isupper (tolower c) = false.
Proof. destruct c as [[] [] [] [] [] [] [] []]; reflexivity. Qed.

Lemma tolower_idem c : tolower (tolower c) = tolower c.
Proof. unfold tolower at 1. by rewrite isupper_tolower. Qed.

Lemma tolower_not_upper c : isupper c = false -> tolower c = c.
Proof. intros H. unfold tolower. by rewrite H. Qed.

Lemma code_tolower_ctl c k :
  k < 65 -> (code (tolower c) =? k) = (code c =? k).
Proof.
  intros Hk. unfold tolower. destruct (isupper c) eqn:E; [|done].
  assert (97 <= code (ascii_of_N (Z.to_N (code c + 32))) <= 122) as Hr.
  { revert E. destruct c as [[] [] [] [] [] [] [] []]; vm_compute;
      (discriminate || (intros _; split; discriminate)). }
  unfold isupper in E. apply andb_true_iff in E as [E1 E2].
  apply Z.leb_le in E1, E2.
  transitivity false; [|symmetry]; apply Z.eqb_neq; lia.
Qed.

Lemma is_word_char_tolower c : is_word_char (tolower c) = is_word_char c.
Proof.
  unfold is_word_char. rewrite isalpha_tolower.
  by rewrite !code_tolower_ctl by lia.
Qed.

Lemma lowercase_length w : length (lowercase w) = length w.
Proof. apply length_map. Qed.

Lemma lowercase_idem w : lowercase (lowercase w) = lowercase w.
Proof.
  unfold lowercase. rewrite map_map. apply map_ext, tolower_idem.
Qed.

Lemma lowercase_no_upper w : Forall (fun c => isupper c = false) (lowercase w).
Proof.
  unfold lowercase. induction w; constructor; [apply isupper_tolower|done].
Qed.

Lemma lowercase_normalised w :
  (length w <= Z.to_nat (MAX_WORD_LEN - 1))%nat -> normalised (lowercase w).
Proof.
  intros H. split; [by rewrite lowercase_length|apply lowercase_no_upper].
Qed.

Lemma strncpy_word_length w :
  (length (strncpy_word w) <= Z.to_nat (MAX_WORD_LEN - 1))%nat.
Proof. unfold strncpy_word. rewrite length_take. lia. Qed.

(** ** Consequences of the insertion cases *)

Lemma hs_wf_count hs : hs_wf hs -> 0 <= hs_count hs <= HASH_SIZE.
Proof.
  intros (Hlen & Hcnt & _). rewrite Hcnt. unfold stored_words.
  pose proof (occupied_le (hs_slots hs)) as H. rewrite Hlen in H.
  unfold HASH_SIZE in *. lia.
Qed.

Lemma hs_insert_wf hs w :
  hs_wf hs -> (length w <= Z.to_nat (MAX_WORD_LEN - 1))%nat ->
  hs_wf (fst (hs_insert hs w)).
Proof. intros Hwf Hw. apply (hs_insert_spec hs w Hwf Hw). Qed.

Lemma hs_insert_stored hs w v :
  hs_wf hs -> (length w <= Z.to_nat (MAX_WORD_LEN - 1))%nat ->
  v ∈ stored_words (fst (hs_insert hs w)) ->
  v = w \/ v ∈ stored_words hs.
Proof.
  intros Hwf Hw. destruct (hs_insert_spec hs w Hwf Hw) as (_ & _ & Hf & Ht).
  destruct (snd (hs_insert hs w)) eqn:E.
  - destruct (Ht eq_refl) as [_ Hm]. intros H. by apply Hm.
  - rewrite (Hf eq_refl). by right.
Qed.

Lemma hs_insert_keeps hs w v :
  hs_wf hs -> (length w <= Z.to_nat (MAX_WORD_LEN - 1))%nat ->
  v ∈ stored_words hs -> v ∈ stored_words (fst (hs_insert hs w)).
Proof.
  intros Hwf Hw. destruct (hs_insert_spec hs w Hwf Hw) as (_ & _ & Hf & Ht).
  destruct (snd (hs_insert hs w)) eqn:E.
  - destruct (Ht eq_refl) as [_ Hm]. intros H. apply Hm. by right.
  - by rewrite (Hf eq_refl).
Qed.

Lemma hs_insert_adds hs w :
  hs_wf hs -> (length w <= Z.to_nat (MAX_WORD_LEN - 1))%nat ->
  hs_count hs < HASH_SIZE -> w ∈ stored_words (fst (hs_insert hs w)).
Proof.
  intros Hwf Hw Hc.
  destruct (hs_insert_spec hs w Hwf Hw) as (_ & Hiff & Hf & Ht).
  destruct (snd (hs_insert hs w)) eqn:E.
  - destruct (Ht eq_refl) as [_ Hm]. apply Hm. by left.
  - rewrite (Hf eq_refl).
    destruct (hs_contains hs w) eqn:Ec; [by apply hs_contains_iff|].
    assert (false = true) as Hbad; [|discriminate Hbad].
    apply Hiff. split; [|done]. intros Hin.
    apply (hs_contains_iff hs w Hwf) in Hin. congruence.
Qed.

Lemma hs_insert_count hs w :
  hs_wf hs -> (length w <= Z.to_nat (MAX_WORD_LEN - 1))%nat ->
  hs_count hs <= hs_count (fst (hs_insert hs w)) <= hs_count hs + 1.
Proof.
  intros Hwf Hw. destruct (hs_insert_spec hs w Hwf Hw) as (_ & _ & Hf & Ht).
  destruct (snd (hs_insert hs w)) eqn:E.
  - destruct (Ht eq_refl) as [-> _]. lia.
  - rewrite (Hf eq_refl). lia.
Qed.

(** Inserting the words of a list one after the other. *)
Lemma insert_all_spec ws :
  forall hs,
    hs_wf hs ->
    Forall (fun w => (length w <= Z.to_nat (MAX_WORD_LEN - 1))%nat) ws ->
    let hs' := fold_left (fun hs w => fst (hs_insert hs w)) ws hs in
    hs_wf hs'
    /\ (forall v, v ∈ stored_words hs -> v ∈ stored_words hs')
    /\ (forall v, v ∈ stored_words hs' -> v ∈ stored_words hs \/ v ∈ ws)
    /\ (hs_count hs + Z.of_nat (length ws) <= HASH_SIZE ->
        forall v, v ∈ ws -> v ∈ stored_words hs')
    /\ hs_count hs' <= hs_count hs + Z.of_nat (length ws).
Proof.
  induction ws as [|w ws IH]; intros hs Hwf Hws; cbn [fold_left length].
  - split_and!; [done|done|by left| |lia]. intros _ v Hv. by apply elem_of_nil in Hv.
  - apply Forall_cons in Hws as [Hw Hws].
    pose proof (hs_insert_wf hs w Hwf Hw) as Hwf1.
    pose proof (hs_insert_count hs w Hwf Hw) as Hc1.
    destruct (IH _ Hwf1 Hws) as (Hwf' & Hkeep & Hsrc & Hall & Hc').
    split_and!.
    + done.
    + intros v Hv. by apply Hkeep, hs_insert_keeps.
    + intros v Hv. destruct (Hsrc v Hv) as [H1|H1].
      * destruct (hs_insert_stored hs w v Hwf Hw H1) as [->|H2];
          [right; left|by left].
      * right. by right.
    + intros Hroom v Hv. apply elem_of_cons in Hv as [->|Hv].
      * apply Hkeep, hs_insert_adds; [done|done|lia].
      * apply Hall; [lia|done].
    + lia.
Qed.

(** ** [fgets] and the line loop *)

Lemma fgets_loop_length n f : (length (fst (fgets_loop n f)) <= n)%nat.
Proof.
  revert f. induction n as [|n IH]; intros [|c f]; cbn [fgets_loop]; try (simpl; lia).
  destruct (code c =? 10); [simpl; lia|].
  specialize (IH f). destruct (fgets_loop n f) as [l r]. simpl in *. lia.
Qed.

Lemma fgets_loop_split n f :
  fst (fgets_loop n f) ++ snd (fgets_loop n f) = f.
Proof.
  revert f. induction n as [|n IH]; intros [|c f]; cbn [fgets_loop]; try done.
  destruct (code c =? 10); [done|].
  specialize (IH f). destruct (fgets_loop n f) as [l r]. simpl in *.
  by rewrite IH.
Qed.

(** A line shorter than the buffer is read up to and with its line feed. *)
Lemma fgets_loop_line n w rest :
  Forall (fun c => code c <> 10) w -> (length w < n)%nat ->
  fgets_loop n (w ++ "010"%char :: rest) = (w ++ ["010"%char], rest).
Proof.
  revert n. induction w as [|c w IH]; intros n Hw Hn.
  - destruct n; [simpl in Hn; lia|]. reflexivity.
  - apply Forall_cons in Hw as [Hc Hw].
    destruct n; [simpl in Hn; lia|]. cbn [app fgets_loop].
    apply Z.eqb_neq in Hc. rewrite Hc.
    rewrite IH by (simpl in Hn; done || lia). done.
Qed.

(** A longer line is cut after [n] characters; the rest stays in the
    stream. *)
Lemma fgets_loop_cut n w rest :
  Forall (fun c => code c <> 10) (take n w) -> (n <= length w)%nat ->
  fgets_loop n (w ++ rest) = (take n w, drop n w ++ rest).
Proof.
  revert w. induction n as [|n IH]; intros w Hw Hn.
  - by destruct w.
  - destruct w as [|c w]; [simpl in Hn; lia|].
    cbn [take] in Hw. apply Forall_cons in Hw as [Hc Hw].
    cbn [app fgets_loop take drop]. apply Z.eqb_neq in Hc. rewrite Hc.
    rewrite IH by (simpl in Hn; done || lia). done.
Qed.

Lemma strip_newline_length l : (length (strip_newline l) <= length l)%nat.
Proof.
  induction l as [|c l IH]; cbn [strip_newline length]; [lia|].
  destruct (_ || _); simpl; lia.
Qed.

Lemma strip_newline_chars l :
  Forall (fun c => code c <> 0 /\ code c <> 10 /\ code c <> 13)
         (strip_newline l).
Proof.
  induction l as [|c l IH]; cbn [strip_newline]; [constructor|].
  destruct ((code c =? 0) || (code c =? 13) || (code c =? 10)) eqn:E;
    [constructor|].
  apply orb_false_iff in E as [E E3]. apply orb_false_iff in E as [E1 E2].
  apply Z.eqb_neq in E1, E2, E3. by constructor.
Qed.

Lemma strip_newline_id w :
  Forall (fun c => code c <> 0 /\ code c <> 10 /\ code c <> 13) w ->
  strip_newline w = w.
Proof.
  induction 1 as [|c w (H0 & H10 & H13) Hw IH]; cbn [strip_newline]; [done|].
  apply Z.eqb_neq in H0, H10, H13. rewrite H0, H10, H13. cbn [orb].
  by rewrite IH.
Qed.

Lemma strip_newline_line w :
  Forall (fun c => code c <> 0 /\ code c <> 10 /\ code c <> 13) w ->
  strip_newline (w ++ ["010"%char]) = w.
Proof.
  induction 1 as [|c w (H0 & H10 & H13) Hw IH]; cbn [app strip_newline]; [done|].
  apply Z.eqb_neq in H0, H10, H13. rewrite H0, H10, H13. cbn [orb].
  by rewrite IH.
Qed.

Lemma lowercase_chars w :
  Forall (fun c => code c <> 0 /\ code c <> 10 /\ code c <> 13) w ->
  Forall (fun c => code c <> 0 /\ code c <> 10 /\ code c <> 13) (lowercase w).
Proof.
  unfold lowercase. induction 1 as [|c w (H0 & H10 & H13) Hw IH];
    cbn [map]; constructor; [|done].
  split_and!; apply Z.eqb_neq; rewrite code_tolower_ctl by lia;
    by apply Z.eqb_neq.
Qed.

(** ** The hash set as a set of words *)

(** A lookup in a well-formed set succeeds exactly on the words held by an
    occupied slot: linear probing from the home slot misses none of them. *)
Theorem hs_contains_finds_every_slot hs w :
  hs_wf hs ->
  hs_contains hs w = true <-> exists p, hs_slots hs !! p = Some (Some w).
Proof.
  intros Hwf. rewrite (hs_contains_iff hs w Hwf). apply elem_of_stored_words.
Qed.

Lemma hs_contains_finds_every_slot_witness :
  hs_contains (fst (hs_insert hs_init (cstr "void"))) (cstr "void") = true
  <-> exists p, hs_slots (fst (hs_insert hs_init (cstr "void"))) !! p
                = Some (Some (cstr "void")).
Proof.
  apply (hs_contains_finds_every_slot (fst (hs_insert hs_init (cstr "void")))
           (cstr "void")).
  apply hs_insert_wf; [exact hs_init_wf|vm_compute; lia].
Defined.

(** Insert, then look up: after [hs_insert hs w] on a set with a free slot,
    the set holds [w] and what it held before, nothing else. *)
Theorem hs_insert_then_contains hs w v :
  hs_wf hs -> (length w <= Z.to_nat (MAX_WORD_LEN - 1))%nat ->
  hs_count hs < HASH_SIZE ->
  hs_contains (fst (hs_insert hs w)) v = true
  <-> v = w \/ hs_contains hs v = true.
Proof.
  intros Hwf Hw Hc.
  rewrite (hs_contains_iff _ v (hs_insert_wf hs w Hwf Hw)).
  rewrite (hs_contains_iff hs v Hwf). split.
  - by apply hs_insert_stored.
  - intros [->|Hv]; [by apply hs_insert_adds|by apply hs_insert_keeps].
Qed.

Lemma hs_insert_then_contains_witness :
  hs_contains (fst (hs_insert hs_init (cstr "void"))) (cstr "void") = true
  <-> cstr "void" = cstr "void" \/ hs_contains hs_init (cstr "void") = true.
Proof.
  apply (hs_insert_then_contains hs_init (cstr "void") (cstr "void")).
  - exact hs_init_wf.
  - vm_compute. lia.
  - vm_compute. reflexivity.
Defined.

(** The return value of [hs_insert]: 1 exactly when the word was absent and
    the table had a free slot, and then the count grows by one; on 0 (word
    already present, or table full) the set is left as it was. *)
Theorem hs_insert_result hs w :
  hs_wf hs -> (length w <= Z.to_nat (MAX_WORD_LEN - 1))%nat ->
  (snd (hs_insert hs w) = true
   <-> hs_contains hs w = false /\ hs_count hs < HASH_SIZE)
  /\ (snd (hs_insert hs w) = true ->
      hs_count (fst (hs_insert hs w)) = hs_count hs + 1)
  /\ (snd (hs_insert hs w) = false -> fst (hs_insert hs w) = hs).
Proof.
  intros Hwf Hw.
  destruct (hs_insert_spec hs w Hwf Hw) as (_ & Hiff & Hf & Ht).
  split_and!; [|intros H; by apply Ht|done].
  rewrite Hiff. split; intros [Hn Hc]; (split; [|done]).
  - destruct (hs_contains hs w) eqn:E; [|done].
    destruct Hn. by apply hs_contains_iff.
  - intros Hin. apply (hs_contains_iff hs w Hwf) in Hin. congruence.
Qed.

Lemma hs_insert_result_witness :
  (snd (hs_insert hs_init (cstr "void")) = true
   <-> hs_contains hs_init (cstr "void") = false
       /\ hs_count hs_init < HASH_SIZE)
  /\ (snd (hs_insert hs_init (cstr "void")) = true ->
      hs_count (fst (hs_insert hs_init (cstr "void"))) = hs_count hs_init + 1)
  /\ (snd (hs_insert hs_init (cstr "void")) = false ->
      fst (hs_insert hs_init (cstr "void")) = hs_init).
Proof.
  apply (hs_insert_result hs_init (cstr "void")).
  - exact hs_init_wf.
  - vm_compute. lia.
Defined.

(** The set stays well formed under [hs_insert], and its count never passes
    the number of slots. *)
Theorem hs_insert_preserves_wf hs w :
  hs_wf hs -> (length w <= Z.to_nat (MAX_WORD_LEN - 1))%nat ->
  hs_wf (fst (hs_insert hs w))
  /\ 0 <= hs_count (fst (hs_insert hs w)) <= HASH_SIZE.
Proof.
  intros Hwf Hw. split; [by apply hs_insert_wf|].
  by apply hs_wf_count, hs_insert_wf.
Qed.

Lemma hs_insert_preserves_wf_witness :
  hs_wf (fst (hs_insert hs_init (cstr "void")))
  /\ 0 <= hs_count (fst (hs_insert hs_init (cstr "void"))) <= HASH_SIZE.
Proof.
  apply (hs_insert_preserves_wf hs_init (cstr "void")).
  - exact hs_init_wf.
  - vm_compute. lia.
Defined.

(** Probing from the home slot of a word visits every slot of the table
    exactly once in [HASH_SIZE] steps. *)
Theorem probe_sequence_visits_every_slot_once w (p : nat) :
  (p < Z.to_nat HASH_SIZE)%nat ->
  exists i : nat,
    (i < Z.to_nat HASH_SIZE)%nat
    /\ probe (home w) (Z.of_nat i) = p
    /\ forall j : nat, (j < Z.to_nat HASH_SIZE)%nat ->
                       probe (home w) (Z.of_nat j) = p -> j = i.
Proof.
  intros Hp. pose proof (home_range w) as Hh.
  destruct (probe_covers (home w) p ltac:(lia) Hp) as (i & Hi & E).
  exists i. split_and!; [done|done|]. intros j Hj Ej.
  apply (probe_inj (home w)); [lia|done|done|congruence].
Qed.

Lemma probe_sequence_visits_every_slot_once_witness :
  exists i : nat,
    (i < Z.to_nat HASH_SIZE)%nat
    /\ probe (home (cstr "void")) (Z.of_nat i) = 7%nat
    /\ forall j : nat, (j < Z.to_nat HASH_SIZE)%nat ->
                       probe (home (cstr "void")) (Z.of_nat j) = 7%nat -> j = i.
Proof.
  apply (probe_sequence_visits_every_slot_once (cstr "void") 7).
  vm_compute. lia.
Defined.

(** ** Loading the word lists *)

Lemma fold_left_map_fusion {A B C} (f : A -> B -> A) (g : C -> B) l a :
  fold_left f (map g l) a = fold_left (fun a x => f a (g x)) l a.
Proof. revert a. induction l as [|x l IH]; intros a; [done|apply IH]. Qed.

Lemma fold_left_step {A B} (f : A -> B -> A) x l a :
  fold_left f (x :: l) a = fold_left f l (f a x).
Proof. reflexivity. Qed.

Lemma load_defaults_fold hs ds :
  load_defaults hs ds
  = fold_left (fun hs w => fst (hs_insert hs w))
              (map (fun d => lowercase (strncpy_word d)) ds) hs.
Proof.
  unfold load_defaults.
  exact (eq_sym (fold_left_map_fusion
                   (fun hs w => fst (hs_insert hs w))
                   (fun d => lowercase (strncpy_word d)) ds hs)).
Qed.

Lemma defaults_fit ds :
  Forall (fun w => (length w <= Z.to_nat (MAX_WORD_LEN - 1))%nat)
         (map (fun d => lowercase (strncpy_word d)) ds).
Proof.
  induction ds as [|d ds IH]; cbn [map]; constructor; [|done].
  rewrite lowercase_length. apply strncpy_word_length.
Qed.

Lemma load_defaults_wf ds : hs_wf (load_defaults hs_init ds).
Proof.
  rewrite load_defaults_fold.
  apply (insert_all_spec _ hs_init hs_init_wf (defaults_fit ds)).
Qed.

(** A set loaded from a built-in list of at most [HASH_SIZE] entries holds
    exactly the entries of the list, cut to [MAX_WORD_LEN - 1] characters and
    lower-cased. *)
Theorem load_defaults_contains ds v :
  Z.of_nat (length ds) <= HASH_SIZE ->
  hs_contains (load_defaults hs_init ds) v = true
  <-> v ∈ map (fun d => lowercase (strncpy_word d)) ds.
Proof.
  intros Hn. rewrite (hs_contains_iff _ v (load_defaults_wf ds)).
  rewrite load_defaults_fold.
  destruct (insert_all_spec _ hs_init hs_init_wf (defaults_fit ds))
    as (_ & _ & Hsrc & Hall & _).
  split.
  - intros Hv. destruct (Hsrc v Hv) as [Hi|Hi]; [|done].
    apply elem_of_stored_words in Hi as [p Hp].
    apply lookup_replicate in Hp as [? _]. done.
  - apply Hall. rewrite length_map. cbn [hs_init hs_count]. lia.
Qed.

Lemma load_defaults_contains_witness :
  hs_contains (load_defaults hs_init [cstr "Void"; cstr "dark"]) (cstr "void")
  = true
  <-> cstr "void" ∈ map (fun d => lowercase (strncpy_word d))
                        [cstr "Void"; cstr "dark"].
Proof.
  apply (load_defaults_contains [cstr "Void"; cstr "dark"] (cstr "void")).
  vm_compute. discriminate.
Defined.

(** Invariant of the line loop. *)
Lemma load_lines_inv n :
  forall hs f,
    hs_wf hs -> (forall v, v ∈ stored_words hs -> file_entry v) ->
    hs_wf (load_lines n hs f)
    /\ (forall v, v ∈ stored_words (load_lines n hs f) -> file_entry v).
Proof.
  induction n as [|n IH]; intros hs f Hwf Hent; cbn [load_lines]; [done|].
  unfold fgets. destruct f as [|c0 f0]; [done|].
  set (f := c0 :: f0).
  pose proof (fgets_loop_length (Z.to_nat (MAX_WORD_LEN - 1)) f) as Hlen.
  destruct (fgets_loop (Z.to_nat (MAX_WORD_LEN - 1)) f) as [line rest].
  cbn [fst] in Hlen.
  set (l := lowercase (strip_newline line)).
  assert (Hl : (length l <= Z.to_nat (MAX_WORD_LEN - 1))%nat).
  { unfold l. rewrite lowercase_length.
    pose proof (strip_newline_length line). lia. }
  assert (Hchars : Forall (fun c => code c <> 0 /\ code c <> 10 /\ code c <> 13) l)
    by apply lowercase_chars, strip_newline_chars.
  destruct l as [|c l'] eqn:El; [by apply IH|].
  destruct (code c =? 35) eqn:Ec; [by apply IH|].
  apply Z.eqb_neq in Ec. apply IH; [by apply hs_insert_wf|].
  intros v Hv. destruct (hs_insert_stored _ _ _ Hwf Hl Hv) as [->|Hv'];
    [|by apply Hent].
  split_and!; [|by exists c, l'|done].
  split; [done|]. rewrite <- El. apply lowercase_no_upper.
Qed.

(** Whatever the bytes of a word-list file, the set loaded from it is well
    formed and every word it holds is a normalised file entry: non-empty, not
    starting with [#], at most [MAX_WORD_LEN - 1] characters, without
    upper-case letter, NUL, carriage return or line feed. *)
Theorem load_cluster_file_entries f ds hs :
  load_cluster (Some (Some f)) ds = Some hs ->
  hs_wf hs /\ Forall file_entry (stored_words hs).
Proof.
  intros E.
  assert (hs = load_lines (S (length f)) hs_init f) as ->
    by (unfold load_cluster in E; congruence).
  clear E.
  destruct (load_lines_inv (S (length f)) hs_init f hs_init_wf) as [Hwf Hent].
  - intros v Hv. apply elem_of_stored_words in Hv as [p Hp].
    apply lookup_replicate in Hp as [? _]. done.
  - split; [done|]. by apply Forall_forall.
Qed.

Lemma load_cluster_file_entries_witness :
  hs_wf (load_lines 10 hs_init (cstr "Void
# c
"))
  /\ Forall file_entry (stored_words (load_lines 10 hs_init (cstr "Void
# c
"))).
Proof.
  apply (load_cluster_file_entries (cstr "Void
# c
") []). reflexivity.
Defined.

(** One iteration of the line loop on a line that fits the buffer. *)
Lemma fgets_line w rest :
  Forall (fun c => code c <> 0 /\ code c <> 10 /\ code c <> 13) w ->
  (length w < Z.to_nat (MAX_WORD_LEN - 1))%nat ->
  fgets MAX_WORD_LEN (w ++ "010"%char :: rest)
  = Some (w ++ ["010"%char], rest).
Proof.
  intros Hw Hlen. unfold fgets.
  rewrite fgets_loop_line; [by destruct w|eapply Forall_impl; [exact Hw|]|done].
  by intros c (_ & H & _).
Qed.

Lemma load_lines_entry n hs w rest :
  Forall (fun c => code c <> 0 /\ code c <> 10 /\ code c <> 13) w ->
  (0 < length w < Z.to_nat (MAX_WORD_LEN - 1))%nat ->
  (forall c, head w = Some c -> code c <> 35) ->
  load_lines (S n) hs (w ++ "010"%char :: rest)
  = load_lines n (fst (hs_insert hs (lowercase w))) rest.
Proof.
  intros Hw Hlen Hhd. cbn [load_lines].
  rewrite fgets_line by (done || lia).
  rewrite strip_newline_line by done.
  destruct w as [|c w']; [simpl in Hlen; lia|].
  cbn [lowercase map]. rewrite code_tolower_ctl by lia.
  specialize (Hhd c eq_refl). apply Z.eqb_neq in Hhd. by rewrite Hhd.
Qed.

Lemma load_lines_nil n hs : load_lines n hs [] = hs.
Proof. by destruct n. Qed.

Lemma load_lines_file ws :
  forall n hs,
    (length ws <= n)%nat ->
    Forall (fun w =>
              (0 < length w < Z.to_nat (MAX_WORD_LEN - 1))%nat
              /\ (forall c, head w = Some c -> code c <> 35)
              /\ Forall (fun c => code c <> 0 /\ code c <> 10 /\ code c <> 13) w)
           ws ->
    load_lines n hs (concat (map (fun w => w ++ ["010"%char]) ws))
    = fold_left (fun hs w => fst (hs_insert hs w)) (map lowercase ws) hs.
Proof.
  induction ws as [|w ws IH]; intros n hs Hn Hws.
  - apply load_lines_nil.
  - apply Forall_cons in Hws as [(Hlen & Hhd & Hw) Hws].
    destruct n as [|n]; [simpl in Hn; lia|].
    rewrite !map_cons, concat_cons, fold_left_step, <- app_assoc, <- cons_middle.
    rewrite (load_lines_entry n hs w _ Hw Hlen Hhd).
    apply IH; [simpl in Hn; lia|done].
Qed.

Lemma lines_length (ws : list (list ascii)) :
  (length ws <= length (concat (map (fun w => w ++ ["010"%char]) ws)))%nat.
Proof.
  induction ws as [|w ws IH]; [simpl; lia|].
  cbn [map concat]. rewrite !length_app. simpl. lia.
Qed.

(** A word-list file that gives one entry per line (each line non-empty,
    shorter than the line buffer, not a comment, ended by a line feed), with
    no more lines than the table has slots: the loaded set holds exactly the
    lower-cased lines. *)
Theorem load_cluster_file_contains ws ds hs v :
  Forall (fun w =>
            (0 < length w < Z.to_nat (MAX_WORD_LEN - 1))%nat
            /\ (forall c, head w = Some c -> code c <> 35)
            /\ Forall (fun c => code c <> 0 /\ code c <> 10 /\ code c <> 13) w)
         ws ->
  Z.of_nat (length ws) <= HASH_SIZE ->
  load_cluster (Some (Some (concat (map (fun w => w ++ ["010"%char]) ws)))) ds
  = Some hs ->
  hs_contains hs v = true <-> v ∈ map lowercase ws.
Proof.
  intros Hws Hn E.
  assert (hs = load_lines
                 (S (length (concat (map (fun w => w ++ ["010"%char]) ws))))
                 hs_init (concat (map (fun w => w ++ ["010"%char]) ws)))
    as -> by (unfold load_cluster in E; congruence).
  clear E.
  assert (Hfit : Forall (fun w => (length w <= Z.to_nat (MAX_WORD_LEN - 1))%nat)
                        (map lowercase ws)).
  { clear Hn. induction Hws as [|w ws (Hl & _) _ IH]; cbn [map]; constructor;
      [rewrite lowercase_length; lia|done]. }
  rewrite load_lines_file; [| |done].
  - destruct (insert_all_spec _ hs_init hs_init_wf Hfit)
      as (Hwf & _ & Hsrc & Hall & _).
    rewrite (hs_contains_iff _ v Hwf). split.
    + intros Hv. destruct (Hsrc v Hv) as [Hi|Hi]; [|done].
      apply elem_of_stored_words in Hi as [p Hp].
      apply lookup_replicate in Hp as [? _]. done.
    + apply Hall. rewrite length_map. cbn [hs_init hs_count].
      unfold cstring in *. lia.
  - pose proof (lines_length ws). lia.
Qed.

Lemma load_cluster_file_contains_witness :
  hs_contains (load_lines 11 hs_init (cstr "Void
dark
")) (cstr "void") = true
  <-> cstr "void" ∈ map lowercase [cstr "Void"; cstr "dark"].
Proof.
  apply (load_cluster_file_contains [cstr "Void"; cstr "dark"] []
           (load_lines 11 hs_init (cstr "Void
dark
")) (cstr "void")).
  - repeat constructor; vm_compute; try lia; try discriminate;
      intros c0 [= <-]; discriminate.
  - vm_compute. discriminate.
  - reflexivity.
Defined.

(** A line that does not fit the 64-byte buffer is not skipped: [fgets]
    cuts it after [MAX_WORD_LEN - 1] characters, these are the entry, and the
    rest of the line is read as the next line. *)
Theorem load_lines_cuts_long_line n hs w rest :
  Forall (fun c => code c <> 0 /\ code c <> 10 /\ code c <> 13) w ->
  (Z.to_nat (MAX_WORD_LEN - 1) <= length w)%nat ->
  (forall c, head w = Some c -> code c <> 35) ->
  load_lines (S n) hs (w ++ rest)
  = load_lines n
      (fst (hs_insert hs (lowercase (take (Z.to_nat (MAX_WORD_LEN - 1)) w))))
      (drop (Z.to_nat (MAX_WORD_LEN - 1)) w ++ rest).
Proof.
  intros Hw Hlen Hhd. cbn [load_lines]. unfold fgets.
  change (Z.to_nat (MAX_WORD_LEN - 1)) with 63%nat in *.
  assert (Hne : w ++ rest <> []).
  { destruct w; [|done]. simpl in Hlen. lia. }
  destruct (w ++ rest) as [|c0 f0] eqn:Ef; [done|]. rewrite <- Ef.
  rewrite fgets_loop_cut; [| |done].
  - rewrite strip_newline_id by (by apply Forall_take).
    destruct w as [|c w']; [simpl in Hlen; lia|].
    cbn [take lowercase map]. rewrite code_tolower_ctl by lia.
    specialize (Hhd c eq_refl). apply Z.eqb_neq in Hhd. by rewrite Hhd.
  - apply Forall_take. eapply Forall_impl; [exact Hw|].
    by intros c (_ & H & _).
Qed.

Lemma load_lines_cuts_long_line_witness :
  load_lines 2 hs_init (replicate 64 "a"%char ++ ["010"%char])
  = load_lines 1
      (fst (hs_insert hs_init
              (lowercase (take (Z.to_nat (MAX_WORD_LEN - 1))
                               (replicate 64 "a"%char)))))
      (drop (Z.to_nat (MAX_WORD_LEN - 1)) (replicate 64 "a"%char)
       ++ ["010"%char]).
Proof.
  apply (load_lines_cuts_long_line 1 hs_init (replicate 64 "a"%char)
           ["010"%char]).
  - apply Forall_replicate. vm_compute. repeat split; discriminate.
  - vm_compute. lia.
  - intros c [= <-]. vm_compute. discriminate.
Defined.

(** * Properties of grok-personality-filter.c *)

Module FilterFacts.

Import Filter.

Lemma length_for_range n a : length (for_range n a) = n.
Proof. revert a. induction n as [|n IH]; intros a; simpl; [done|]. by rewrite IH. Qed.

Lemma elem_of_for_range n a j :
  j ∈ for_range n a <-> a <= j < a + Z.of_nat n.
Proof.
  revert a. induction n as [|n IH]; intros a; simpl.
  - rewrite elem_of_nil. lia.
  - rewrite elem_of_cons, IH. lia.
Qed.

Lemma for_range_snoc n a :
  for_range (S n) a = for_range n a ++ [a + Z.of_nat n].
Proof.
  revert a. induction n as [|n IH]; intros a.
  - simpl. by rewrite Z.add_0_r.
  - change (for_range (S (S n)) a) with (a :: for_range (S n) (a + 1)).
    rewrite IH. simpl. do 3 f_equal. lia.
Qed.

Lemma NoDup_for_range n a : NoDup (for_range n a).
Proof.
  revert a. induction n as [|n IH]; intros a; simpl; constructor; [|done].
  rewrite elem_of_for_range. lia.
Qed.

Lemma lookup_for_range n a k :
  (k < n)%nat -> for_range n a !! k = Some (a + Z.of_nat k).
Proof.
  revert a k. induction n as [|n IH]; intros a k Hk; [lia|].
  destruct k as [|k]; simpl.
  - f_equal. lia.
  - rewrite IH by lia. f_equal. lia.
Qed.

Lemma window_lo_max W i : window_lo W i = Z.max 0 (i - W).
Proof. unfold window_lo. destruct (Z.ltb_spec (i - W) 0); lia. Qed.

Lemma window_hi_min n W i : window_hi n W i = Z.min (n - 1) (i + W).
Proof. unfold window_hi. destruct (Z.geb_spec (i + W) n); lia. Qed.

Lemma elem_of_inspected toks W i j :
  j ∈ inspected toks W i
  <-> Z.max 0 (i - W) <= j <= Z.min (ntok toks - 1) (i + W) /\ j <> i.
Proof.
  unfold inspected. rewrite list_elem_of_filter, elem_of_for_range.
  rewrite window_lo_max, window_hi_min. lia.
Qed.

Lemma scan_window_inspected tech toks W i :
  scan_window tech toks W i
  = fold_left (read_neighbour tech toks) (inspected toks W i) (0, 0).
Proof.
  unfold scan_window, inspected.
  generalize (for_range
    (Z.to_nat (window_hi (ntok toks) W i + 1 - window_lo W i)) (window_lo W i)).
  intros l. generalize (0, 0). induction l as [|j l IH]; intros acc; [done|].
  simpl. rewrite filter_cons. unfold scan_body at 2.
  destruct (Z.eqb_spec j i) as [->|Hne].
  - rewrite decide_False by tauto. apply IH.
  - rewrite decide_True by done. simpl. apply IH.
Qed.
(** classify *)
Lemma classify_counts_label pc tc pv rv av :
  classify_counts pc tc pv rv av
  = (classify pc tc,
     pv + b2z (Ascii.eqb (classify pc tc) "P"),
     rv + b2z (negb (Ascii.eqb (classify pc tc) "P")),
     av + b2z (Ascii.eqb (classify pc tc) "A")).
Proof.
  unfold classify, classify_counts.
  destruct (pc >? 0); [|destruct (tc >? 0)]; simpl; repeat f_equal; lia.
Qed.

Lemma classify_cases pc tc :
  (0 < pc /\ classify pc tc = "P"%char)
  \/ (pc <= 0 /\ 0 < tc /\ classify pc tc = "A"%char)
  \/ (pc <= 0 /\ tc <= 0 /\ classify pc tc = "R"%char).
Proof.
  unfold classify, classify_counts.
  destruct (Z.gtb_spec pc 0); [|destruct (Z.gtb_spec tc 0)]; simpl; lia || tauto.
Qed.

Lemma count_label_snoc c l h :
  count_label c (l ++ [h])
  = count_label c l + b2z (Ascii.eqb (classification h) c).
Proof.
  unfold count_label. rewrite filter_app, length_app, filter_cons, filter_nil.
  destruct (Ascii.eqb (classification h) c) eqn:E.
  - rewrite decide_True by done. simpl. lia.
  - rewrite decide_False by (by intros ?). simpl. lia.
Qed.

Lemma take_snoc_cap {A} (cap : nat) (l : list A) (x : A) :
  take cap (l ++ [x])
  = if (Z.of_nat (length (take cap l)) <? Z.of_nat cap)
    then take cap l ++ [x] else take cap l.
Proof.
  destruct (Z.ltb_spec (Z.of_nat (length (take cap l))) (Z.of_nat cap)) as [H|H];
    rewrite length_take in H.
  - rewrite (take_ge l) by lia. apply take_ge. rewrite length_app. simpl. lia.
  - rewrite take_app_le by lia. done.
Qed.

Lemma hits_upto_S tech toks W k :
  hits_upto tech toks W (S k)
  = hits_upto tech toks W k
    ++ (if void_at toks (Z.of_nat k) then [hit_record tech toks W (Z.of_nat k)] else []).
Proof.
  unfold hits_upto. rewrite for_range_snoc, filter_app, map_app. f_equal.
  rewrite filter_cons, filter_nil. rewrite Z.add_0_l.
  destruct (void_at toks (Z.of_nat k)) eqn:E.
  - by rewrite decide_True.
  - by rewrite decide_False.
Qed.

Lemma classify_step_spec tech toks W np k cs :
  (k < length toks)%nat ->
  cls_spec tech toks W k cs ->
  cls_spec tech toks W (S k) (classify_step tech toks W np cs (Z.of_nat k)).
Proof.
  intros Hk (Hh & Ht & Hp & Ha & Hr). unfold cls_spec.
  rewrite hits_upto_S. unfold classify_step, void_at.
  rewrite Nat2Z.id.
  destruct (lookup_lt_is_Some_2 toks k Hk) as [t Ht']. rewrite Ht'.
  destruct (is_void t); simpl.
  2:{ rewrite app_nil_r. done. }
  unfold hit_record.
  destruct (scan_window tech toks W (Z.of_nat k)) as [pc tc].
  rewrite classify_counts_label. simpl.
  rewrite !count_label_snoc, length_app. simpl.
  rewrite take_snoc_cap. unfold n_hits. rewrite Hh.
  change (Z.of_nat (Z.to_nat MAX_HIT_LOG)) with MAX_HIT_LOG at 1.
  replace (Z.of_nat (Z.to_nat MAX_HIT_LOG)) with MAX_HIT_LOG by done.
  split; [done|].
  destruct (classify_cases pc tc) as [[_ ->]|[(_ & _ & ->)|(_ & _ & ->)]];
    simpl; lia.
Qed.

Lemma classify_prefix_spec tech toks W np ps k :
  (k <= length toks)%nat ->
  cls_spec tech toks W k
    (fold_left (classify_step tech toks W np) (for_range k 0) (cls_init ps)).
Proof.
  induction k as [|k IH]; intros Hk.
  - simpl. unfold cls_spec. simpl. done.
  - rewrite for_range_snoc, fold_left_app. simpl.
    apply classify_step_spec; [lia|]. apply IH. lia.
Qed.

(** Outcome of the paragraph search loop. *)
Lemma para_loop_cases n (k : nat) i f ps :
  (para_loop n (Z.of_nat k) i f ps = ps
   /\ forall q pp, (k <= q < k + n)%nat -> ps !! q = Some pp ->
        ~ (start_token pp <= i < end_token pp))
  \/ (exists q pp, (k <= q < k + n)%nat /\ ps !! q = Some pp
        /\ start_token pp <= i < end_token pp
        /\ para_loop n (Z.of_nat k) i f ps = <[q := f pp]> ps).
Proof.
  revert k. induction n as [|n IH]; intros k; simpl.
  - left. split; [done|]. intros; lia.
  - rewrite Nat2Z.id. destruct (ps !! k) as [pp|] eqn:E.
    + destruct (Z.geb_spec i (start_token pp)); simpl.
      * destruct (Z.ltb_spec i (end_token pp)); simpl.
        { right. exists k, pp. repeat split; try done; lia. }
        replace (Z.of_nat k + 1) with (Z.of_nat (S k)) by lia.
        destruct (IH (S k)) as [[-> Hn]|(q & pq & Hq & Hl & Hr & ->)].
        { left. split; [done|]. intros q pq Hq Hl.
          destruct (decide (q = k)) as [->|]; [|apply (Hn q pq); [lia|done]].
          rewrite E in Hl. injection Hl as <-. lia. }
        right. exists q, pq. repeat split; try done; lia.
      * replace (Z.of_nat k + 1) with (Z.of_nat (S k)) by lia.
        destruct (IH (S k)) as [[-> Hn]|(q & pq & Hq & Hl & Hr & ->)].
        { left. split; [done|]. intros q pq Hq Hl.
          destruct (decide (q = k)) as [->|]; [|apply (Hn q pq); [lia|done]].
          rewrite E in Hl. injection Hl as <-. lia. }
        right. exists q, pq. repeat split; try done; lia.
    + left. split; [done|]. intros q pq Hq Hl.
      apply lookup_ge_None in E. apply lookup_lt_Some in Hl. lia.
Qed.

Lemma zsum_app l1 l2 : zsum (l1 ++ l2) = zsum l1 + zsum l2.
Proof. induction l1 as [|x l1 IH]; simpl; lia. Qed.

Lemma zsum_map_insert {A} (g : A -> Z) (l : list A) q x y :
  l !! q = Some x -> zsum (map g (<[q := y]> l)) = zsum (map g l) + (g y - g x).
Proof.
  revert q. induction l as [|a l IH]; intros [|q] H; simplify_eq/=; [lia|].
  rewrite (IH q) by done. lia.
Qed.

Lemma para_sum_insert g ps np q pp pp' :
  ps !! q = Some pp ->
  para_sum g (<[q := pp']> ps) np
  = para_sum g ps np + (if decide (q < Z.to_nat np)%nat then g pp' - g pp else 0).
Proof.
  intros Hq. unfold para_sum. case_decide as Hlt.
  - rewrite take_insert_lt by done.
    apply zsum_map_insert. by rewrite lookup_take_lt.
  - rewrite take_insert_ge by lia. lia.
Qed.

Lemma same_ranges_refl ps : same_ranges ps ps.
Proof. induction ps; constructor; done. Qed.

Lemma same_ranges_trans a b c :
  same_ranges a b -> same_ranges b c -> same_ranges a c.
Proof.
  unfold same_ranges. intros H1. revert c.
  induction H1 as [|x y a b [? ?] _ IH]; intros c H2;
    inversion H2 as [|? z ? c' [? ?] Hbc]; subst; constructor;
    [split; congruence|by apply IH].
Qed.

Lemma same_ranges_insert ps q pp f :
  keeps_range f -> ps !! q = Some pp -> same_ranges ps (<[q := f pp]> ps).
Proof.
  intros Hf. revert q. induction ps as [|a ps IH]; intros [|q] H; simplify_eq/=.
  - constructor; [|apply same_ranges_refl]. destruct (Hf pp). split; congruence.
  - constructor; [done|]. by apply IH.
Qed.

Lemma covered_same_ranges ps ps' np i :
  same_ranges ps ps' -> covered ps np i -> covered ps' np i.
Proof.
  intros H (q & pp & Hq & Hl & Hr).
  destruct (Forall2_lookup_l _ _ _ _ _ H Hl) as (pp' & Hl' & Hs & He).
  exists q, pp'. repeat split; try done; lia.
Qed.

Lemma update_paragraph_cases np i f ps :
  (update_paragraph np i f ps = ps
   /\ forall q pp, (q < Z.to_nat np)%nat -> ps !! q = Some pp ->
        ~ (start_token pp <= i < end_token pp))
  \/ (exists q pp, (q < Z.to_nat np)%nat /\ ps !! q = Some pp
        /\ start_token pp <= i < end_token pp
        /\ update_paragraph np i f ps = <[q := f pp]> ps).
Proof.
  unfold update_paragraph.
  destruct (para_loop_cases (Z.to_nat np) 0 i f ps)
    as [[H Hn]|(q & pp & Hq & Hl & Hr & H)]; simpl in H.
  - left. split; [done|]. intros q pp Hq. apply Hn. lia.
  - right. exists q, pp. repeat split; try done; lia.
Qed.

Lemma update_paragraph_covered g d np i f ps :
  (forall p, g (f p) = g p + d) ->
  covered ps np i ->
  para_sum g (update_paragraph np i f ps) np = para_sum g ps np + d.
Proof.
  intros Hg (q0 & pp0 & Hq0 & Hl0 & Hr0).
  destruct (update_paragraph_cases np i f ps)
    as [[_ Hn]|(q & pp & Hq & Hl & Hr & ->)].
  - exfalso. apply (Hn q0 pp0); [lia|done|done].
  - rewrite (para_sum_insert _ _ _ _ pp) by done.
    rewrite decide_True by lia. rewrite Hg. lia.
Qed.

Lemma update_paragraph_neutral g np i f ps :
  (forall p, g (f p) = g p) ->
  para_sum g (update_paragraph np i f ps) np = para_sum g ps np.
Proof.
  intros Hg.
  destruct (update_paragraph_cases np i f ps)
    as [[-> _]|(q & pp & Hq & Hl & Hr & ->)]; [done|].
  rewrite (para_sum_insert _ _ _ _ pp) by done.
  case_decide; rewrite ?Hg; lia.
Qed.

Lemma update_paragraph_ranges np i f ps :
  keeps_range f -> same_ranges ps (update_paragraph np i f ps).
Proof.
  intros Hf.
  destruct (update_paragraph_cases np i f ps)
    as [[-> _]|(q & pp & Hq & Hl & Hr & ->)]; [apply same_ranges_refl|].
  by apply same_ranges_insert.
Qed.

Lemma para_at_alter f k ps q :
  0 <= k -> 0 <= q ->
  para_at (alter f (Z.to_nat k) ps) q
  = if decide (q = k /\ (Z.to_nat k < length ps)%nat) then f (para_at ps k)
    else para_at ps q.
Proof.
  intros Hk Hq. unfold para_at. case_decide as H.
  - destruct H as [-> Hlt]. rewrite list_lookup_alter_eq.
    destruct (lookup_lt_is_Some_2 ps _ Hlt) as [x ->]. done.
  - destruct (decide (q = k)) as [->|Hne].
    + rewrite list_lookup_alter_eq.
      rewrite (lookup_ge_None_2 ps (Z.to_nat k)) by lia. done.
    + rewrite list_lookup_alter_ne by lia. done.
Qed.

Lemma para_at_insert x k ps q :
  0 <= k -> 0 <= q ->
  para_at (<[Z.to_nat k := x]> ps) q
  = if decide (q = k /\ (Z.to_nat k < length ps)%nat) then x
    else para_at ps q.
Proof.
  intros Hk Hq. rewrite list_insert_alter, para_at_alter by done.
  done.
Qed.

Ltac proj :=
  cbn [tokens cur_para_id newline_count para_start paragraphs n_paragraphs
       wbuf byte_pos word_start start_token end_token total_tokens void_hits
       personality_void residual_void personality_hits technical_hits
       close_at set_start zero_paragraph] in *.

Lemma clean_zero n : clean (set_start n zero_paragraph).
Proof. done. Qed.

Lemma clean_close n p : clean p -> clean (close_at n p).
Proof. done. Qed.

Lemma tok_init_inv : tok_inv tok_init.
Proof.
  unfold tok_inv, tok_init, n_tokens. proj.
  rewrite length_insert, length_replicate.
  change 0%nat with (Z.to_nat 0).
  rewrite !para_at_insert by lia. rewrite length_replicate.
  rewrite decide_True by (split; [done|unfold MAX_PARAGRAPHS; lia]).
  proj. unfold MAX_PARAGRAPHS.
  repeat split; try lia.
  apply Forall_insert; [|done]. apply Forall_replicate. done.
Qed.

(** The paragraph part of the invariant does not depend on the word buffer
    or the byte counters, and only needs the token count to grow. *)
Lemma tok_inv_weaken st st' :
  tok_inv st ->
  paragraphs st' = paragraphs st -> n_paragraphs st' = n_paragraphs st ->
  para_start st' = para_start st -> n_tokens st <= n_tokens st' ->
  tok_inv st'.
Proof.
  unfold tok_inv. intros H -> -> -> Hn.
  destruct H as (? & ? & ? & ? & ? & ? & ?). split_and!; try done; lia.
Qed.

Lemma n_tokens_flush vs ps st : n_tokens st <= Z.of_nat (length (flush_word vs ps st)).
Proof.
  unfold flush_word, n_tokens. destruct (accepts st); rewrite ?length_app; simpl; lia.
Qed.

Lemma para_step_inv c st : tok_inv st -> tok_inv (para_step c st).
Proof.
  intros H. unfold para_step.
  destruct (code c =? 10).
  2:{ destruct (negb (code c =? 13)); [|done].
      eapply tok_inv_weaken; [exact H|done..|]. unfold n_tokens; proj; lia. }
  destruct ((newline_count st + 1 >=? 2) && (n_tokens st >? para_start st)) eqn:E.
  2:{ eapply tok_inv_weaken; [exact H|done..|]. unfold n_tokens; proj; lia. }
  apply andb_prop in E as [_ E]. apply Z.gtb_lt in E.
  destruct H as (Hlen & Hnp & Hps & H0 & Hcur & Hchain & Hclean).
  set (n := n_tokens st) in *. set (np := n_paragraphs st) in *.
  set (ps := paragraphs st) in *.
  assert (Hnpl : (Z.to_nat np < length ps)%nat) by (rewrite Hlen; lia).
  destruct (Z.ltb_spec np (MAX_PARAGRAPHS - 1)) as [Hlt|Hge].
  - unfold tok_inv, n_tokens. proj. fold (n_tokens st). fold n.
    rewrite length_insert, length_alter.
    assert (Hnpl' : (Z.to_nat (np + 1) < length (alter (close_at n) (Z.to_nat np) ps))%nat)
      by (rewrite length_alter, Hlen; lia).
    rewrite !para_at_insert by lia.
    split; [done|]. split; [lia|]. split; [lia|]. split.
    { rewrite decide_False by lia. rewrite para_at_alter by lia.
      case_decide as Hd; [|done]. destruct Hd as [Hd _]. rewrite <- Hd. proj. done. }
    split.
    { rewrite decide_True by (split; [lia|done]). proj. lia. }
    split.
    { intros p Hp. rewrite !para_at_insert by lia.
      rewrite (decide_False (P := p = np + 1 /\ _)) by lia.
      rewrite !para_at_alter by lia.
      destruct (decide (p = np)) as [->|Hne].
      - rewrite decide_True by (split; [lia|done]).
        rewrite (decide_True (P := np + 1 = np + 1 /\ _)) by (split; [lia|done]).
        proj. lia.
      - rewrite (decide_False (P := p = np /\ _)) by lia.
        rewrite (decide_False (P := p + 1 = np + 1 /\ _)) by lia.
        destruct (Hchain p ltac:(lia)) as (? & ? & ?).
        case_decide as Hd; [|done]. destruct Hd as [Hd _]. rewrite <- Hd in *. proj. done. }
    apply Forall_insert; [|done]. apply Forall_alter; [done|].
    intros x _. apply clean_close.
  - unfold tok_inv, n_tokens. proj. fold (n_tokens st). fold n.
    rewrite length_alter.
    split; [done|]. split; [lia|]. split; [lia|]. split.
    { rewrite para_at_alter by lia.
      case_decide as Hd; [|done]. destruct Hd as [Hd _]. rewrite <- Hd. proj. done. }
    split.
    { rewrite para_at_alter by lia. rewrite decide_True by (split; [lia|done]). proj. lia. }
    split.
    { intros p Hp. rewrite !para_at_alter by lia.
      rewrite (decide_False (P := p = np /\ _)) by lia.
      destruct (Hchain p ltac:(lia)) as (? & ? & ?).
      case_decide as Hd; [|done]. destruct Hd as [Hd _]. rewrite Hd in *. proj. done. }
    apply Forall_alter; [done|].
    intros x _. apply clean_close.
Qed.

Lemma word_step_inv vs ps c st : tok_inv st -> tok_inv (word_step vs ps c st).
Proof.
  intros H. unfold word_step.
  destruct (is_word_char c).
  { eapply tok_inv_weaken; [exact H|done..|]. unfold n_tokens; proj; lia. }
  destruct (wpos st >? 0); [|done].
  eapply tok_inv_weaken; [exact H|done..|]. unfold n_tokens at 2; proj.
  apply n_tokens_flush.
Qed.

Lemma char_step_inv vs ps st c : tok_inv st -> tok_inv (char_step vs ps st c).
Proof.
  intros H. unfold char_step. apply word_step_inv, para_step_inv.
  eapply tok_inv_weaken; [exact H|done..|]. unfold n_tokens; proj; lia.
Qed.

Lemma fold_char_step_inv vs ps f st :
  tok_inv st -> tok_inv (fold_left (char_step vs ps) f st).
Proof.
  revert st. induction f as [|c f IH]; intros st H; [done|].
  simpl. apply IH, char_step_inv, H.
Qed.

Lemma read_file_inv vs ps st f : tok_inv st -> tok_inv (read_file vs ps st f).
Proof.
  intros H. unfold read_file, flush_last.
  set (st' := fold_left _ _ _).
  assert (H' : tok_inv st').
  { apply fold_char_step_inv. eapply tok_inv_weaken; [exact H|done..|].
    unfold n_tokens, open_file; proj; lia. }
  destruct (wpos st' >? 0); [|done].
  eapply tok_inv_weaken; [exact H'|done..|]. unfold n_tokens at 2; proj.
  apply n_tokens_flush.
Qed.

Lemma read_files_inv vs ps files st :
  tok_inv st -> tok_inv (fold_left (read_file vs ps) files st).
Proof.
  revert st. induction files as [|f files IH]; intros st H; [done|].
  simpl. apply IH, read_file_inv, H.
Qed.

Lemma tokenize_partitions vs ps files :
  let st := tokenize vs ps files in
  length (paragraphs st) = Z.to_nat MAX_PARAGRAPHS
  /\ n_paragraphs st <= MAX_PARAGRAPHS
  /\ partitions (paragraphs st) (n_paragraphs st) (n_tokens st)
  /\ Forall clean (paragraphs st).
Proof.
  unfold tokenize.
  pose proof (read_files_inv vs ps files _ tok_init_inv) as H.
  set (st := fold_left _ _ _) in *.
  destruct H as (Hlen & Hnp & Hps & H0 & Hcur & Hchain & Hclean).
  unfold close_final. set (n := n_tokens st) in *. set (np := n_paragraphs st) in *.
  set (pars := paragraphs st) in *.
  assert (Hnpl : (Z.to_nat np < length pars)%nat) by (rewrite Hlen; lia).
  assert (Hl : alter (close_at n) (Z.to_nat np) pars !! Z.to_nat np
               = Some (close_at n (para_at pars np))).
  { rewrite list_lookup_alter_eq. unfold para_at.
    destruct (lookup_lt_is_Some_2 pars _ Hnpl) as [x ->]. done. }
  rewrite Hl. unfold n_tokens. proj. fold (n_tokens st). fold n.
  rewrite length_alter.
  assert (Hcl : Forall clean (alter (close_at n) (Z.to_nat np) pars)).
  { apply Forall_alter; [done|]. intros x _. apply clean_close. }
  assert (Hat : forall q, 0 <= q ->
    para_at (alter (close_at n) (Z.to_nat np) pars) q
    = if decide (q = np) then close_at n (para_at pars np) else para_at pars q).
  { intros q Hq. rewrite para_at_alter by lia.
    destruct (decide (q = np)) as [->|];
      [rewrite decide_True by done|rewrite decide_False by tauto]; done. }
  destruct (Z.gtb_spec (n - start_token (para_at pars np)) 0) as [Hpos|Hzero].
  - split; [done|]. split; [lia|]. split; [|done].
    unfold partitions. split; [lia|]. split; [lia|]. split.
    { intros _. rewrite !Hat by lia. replace (np + 1 - 1) with np by lia.
      rewrite (decide_True (P := np = np)) by done. proj. split; [|done].
      case_decide as Hd; [rewrite <- Hd|]; proj; done. }
    split.
    + intros p Hp. rewrite !Hat by lia. case_decide as Hd.
      * proj. lia.
      * destruct (Hchain p ltac:(lia)) as (? & ? & ?). done.
    + intros p Hp. rewrite !Hat by lia.
      rewrite (decide_False (P := p = np)) by lia.
      destruct (Hchain p ltac:(lia)) as (? & ? & ?).
      case_decide as Hd; [rewrite <- Hd|]; proj; done.
  - assert (Hn : start_token (para_at pars np) = n) by lia.
    split; [done|]. split; [lia|]. split; [|done].
    unfold partitions. split; [lia|]. split.
    { intros Hz. rewrite Hz in Hn. lia. }
    split.
    { intros Hz. rewrite !Hat by lia.
      rewrite (decide_False (P := np - 1 = np)) by lia.
      destruct (Hchain (np - 1) ltac:(lia)) as (? & ? & He).
      replace (np - 1 + 1) with np in He by lia. split; [|lia].
      case_decide as Hd; [rewrite <- Hd|]; proj; done. }
    split.
    + intros p Hp. rewrite !Hat by lia.
      rewrite (decide_False (P := p = np)) by lia.
      destruct (Hchain p ltac:(lia)) as (? & ? & ?). done.
    + intros p Hp. rewrite !Hat by lia.
      rewrite (decide_False (P := p = np)) by lia.
      rewrite (decide_False (P := p + 1 = np)) by lia.
      destruct (Hchain p ltac:(lia)) as (? & ? & ?). done.
Qed.

(** ** Consequences of a partition *)

Lemma partitions_mono ps np n p q :
  partitions ps np n -> 0 <= p -> p < q -> q < np ->
  end_token (para_at ps p) <= start_token (para_at ps q).
Proof.
  intros (_ & _ & _ & Hne & Hch) Hp Hpq Hq.
  assert (H : forall d : nat, p + 1 + Z.of_nat d < np ->
            end_token (para_at ps p) <= start_token (para_at ps (p + 1 + Z.of_nat d))).
  { induction d as [|d IH]; intros Hd.
    - rewrite Z.add_0_r. rewrite Hch by lia. lia.
    - specialize (IH ltac:(lia)).
      replace (p + 1 + Z.of_nat (S d)) with (p + 1 + Z.of_nat d + 1) by lia.
      rewrite Hch by lia.
      destruct (Hne (p + 1 + Z.of_nat d) ltac:(lia)). lia. }
  specialize (H (Z.to_nat (q - p - 1)) ltac:(lia)).
  replace (p + 1 + Z.of_nat (Z.to_nat (q - p - 1))) with q in H by lia. done.
Qed.

Lemma partitions_unique ps np n p q i :
  partitions ps np n -> 0 <= p < np -> 0 <= q < np ->
  in_section ps p i -> in_section ps q i -> p = q.
Proof.
  intros H Hp Hq Hip Hiq. unfold in_section in *.
  destruct (Z.lt_trichotomy p q) as [Hlt|[->|Hlt]]; [|done|].
  - pose proof (partitions_mono _ _ _ p q H). lia.
  - pose proof (partitions_mono _ _ _ q p H). lia.
Qed.

Lemma partitions_find ps np n i :
  partitions ps np n -> 0 <= i < n ->
  exists p, 0 <= p < np /\ in_section ps p i.
Proof.
  intros (Hnp & Hz & Hends & Hne & Hch) Hi.
  assert (0 < np) as Hpos
    by (destruct (decide (np = 0)) as [E|]; [specialize (Hz E)|]; lia).
  destruct (Hends Hpos) as [H0 Hn].
  assert (H : forall m : nat, Z.of_nat m < np ->
            i < end_token (para_at ps (Z.of_nat m)) ->
            exists p, 0 <= p <= Z.of_nat m /\ in_section ps p i).
  { induction m as [|m IH]; intros Hm Hlt.
    - exists 0. unfold in_section. change (Z.of_nat 0) with 0 in *. lia.
    - destruct (Z.le_gt_cases (start_token (para_at ps (Z.of_nat (S m)))) i).
      + exists (Z.of_nat (S m)). unfold in_section. lia.
      + destruct IH as (p & Hp & Hin); [lia| |exists p; split; [lia|done]].
        rewrite <- Hch by lia. replace (Z.of_nat m + 1) with (Z.of_nat (S m)) by lia. done. }
  destruct (H (Z.to_nat (np - 1))) as (p & Hp & Hin).
  - lia.
  - replace (Z.of_nat (Z.to_nat (np - 1))) with (np - 1) by lia. lia.
  - exists p. split; [lia|done].
Qed.

Lemma partitions_within ps np n p i :
  partitions ps np n -> 0 <= p < np -> in_section ps p i -> 0 <= i < n.
Proof.
  intros H Hp Hin. pose proof H as (Hnp & Hz & Hends & Hne & Hch).
  destruct (Hends ltac:(lia)) as [H0 Hn]. unfold in_section in Hin.
  destruct (Hne p Hp) as [Hlt _]. split.
  - destruct (decide (p = 0)) as [->|]; [lia|].
    pose proof (partitions_mono _ _ _ 0 p H). destruct (Hne 0 ltac:(lia)). lia.
  - destruct (decide (p = np - 1)) as [->|]; [lia|].
    pose proof (partitions_mono _ _ _ p (np - 1) H). destruct (Hne (np - 1) ltac:(lia)). lia.
Qed.

Lemma in_section_covered ps np p i :
  0 <= p < np -> (Z.to_nat np <= length ps)%nat ->
  in_section ps p i -> covered ps np i.
Proof.
  intros Hp Hlen Hin. unfold in_section, para_at in Hin.
  destruct (lookup_lt_is_Some_2 ps (Z.to_nat p) ltac:(lia)) as [pp Hl].
  rewrite Hl in Hin. exists (Z.to_nat p), pp. split; [lia|done].
Qed.

Lemma para_sum_S g ps (k : nat) :
  (k < length ps)%nat ->
  para_sum g ps (Z.of_nat (S k))
  = para_sum g ps (Z.of_nat k) + g (para_at ps (Z.of_nat k)).
Proof.
  intros Hk. unfold para_sum, para_at. rewrite !Nat2Z.id.
  destruct (lookup_lt_is_Some_2 ps k Hk) as [x Hx].
  rewrite (take_S_r _ _ _ Hx), Hx, map_app, zsum_app. simpl. lia.
Qed.

Lemma partitions_total ps np n :
  partitions ps np n -> (Z.to_nat np <= length ps)%nat ->
  para_sum total_tokens ps np = n.
Proof.
  intros (Hnp & Hz & Hends & Hne & Hch) Hlen.
  destruct (decide (np = 0)) as [->|Hpos]; [by rewrite Hz|].
  destruct (Hends ltac:(lia)) as [H0 Hn].
  assert (H : forall m : nat, Z.of_nat m < np ->
            para_sum total_tokens ps (Z.of_nat (S m))
            = end_token (para_at ps (Z.of_nat m))).
  { induction m as [|m IH]; intros Hm.
    - rewrite para_sum_S by lia. unfold para_sum at 1.
      change (Z.of_nat 0) with 0 in *. change (Z.to_nat 0) with 0%nat. rewrite take_0.
      cbn [map zsum fold_right].
      destruct (Hne 0 ltac:(lia)) as [_ ->]. lia.
    - rewrite para_sum_S by lia. rewrite IH by lia.
      destruct (Hne (Z.of_nat (S m)) ltac:(lia)) as [_ ->].
      rewrite <- Hch by lia. replace (Z.of_nat m + 1) with (Z.of_nat (S m)) by lia. lia. }
  specialize (H (Z.to_nat (np - 1)) ltac:(lia)).
  replace (Z.of_nat (S (Z.to_nat (np - 1)))) with np in H by lia.
  replace (Z.of_nat (Z.to_nat (np - 1))) with (np - 1) in H by lia. lia.
Qed.

Lemma para_sum_clean g ps np :
  (forall p, clean p -> g p = 0) -> Forall clean ps -> para_sum g ps np = 0.
Proof.
  intros Hg H. unfold para_sum.
  assert (Ht : Forall clean (take (Z.to_nat np) ps)) by by apply Forall_take.
  induction Ht as [|x l Hx _ IH]; simpl; [done|]. rewrite Hg by done. lia.
Qed.

(** ** The paragraph counters during classification *)

Lemma keeps_range_bump cls : keeps_range (bump cls).
Proof. intros p. unfold bump. destruct (Ascii.eqb cls "P"); done. Qed.

Lemma keeps_range_bump_markers tech t : keeps_range (bump_markers tech t).
Proof. done. Qed.

Lemma bump_void_hits cls p : void_hits (bump cls p) = void_hits p + 1.
Proof. unfold bump. destruct (Ascii.eqb cls "P"); done. Qed.

Lemma bump_personality_void cls p :
  personality_void (bump cls p)
  = personality_void p + b2z (Ascii.eqb cls "P").
Proof. unfold bump. destruct (Ascii.eqb cls "P"); simpl; lia. Qed.

Lemma bump_residual_void cls p :
  residual_void (bump cls p)
  = residual_void p + b2z (negb (Ascii.eqb cls "P")).
Proof. unfold bump. destruct (Ascii.eqb cls "P"); simpl; lia. Qed.

Lemma classify_step_para tech toks W np ps0 cs i :
  covered ps0 np i ->
  para_spec np ps0 cs ->
  para_spec np ps0 (classify_step tech toks W np cs i).
Proof.
  intros Hcov (Hr & Hv & Hp & Hres). unfold classify_step.
  destruct (toks !! Z.to_nat i) as [t|]; [|done].
  destruct (is_void t); simpl; [|done].
  destruct (scan_window tech toks W i) as [pc tc].
  rewrite classify_counts_label. unfold para_spec. simpl.
  pose proof (covered_same_ranges _ _ _ _ Hr Hcov) as Hcov'.
  split_and!.
  - eapply same_ranges_trans; [exact Hr|].
    apply update_paragraph_ranges, keeps_range_bump.
  - rewrite (update_paragraph_covered _ 1) by (done || apply bump_void_hits). lia.
  - rewrite (update_paragraph_covered _ (b2z (Ascii.eqb (classify pc tc) "P")))
      by (done || apply bump_personality_void). lia.
  - rewrite (update_paragraph_covered _ (b2z (negb (Ascii.eqb (classify pc tc) "P"))))
      by (done || apply bump_residual_void). lia.
Qed.

Lemma classify_all_para tech toks W np ps0 :
  (forall i, 0 <= i < ntok toks -> covered ps0 np i) ->
  para_spec np ps0 (classify_all tech toks W np ps0).
Proof.
  intros Hcov. unfold classify_all.
  assert (H : forall k, (k <= length toks)%nat ->
    para_spec np ps0
      (fold_left (classify_step tech toks W np) (for_range k 0) (cls_init ps0))).
  { induction k as [|k IH]; intros Hk.
    - unfold para_spec. simpl. split_and!; [apply same_ranges_refl|lia..].
    - rewrite for_range_snoc, fold_left_app. simpl.
      apply classify_step_para; [|apply IH; lia].
      apply Hcov. unfold ntok. lia. }
  by apply H.
Qed.

Lemma count_markers_sum g tech toks np ps :
  (forall t p, g (bump_markers tech t p) = g p) ->
  para_sum g (count_markers tech toks np ps) np = para_sum g ps np.
Proof.
  intros Hg. unfold count_markers.
  generalize (for_range (length toks) 0). intros l. revert ps.
  induction l as [|i l IH]; intros ps; [done|]. simpl. rewrite IH.
  destruct (toks !! Z.to_nat i); [|done].
  by apply update_paragraph_neutral.
Qed.

Lemma count_markers_ranges tech toks np ps :
  same_ranges ps (count_markers tech toks np ps).
Proof.
  unfold count_markers.
  generalize (for_range (length toks) 0). intros l. revert ps.
  induction l as [|i l IH]; intros ps; [apply same_ranges_refl|]. simpl.
  eapply same_ranges_trans; [|apply IH].
  destruct (toks !! Z.to_nat i); [|apply same_ranges_refl].
  apply update_paragraph_ranges, keeps_range_bump_markers.
Qed.

(** ** Labels *)

Lemma count_labels_total tech toks W k :
  let L := hits_upto tech toks W k in
  count_label "P" L + count_label "A" L + count_label "R" L
  = Z.of_nat (length L).
Proof.
  induction k as [|k IH]; [done|]. simpl in *.
  rewrite hits_upto_S. destruct (void_at toks (Z.of_nat k)).
  2:{ by rewrite app_nil_r. }
  rewrite !count_label_snoc, length_app. simpl.
  unfold hit_record. destruct (scan_window tech toks W (Z.of_nat k)) as [pc tc].
  simpl.
  destruct (classify_cases pc tc) as [[_ ->]|[(_ & _ & ->)|(_ & _ & ->)]];
    simpl; lia.
Qed.

Lemma hits_upto_all tech toks W :
  hits_upto tech toks W (length toks) = all_hits tech toks W.
Proof. done. Qed.

Lemma classify_all_spec tech toks W np ps :
  cls_spec tech toks W (length toks) (classify_all tech toks W np ps).
Proof. by apply classify_prefix_spec. Qed.

Lemma b2z_nonneg b : 0 <= b2z b.
Proof. destruct b; simpl; lia. Qed.

Lemma read_neighbours_nonneg tech toks l acc :
  0 <= fst acc -> 0 <= snd acc ->
  0 <= fst (fold_left (read_neighbour tech toks) l acc)
  /\ 0 <= snd (fold_left (read_neighbour tech toks) l acc).
Proof.
  revert acc. induction l as [|j l IH]; intros acc H1 H2; [done|].
  simpl. apply IH; unfold read_neighbour; destruct (toks !! Z.to_nat j) as [t|];
    simpl; try done.
  - pose proof (b2z_nonneg (is_personality t)). lia.
  - pose proof (b2z_nonneg (hs_contains tech (word t))). lia.
Qed.

Lemma scan_window_nonneg tech toks W i :
  0 <= fst (scan_window tech toks W i) /\ 0 <= snd (scan_window tech toks W i).
Proof. rewrite scan_window_inspected. by apply read_neighbours_nonneg. Qed.

(** C8: the sections the tokenizer builds partition the token sequence:
    they are consecutive non-empty ranges from 0 to [n_tokens], every token
    lies in exactly one section, every index of a section is a token, and
    the section sizes add up to the number of tokens. *)
Theorem sections_partition_tokens vs ps files :
  let st := tokenize vs ps files in
  let np := n_paragraphs st in
  partitions (paragraphs st) np (n_tokens st)
  /\ (forall i, 0 <= i < n_tokens st ->
        exists p, 0 <= p < np /\ in_section (paragraphs st) p i
                  /\ forall q, 0 <= q < np ->
                       in_section (paragraphs st) q i -> q = p)
  /\ (forall p i, 0 <= p < np -> in_section (paragraphs st) p i ->
        0 <= i < n_tokens st)
  /\ para_sum total_tokens (paragraphs st) np = n_tokens st.
Proof.
  intros st np.
  destruct (tokenize_partitions vs ps files) as (Hlen & Hnp & Hpart & _).
  fold st in Hlen, Hnp, Hpart. fold np in Hnp, Hpart.
  split_and!; [done| | |].
  - intros i Hi. destruct (partitions_find _ _ _ i Hpart Hi) as (p & Hp & Hin).
    exists p. split_and!; [lia..|done|].
    intros q Hq Hin'. by eapply partitions_unique.
  - intros p i Hp Hin. by eapply partitions_within.
  - apply partitions_total; [done|]. rewrite Hlen. unfold MAX_PARAGRAPHS in *. lia.
Qed.

Lemma analyse_counts vs ps tech W files :
  let ts := fst (analyse vs ps tech W files) in
  let cs := snd (analyse vs ps tech W files) in
  let L := all_hits tech (tokens ts) W in
  let np := n_paragraphs ts in
  (c_total_void cs = Z.of_nat (length L)
   /\ c_personality_void cs = count_label "P" L
   /\ c_anomalous_void cs = count_label "A" L
   /\ c_residual_void cs - c_anomalous_void cs = count_label "R" L
   /\ c_personality_void cs + c_anomalous_void cs
      + (c_residual_void cs - c_anomalous_void cs) = c_total_void cs)
  /\ (para_sum void_hits (c_paragraphs cs) np = c_total_void cs
      /\ para_sum personality_void (c_paragraphs cs) np = count_label "P" L
      /\ para_sum residual_void (c_paragraphs cs) np
         = count_label "A" L + count_label "R" L
      /\ para_sum personality_void (c_paragraphs cs) np
         + para_sum residual_void (c_paragraphs cs) np = c_total_void cs).
Proof.
  intros ts cs L np. unfold analyse in ts, cs. cbn [fst snd] in ts, cs.
  subst cs. cbn [c_total_void c_personality_void c_anomalous_void
                 c_residual_void c_paragraphs].
  fold np.
  set (cs0 := classify_all tech (tokens ts) W np (paragraphs ts)).
  destruct (classify_all_spec tech (tokens ts) W np (paragraphs ts))
    as (_ & Ht & Hp & Ha & Hr).
  fold cs0 in Ht, Hp, Ha, Hr. rewrite hits_upto_all in Ht, Hp, Ha, Hr. fold L in Ht, Hp, Ha, Hr.
  pose proof (count_labels_total tech (tokens ts) W (length (tokens ts))) as Hsum.
  cbn zeta in Hsum. rewrite hits_upto_all in Hsum. fold L in Hsum.
  destruct (tokenize_partitions vs ps files) as (Hlen & Hnp & Hpart & Hclean).
  fold ts in Hlen, Hnp, Hpart, Hclean. fold np in Hnp, Hpart.
  assert (Hle : (Z.to_nat np <= length (paragraphs ts))%nat)
    by (rewrite Hlen; unfold MAX_PARAGRAPHS in *; lia).
  destruct (classify_all_para tech (tokens ts) W np (paragraphs ts))
    as (_ & Hv & Hpv & Hrv).
  { intros i Hi. destruct (partitions_find _ _ _ i Hpart Hi) as (p & Hp' & Hin).
    by eapply in_section_covered. }
  fold cs0 in Hv, Hpv, Hrv.
  rewrite (para_sum_clean void_hits (paragraphs ts)) in Hv
    by (exact Hclean || by intros ? (? & ? & ?)).
  rewrite (para_sum_clean personality_void (paragraphs ts)) in Hpv
    by (exact Hclean || by intros ? (? & ? & ?)).
  rewrite (para_sum_clean residual_void (paragraphs ts)) in Hrv
    by (exact Hclean || by intros ? (? & ? & ?)).
  rewrite !count_markers_sum by done.
  fold ts. fold np. fold cs0.
  split; [lia|]. lia.
Qed.

(** C1: the hits labelled Personality, Anomalous and Residual add up to the
    total number of cluster-term hits, at corpus level and when the
    per-section counters are summed over all sections. *)
Theorem label_counts_add_up vs ps tech W files :
  let ts := fst (analyse vs ps tech W files) in
  let cs := snd (analyse vs ps tech W files) in
  let L := all_hits tech (tokens ts) W in
  let np := n_paragraphs ts in
  (c_total_void cs = Z.of_nat (length L)
   /\ c_personality_void cs = count_label "P" L
   /\ c_anomalous_void cs = count_label "A" L
   /\ c_residual_void cs - c_anomalous_void cs = count_label "R" L
   /\ c_personality_void cs + c_anomalous_void cs
      + (c_residual_void cs - c_anomalous_void cs) = c_total_void cs)
  /\ (para_sum void_hits (c_paragraphs cs) np = c_total_void cs
      /\ para_sum personality_void (c_paragraphs cs) np = count_label "P" L
      /\ para_sum residual_void (c_paragraphs cs) np
         = count_label "A" L + count_label "R" L
      /\ para_sum personality_void (c_paragraphs cs) np
         + para_sum residual_void (c_paragraphs cs) np = c_total_void cs).
Proof.
  intros ts cs L np. unfold analyse in ts, cs. cbn [fst snd] in ts, cs.
  subst cs. cbn [c_total_void c_personality_void c_anomalous_void
                 c_residual_void c_paragraphs].
  fold np.
  set (cs0 := classify_all tech (tokens ts) W np (paragraphs ts)).
  destruct (classify_all_spec tech (tokens ts) W np (paragraphs ts))
    as (_ & Ht & Hp & Ha & Hr).
  fold cs0 in Ht, Hp, Ha, Hr. rewrite hits_upto_all in Ht, Hp, Ha, Hr. fold L in Ht, Hp, Ha, Hr.
  pose proof (count_labels_total tech (tokens ts) W (length (tokens ts))) as Hsum.
  cbn zeta in Hsum. rewrite hits_upto_all in Hsum. fold L in Hsum.
  destruct (tokenize_partitions vs ps files) as (Hlen & Hnp & Hpart & Hclean).
  fold ts in Hlen, Hnp, Hpart, Hclean. fold np in Hnp, Hpart.
  assert (Hle : (Z.to_nat np <= length (paragraphs ts))%nat)
    by (rewrite Hlen; unfold MAX_PARAGRAPHS in *; lia).
  destruct (classify_all_para tech (tokens ts) W np (paragraphs ts))
    as (_ & Hv & Hpv & Hrv).
  { intros i Hi. destruct (partitions_find _ _ _ i Hpart Hi) as (p & Hp' & Hin).
    by eapply in_section_covered. }
  fold cs0 in Hv, Hpv, Hrv.
  rewrite (para_sum_clean void_hits (paragraphs ts)) in Hv
    by (exact Hclean || by intros ? (? & ? & ?)).
  rewrite (para_sum_clean personality_void (paragraphs ts)) in Hpv
    by (exact Hclean || by intros ? (? & ? & ?)).
  rewrite (para_sum_clean residual_void (paragraphs ts)) in Hrv
    by (exact Hclean || by intros ? (? & ? & ?)).
  rewrite !count_markers_sum by done.
  fold ts. fold np. fold cs0.
  split; [lia|]. lia.
Qed.

Lemma all_hits_labels tech toks W np ps :
  hits (classify_all tech toks W np ps)
  = take (Z.to_nat MAX_HIT_LOG) (all_hits tech toks W)
  /\ Forall
       (fun h =>
          let pc := fst (scan_window tech toks W (token_idx h)) in
          let tc := snd (scan_window tech toks W (token_idx h)) in
          personality_count h = pc /\ technical_count h = tc
          /\ 0 <= pc /\ 0 <= tc
          /\ (classification h = "P"%char <-> 0 < pc)
          /\ (classification h = "A"%char <-> pc = 0 /\ 0 < tc)
          /\ (classification h = "R"%char <-> pc = 0 /\ tc = 0))
       (all_hits tech toks W).
Proof.
  split.
  - destruct (classify_all_spec tech toks W np ps) as (Hh & _). exact Hh.
  - unfold all_hits. apply Forall_forall. intros h Hh.
    apply list_elem_of_In, in_map_iff in Hh as (i & <- & _).
    unfold hit_record.
    pose proof (scan_window_nonneg tech toks W i) as [Hp Ht].
    destruct (scan_window tech toks W i) as [pc tc] eqn:E. simpl in *.
    rewrite E. simpl.
    destruct (classify_cases pc tc) as [[? ->]|[(? & ? & ->)|(? & ? & ->)]];
      split_and!; try done; try lia; split; try lia; try done; intros; lia.
Qed.

Lemma token_idx_hit_record tech toks W i :
  token_idx (hit_record tech toks W i) = i.
Proof. unfold hit_record. by destruct (scan_window tech toks W i). Qed.

Lemma token_idx_all_hits tech toks W :
  map token_idx (all_hits tech toks W) = void_indices toks.
Proof.
  unfold all_hits. rewrite map_map.
  rewrite (map_ext _ (fun i => i)) by (intros i; apply token_idx_hit_record).
  apply map_id.
Qed.

Lemma count_where_cons f j l :
  count_where f (j :: l) = b2z (f j) + count_where f l.
Proof. reflexivity. Qed.

(** The two counters of the window scan count the neighbours that pass the
    two tests. *)
Lemma fold_read_neighbour tech toks l acc :
  fold_left (read_neighbour tech toks) l acc
  = (fst acc + count_where (personality_at toks) l,
     snd acc + count_where (technical_at tech toks) l).
Proof.
  revert acc. induction l as [|j l IH]; intros [a b].
  - unfold count_where. cbn [fold_left map zsum fold_right fst snd].
    by rewrite !Z.add_0_r.
  - cbn [fold_left]. rewrite IH, !count_where_cons.
    unfold read_neighbour, personality_at, technical_at.
    destruct (toks !! Z.to_nat j) as [t|]; cbn [fst snd b2z]; f_equal; lia.
Qed.

Lemma scan_window_counts tech toks W i :
  scan_window tech toks W i
  = (count_where (personality_at toks) (inspected toks W i),
     count_where (technical_at tech toks) (inspected toks W i)).
Proof. rewrite scan_window_inspected, fold_read_neighbour. done. Qed.

Lemma count_where_pos f l :
  0 <= count_where f l
  /\ (0 < count_where f l <-> exists j, j ∈ l /\ f j = true).
Proof.
  induction l as [|j l [IH1 IH2]].
  - unfold count_where. cbn [map zsum fold_right].
    split; [lia|]. split; [lia|]. intros (j & Hj & _).
    by apply elem_of_nil in Hj.
  - rewrite count_where_cons.
    pose proof (b2z_nonneg (f j)). split; [lia|]. split.
    + intros Hpos. destruct (f j) eqn:E.
      * exists j. split; [by left|done].
      * cbn [b2z] in Hpos. destruct (proj1 IH2 ltac:(lia)) as (k & Hk & Ek).
        exists k. split; [by right|done].
    + intros (k & Hk & Ek). apply elem_of_cons in Hk as [->|Hk].
      * rewrite Ek. cbn [b2z]. lia.
      * assert (0 < count_where f l) by (apply IH2; by exists k). lia.
Qed.

Lemma count_where_zero f l :
  count_where f l = 0 <-> forall j, j ∈ l -> f j = false.
Proof.
  destruct (count_where_pos f l) as [H0 Hpos]. split.
  - intros Hz j Hj. destruct (f j) eqn:E; [|done].
    assert (0 < count_where f l) by (apply Hpos; by exists j). lia.
  - intros Hall. destruct (Z.eq_dec (count_where f l) 0) as [|Hne]; [done|].
    destruct (proj1 Hpos ltac:(lia)) as (j & Hj & Ej).
    rewrite (Hall j Hj) in Ej. discriminate Ej.
Qed.

(** C2: every hit whose window holds a personality-marker token is labelled
    Personality, whatever technical markers the window holds as well;
    Anomalous is given exactly when the window holds no personality-marker
    token and some technical-marker token, Residual exactly when it holds
    neither.  The window of the hit at [i] is [inspected toks W i], the
    personality test on a neighbour is its [is_personality] flag, the
    technical test the lookup of its word; the two counters of the record
    are the numbers of neighbours that pass them.  There is one record per
    cluster-term token, and the log is the first [MAX_HIT_LOG] records. *)
Theorem personality_takes_priority tech toks W np ps :
  hits (classify_all tech toks W np ps)
  = take (Z.to_nat MAX_HIT_LOG) (all_hits tech toks W)
  /\ map token_idx (all_hits tech toks W) = void_indices toks
  /\ Forall
       (fun h =>
          let win := inspected toks W (token_idx h) in
          personality_count h = count_where (personality_at toks) win
          /\ technical_count h = count_where (technical_at tech toks) win
          /\ (classification h = "P"%char
              <-> exists j, j ∈ win /\ personality_at toks j = true)
          /\ (classification h = "A"%char
              <-> (forall j, j ∈ win -> personality_at toks j = false)
                  /\ exists j, j ∈ win /\ technical_at tech toks j = true)
          /\ (classification h = "R"%char
              <-> forall j, j ∈ win ->
                    personality_at toks j = false
                    /\ technical_at tech toks j = false))
       (all_hits tech toks W).
Proof.
  split; [|split].
  - destruct (classify_all_spec tech toks W np ps) as (Hh & _). exact Hh.
  - apply token_idx_all_hits.
  - destruct (all_hits_labels tech toks W np ps) as [_ Hall].
    eapply Forall_impl; [exact Hall|]. intros h. cbv beta zeta.
    rewrite scan_window_counts. cbn [fst snd].
    set (win := inspected toks W (token_idx h)).
    intros (Hp & Ht & _ & _ & HP & HA & HR).
    destruct (count_where_pos (personality_at toks) win) as [Hp0 Hppos].
    destruct (count_where_pos (technical_at tech toks) win) as [Ht0 Htpos].
    pose proof (count_where_zero (personality_at toks) win) as Hpz.
    pose proof (count_where_zero (technical_at tech toks) win) as Htz.
    split_and!; [done|done| | |].
    + by rewrite HP.
    + rewrite HA, Hpz, Htpos. done.
    + rewrite HR, Hpz, Htz. split.
      * intros [H1 H2] j Hj. split; [by apply H1|by apply H2].
      * intros H. split; intros j Hj; by apply H.
Qed.

(** C5: the token indices the classifier reads for a hit at [i] with radius
    [W] are exactly the [j] with [max 0 (i - W) <= j <= min (n - 1) (i + W)]
    and [j <> i]; none is below 0 or beyond the corpus, and for a hit at
    index 0 the lower bound is 0. *)
Theorem window_is_clipped_neighbourhood tech toks W i :
  (forall j, j ∈ inspected toks W i
             <-> Z.max 0 (i - W) <= j <= Z.min (ntok toks - 1) (i + W)
                 /\ j <> i)
  /\ NoDup (inspected toks W i)
  /\ scan_window tech toks W i
     = fold_left (read_neighbour tech toks) (inspected toks W i) (0, 0)
  /\ (forall j, j ∈ inspected toks W i ->
        0 <= j < ntok toks /\ is_Some (toks !! Z.to_nat j))
  /\ (forall w, window_lo (clamp_window w) 0 = 0).
Proof.
  split_and!.
  - apply elem_of_inspected.
  - unfold inspected. apply NoDup_filter, NoDup_for_range.
  - apply scan_window_inspected.
  - intros j Hj. apply elem_of_inspected in Hj.
    assert (0 <= j < ntok toks) as Hr by lia. split; [done|].
    apply lookup_lt_is_Some_2. unfold ntok in Hr. lia.
  - intros w. unfold window_lo, clamp_window.
    destruct (w <? 1) eqn:E1.
    + done.
    + apply Z.ltb_ge in E1. destruct (w >? 100) eqn:E2; [done|].
      destruct (Z.ltb_spec (0 - w) 0); lia.
Qed.

(** ** The runs of [main] *)

Lemma open_inputs_diags args n :
  Forall (fun d => exists name, d = DiagPerror name /\ (name, None) ∈ args)
         (fst (open_inputs args n)).
Proof.
  revert n. induction args as [|[name f] args IH]; intros n; simpl; [done|].
  destruct (n <? 256); [|done].
  destruct f as [bytes|].
  - specialize (IH (n + 1)). destruct (open_inputs args (n + 1)) as [d fs].
    simpl in *. eapply Forall_impl; [exact IH|].
    intros d' (nm & -> & Hin). exists nm. split; [done|]. by right.
  - specialize (IH n). destruct (open_inputs args n) as [d fs].
    simpl in *. constructor.
    + exists name. split; [done|]. by left.
    + eapply Forall_impl; [exact IH|].
      intros d' (nm & -> & Hin). exists nm. split; [done|]. by right.
Qed.

Lemma load_tech_default :
  load_cluster None TECHNICAL_MARKERS = Some tech_default.
Proof. unfold tech_default. apply load_cluster_defaults. Qed.

(** A run either stops with status 1 before the classification, or
    completes with status 0 on the result of [analyse]. *)
Lemma main_cases o names args stdin :
  let r := main o names args stdin in
  (analysis r = None /\ status r = 1
   /\ (load_cluster (opt_void_file o) VOID_CLUSTER = None
       \/ load_cluster (opt_pers_file o) PERSONALITY_MARKERS = None
       \/ exists vs ps,
            load_cluster (opt_void_file o) VOID_CLUSTER = Some vs
            /\ load_cluster (opt_pers_file o) PERSONALITY_MARKERS = Some ps
            /\ n_tokens (tokenize vs ps (input_files args stdin)) = 0))
  \/ (exists vs ps,
        load_cluster (opt_void_file o) VOID_CLUSTER = Some vs
        /\ load_cluster (opt_pers_file o) PERSONALITY_MARKERS = Some ps
        /\ let a := analyse vs ps tech_default (opt_window o)
                            (input_files args stdin) in
           n_tokens (fst a) <> 0
           /\ analysis r = Some a
           /\ termination r
              = (if opt_quiet o then Returns 0
                 else if snd (section_listing (opt_sections o)
                                (n_paragraphs (fst a)) (c_paragraphs (snd a)))
                      then UndefinedBehaviour else Returns 0)
           /\ diagnostics r = input_diags args
           /\ quiet_record r
              = (if opt_quiet o
                 then Some (mkQuietRecord
                        (c_total_void (snd a)) (c_personality_void (snd a))
                        (c_residual_void (snd a)) (c_anomalous_void (snd a))
                        (n_tokens (fst a))
                        (z_test (c_total_void (snd a)) (n_tokens (fst a))
                                (opt_baseline o))
                        (z_test (c_residual_void (snd a)) (n_tokens (fst a))
                                (opt_baseline o))
                        (z_test (c_anomalous_void (snd a)) (n_tokens (fst a))
                                (opt_baseline o)))
                 else None)
           /\ debug_lines r
              = (if opt_quiet o then []
                 else debug_listing (tokens (fst a)) (opt_debug o)
                                    (hits (snd a)))
           /\ section_lines r
              = (if opt_quiet o then []
                 else fst (section_listing (opt_sections o)
                             (n_paragraphs (fst a)) (c_paragraphs (snd a))))).
Proof.
  intros r. subst r. unfold main.
  destruct (load_cluster (opt_void_file o) VOID_CLUSTER) as [vs|];
    [|left; split_and!; [done..|by left]].
  destruct (load_cluster (opt_pers_file o) PERSONALITY_MARKERS) as [ps|];
    [|left; split_and!; [done..|by right; left]].
  rewrite load_tech_default.
  cbv iota beta.
  assert (E : match args with
              | [] => ([], [stdin])
              | _ => open_inputs args 0
              end = (input_diags args, input_files args stdin)).
  { unfold input_diags, input_files. destruct args; [done|].
    by destruct (open_inputs _ 0). }
  rewrite E. clear E.
  destruct (analyse vs ps tech_default (opt_window o) (input_files args stdin))
    as [ts cs] eqn:Ea.
  assert (Hts : ts = tokenize vs ps (input_files args stdin)).
  { unfold analyse in Ea. cbv zeta in Ea. congruence. }
  destruct (Z.eqb_spec (n_tokens ts) 0) as [Hz|Hnz].
  { left. split_and!; [done..|]. right; right. exists vs, ps. by rewrite <- Hts. }
  right. exists vs, ps. split; [done|]. split; [done|].
  cbv zeta. rewrite Ea. cbn [fst snd].
  destruct (opt_quiet o);
    [cbn [analysis termination diagnostics quiet_record debug_lines
          section_lines]; done|].
  destruct (section_listing (opt_sections o) (n_paragraphs ts)
                            (c_paragraphs cs)) as [rows over].
  cbn [analysis termination diagnostics quiet_record debug_lines
       section_lines fst snd]. done.
Qed.

(** ** Saturated windows *)

Lemma scan_window_saturated tech toks W i :
  0 <= i < ntok toks -> ntok toks - 1 <= W ->
  scan_window tech toks W i = scan_window tech toks (ntok toks - 1) i.
Proof.
  intros Hi HW. unfold scan_window.
  rewrite !window_lo_max, !window_hi_min.
  replace (Z.max 0 (i - W)) with 0 by lia.
  replace (Z.max 0 (i - (ntok toks - 1))) with 0 by lia.
  replace (Z.min (ntok toks - 1) (i + W)) with (ntok toks - 1) by lia.
  replace (Z.min (ntok toks - 1) (i + (ntok toks - 1))) with (ntok toks - 1) by lia.
  done.
Qed.

Lemma elem_of_void_indices toks i :
  i ∈ void_indices toks -> 0 <= i < ntok toks.
Proof.
  unfold void_indices. rewrite list_elem_of_filter, elem_of_for_range.
  unfold ntok. lia.
Qed.

Lemma all_hits_saturated tech toks W :
  ntok toks - 1 <= W ->
  all_hits tech toks W = all_hits tech toks (ntok toks - 1).
Proof.
  intros HW. unfold all_hits. apply map_ext_in. intros i Hi.
  apply list_elem_of_In, elem_of_void_indices in Hi.
  unfold hit_record. by rewrite scan_window_saturated.
Qed.

Lemma analyse_hits vs ps tech W files :
  let a := analyse vs ps tech W files in
  hits (snd a)
  = take (Z.to_nat MAX_HIT_LOG) (all_hits tech (tokens (fst a)) W)
  /\ c_total_void (snd a)
     = Z.of_nat (length (all_hits tech (tokens (fst a)) W)).
Proof.
  unfold analyse. cbv zeta. cbn [fst snd hits c_total_void].
  set (ts := tokenize vs ps files).
  destruct (classify_all_spec tech (tokens ts) W (n_paragraphs ts)
                              (paragraphs ts)) as (Hh & Ht & _).
  done.
Qed.

(** The result of a completed run is the result of [analyse] on the loaded
    word lists. *)
Lemma main_analysis o names args stdin ts cs :
  analysis (main o names args stdin) = Some (ts, cs) ->
  exists vs ps,
    load_cluster (opt_void_file o) VOID_CLUSTER = Some vs
    /\ load_cluster (opt_pers_file o) PERSONALITY_MARKERS = Some ps
    /\ analyse vs ps tech_default (opt_window o) (input_files args stdin)
       = (ts, cs).
Proof.
  intros Ha.
  destruct (main_cases o names args stdin) as [(Hn & _)|(vs & ps & Hvs & Hps & H)].
  { rewrite Ha in Hn. done. }
  cbv zeta in H. destruct H as (_ & Ha' & _).
  exists vs, ps. split; [done|]. split; [done|]. congruence.
Qed.

Lemma labels_of_run_spec o names args stdin ts cs :
  analysis (main o names args stdin) = Some (ts, cs) ->
  labels_of_run (main o names args stdin)
  = map classification
        (take (Z.to_nat MAX_HIT_LOG)
              (all_hits tech_default (tokens ts) (opt_window o))).
Proof.
  intros Ha. unfold labels_of_run. rewrite Ha. f_equal.
  destruct (main_analysis _ _ _ _ _ _ Ha) as (vs & ps & _ & _ & E).
  pose proof (analyse_hits vs ps tech_default (opt_window o)
                           (input_files args stdin)) as [Hh _].
  rewrite E in Hh. exact Hh.
Qed.

(** ** Scenario B *)

(** The word "technical" is not a built-in technical marker,
    so the three hits of the literal input are Residual, at radius 3 and at
    the default and maximal radii alike. *)
Lemma scenario_B_literal_is_residual :
  labels_of_run
    (scenario_B 3 "void void void technical technical technical")
  = ["R"; "R"; "R"]%char
  /\ labels_of_run
       (scenario_B 15 "void void void technical technical technical")
     = ["R"; "R"; "R"]%char
  /\ labels_of_run
       (scenario_B 100 "void void void technical technical technical")
     = ["R"; "R"; "R"]%char
  /\ hs_contains tech_default (cstr "technical") = false.
Proof. vm_compute. done. Qed.

(** C3: with the built-in technical marker "kernel" in place of the word
    "technical", which is no technical marker, the input of scenario B has 6
    tokens and its 3 hits are Anomalous for every radius of at least 3, no
    personality marker being loaded. *)
Theorem scenario_B_marker_is_anomalous (w : Z) :
  3 <= w ->
  labels_of_run (scenario_B w "void void void kernel kernel kernel")
  = ["A"; "A"; "A"]%char
  /\ option_map (fun a => n_tokens (fst a))
       (analysis (scenario_B w "void void void kernel kernel kernel"))
     = Some 6.
Proof.
  intros Hw. unfold scenario_B.
  set (o := mkOptions w 0.03%float false false false None (Some (Some []))).
  set (text := cstr "void void void kernel kernel kernel").
  set (vs0 := load_defaults hs_init VOID_CLUSTER).
  set (ps0 := load_lines 1 hs_init []).
  assert (Hvs0 : load_cluster (opt_void_file o) VOID_CLUSTER = Some vs0)
    by (unfold load_cluster; reflexivity).
  assert (Hps0 : load_cluster (opt_pers_file o) PERSONALITY_MARKERS = Some ps0)
    by (unfold load_cluster; reflexivity).
  assert (Hn6 : n_tokens (tokenize vs0 ps0 [text]) = 6) by (vm_compute; done).
  destruct (main_cases o (""%string, ""%string) [] text)
    as [(_ & _ & [Hv|[Hp|(vs & ps & Hvs & Hps & Hz)]])
       |(vs & ps & Hvs & Hps & H)].
  - congruence.
  - congruence.
  - assert (vs = vs0) as -> by congruence.
    assert (ps = ps0) as -> by congruence.
    change (input_files [] text) with [text] in Hz. lia.
  - assert (vs = vs0) as -> by congruence.
    assert (ps = ps0) as -> by congruence.
    cbv zeta in H. destruct H as (_ & Ha & _).
    change (input_files [] text) with [text] in Ha.
    change (opt_window o) with w in Ha.
    destruct (analyse vs0 ps0 tech_default w [text]) as [ts cs] eqn:Ea.
    assert (Hts : ts = tokenize vs0 ps0 [text]).
    { unfold analyse in Ea. cbv zeta in Ea. congruence. }
    rewrite (labels_of_run_spec _ _ _ _ _ _ Ha), Ha.
    change (opt_window o) with w. cbn [option_map fst]. rewrite Hts.
    split; [|f_equal; exact Hn6].
    assert (Hsat : forall w', 5 <= w' ->
              all_hits tech_default (tokens (tokenize vs0 ps0 [text])) w'
              = all_hits tech_default (tokens (tokenize vs0 ps0 [text])) 5).
    { intros w' Hw'.
      assert (Hk : ntok (tokens (tokenize vs0 ps0 [text])) = 6) by exact Hn6.
      rewrite all_hits_saturated by (rewrite Hk; lia).
      rewrite Hk. reflexivity. }
    destruct (decide (w = 3)) as [->|]; [vm_compute; done|].
    destruct (decide (w = 4)) as [->|]; [vm_compute; done|].
    rewrite Hsat by lia. vm_compute. done.
Qed.

Lemma scenario_B_marker_is_anomalous_witness :
  3 <= 15
  /\ labels_of_run (scenario_B 15 "void void void kernel kernel kernel")
     = ["A"; "A"; "A"]%char.
Proof.
  split; [lia|]. apply (scenario_B_marker_is_anomalous 15). lia.
Defined.


Lemma status_0_returns (r : Run) :
  status r = 0 -> termination r = Returns 0.
Proof.
  unfold status. destruct (termination r) as [code|]; [|discriminate].
  by intros ->.
Qed.

(** ** Reading a word *)

(** One word character: the line-break count is reset, the character is
    stored if there is room. *)
Lemma char_step_word vs ps st c :
  is_word_char c = true ->
  char_step vs ps st c
  = mkTokState (tokens st) (cur_para_id st) 0 (para_start st) (paragraphs st)
      (n_paragraphs st)
      (if wpos st <? MAX_WORD_LEN - 1 then wbuf st ++ [c] else wbuf st)
      (byte_pos st + 1)
      (if wpos st =? 0 then byte_pos st + 1 else word_start st).
Proof.
  intros Hc. destruct (word_char_not_newline c Hc) as [H10 H13].
  unfold char_step, para_step, word_step. rewrite H10, H13. cbn [negb].
  cbn [tokens cur_para_id newline_count para_start paragraphs n_paragraphs
       wbuf byte_pos word_start wpos]. rewrite Hc. done.
Qed.

(** A separator after a non-empty buffer: the word is flushed. *)
Lemma char_step_sep vs ps st c :
  is_word_char c = false -> wbuf st <> [] -> newline_count st = 0 ->
  char_step vs ps st c
  = mkTokState (flush_word vs ps st) (cur_para_id st)
      (if code c =? 10 then 1 else 0) (para_start st) (paragraphs st)
      (n_paragraphs st) [] (byte_pos st + 1) (word_start st).
Proof.
  intros Hc Hb Hnc. destruct st as [toks pid nc pst pars np buf bp ws].
  cbn [wbuf newline_count] in Hb, Hnc. subst nc.
  unfold char_step, para_step, word_step.
  cbn [tokens cur_para_id newline_count para_start paragraphs n_paragraphs
       wbuf byte_pos word_start].
  assert (Hw : forall a b c d e f g h,
             (wpos (mkTokState a b c d e f buf g h) >? 0) = true).
  { intros. unfold wpos. cbn [wbuf]. destruct buf; [done|]. reflexivity. }
  destruct (code c =? 10).
  - change (0 + 1 >=? 2) with false. cbn [andb].
    rewrite Hc, Hw. done.
  - destruct (code c =? 13); cbn [negb]; rewrite Hc, Hw; done.
Qed.

Lemma fold_word_chars vs ps r st :
  Forall (fun c => is_word_char c = true) r ->
  (length (wbuf st) <= Z.to_nat (MAX_WORD_LEN - 1))%nat ->
  fold_left (char_step vs ps) r st = after_word st r.
Proof.
  intros Hr. revert st. induction Hr as [|c r Hc Hr IH]; intros st Hlen.
  - destruct st as [toks pid nc pst pars np buf bp ws]. unfold after_word.
    cbn [tokens cur_para_id newline_count para_start paragraphs n_paragraphs
         wbuf byte_pos word_start length] in *.
    rewrite app_nil_r, take_ge by lia. cbn [fold_left].
    f_equal; first [lia|by destruct buf].
  - cbn [fold_left]. rewrite char_step_word by done. rewrite IH.
    + destruct st as [toks pid nc pst pars np buf bp ws]. unfold after_word, wpos.
      cbn [tokens cur_para_id newline_count para_start paragraphs n_paragraphs
           wbuf byte_pos word_start length] in *.
      f_equal.
      * by destruct r.
      * destruct (Z.ltb_spec (Z.of_nat (length buf)) (MAX_WORD_LEN - 1)).
        -- by rewrite <- app_assoc.
        -- assert (length buf = Z.to_nat (MAX_WORD_LEN - 1)) as Hb by lia.
           rewrite !take_app_le by lia. done.
      * lia.
      * destruct buf as [|b buf]; cbn [length app].
        -- cbn. destruct r; done.
        -- replace (Z.of_nat (S (length buf)) =? 0) with false
             by (symmetry; apply Z.eqb_neq; lia).
           destruct (Z.of_nat (S (length buf)) <? MAX_WORD_LEN - 1); cbn [app];
             by destruct r.
    + cbn [wbuf]. unfold wpos.
      destruct (Z.ltb_spec (Z.of_nat (length (wbuf st))) (MAX_WORD_LEN - 1));
        rewrite ?length_app; cbn [length]; unfold MAX_WORD_LEN in *; lia.
Qed.

(** The token made of a run read into an empty buffer: the truncated run,
    lowercased, looked up in that form. *)
Lemma flush_after_word vs ps st r :
  wbuf st = [] ->
  let w := lowercase (take (Z.to_nat (MAX_WORD_LEN - 1)) r) in
  flush_word vs ps (after_word st r)
  = if (Z.of_nat (length w) >=? 2)
       && match r with c :: _ => isalpha c | [] => false end
       && (n_tokens st <? MAX_TOKENS)
    then tokens st
         ++ [mkToken w (hs_contains vs w) (hs_contains ps w) (cur_para_id st)
                     (match r with
                      | [] => word_start st
                      | _ => byte_pos st + 1
                      end)]
    else tokens st.
Proof.
  intros Hb w. unfold flush_word, accepts, make_token, after_word, wpos, n_tokens.
  cbn [tokens cur_para_id wbuf word_start]. rewrite Hb. cbn [app].
  fold w. unfold lowercase in w. subst w.
  rewrite !length_map.
  replace (match map tolower (take (Z.to_nat (MAX_WORD_LEN - 1)) r) with
           | [] => false | c :: _ => isalpha c end)
    with (match r with c :: _ => isalpha c | [] => false end).
  2:{ destruct r as [|c r]; [done|].
      change (Z.to_nat (MAX_WORD_LEN - 1)) with (S 62).
      cbn [firstn take map]. by rewrite isalpha_tolower. }
  destruct (_ && _ && _); [|done].
  rewrite strncpy_word_short by (rewrite length_map, length_take; lia).
  done.
Qed.

(** A non-empty run of word characters followed by a separator. *)
Lemma read_word vs ps st r c :
  wbuf st = [] -> r <> [] ->
  Forall (fun c => is_word_char c = true) r -> is_word_char c = false ->
  fold_left (char_step vs ps) (r ++ [c]) st
  = mkTokState (flush_word vs ps (after_word st r)) (cur_para_id st)
      (if code c =? 10 then 1 else 0) (para_start st) (paragraphs st)
      (n_paragraphs st) [] (byte_pos st + Z.of_nat (length r) + 1)
      (byte_pos st + 1).
Proof.
  intros Hb Hr Hw Hc. rewrite fold_left_app. cbn [fold_left].
  rewrite fold_word_chars by (done || (rewrite Hb; cbn; lia)).
  rewrite char_step_sep; try done.
  - unfold after_word. cbn [cur_para_id para_start paragraphs n_paragraphs
      byte_pos word_start]. rewrite Hb. destruct r; done.
  - unfold after_word. cbn [wbuf]. rewrite Hb. cbn [app].
    destruct r; [done|]. done.
  - unfold after_word. cbn [newline_count]. by destruct r.
Qed.

(** The same run ending the file. *)
Lemma read_last_word vs ps st r :
  wbuf st = [] -> r <> [] ->
  Forall (fun c => is_word_char c = true) r ->
  tokens (flush_last vs ps (fold_left (char_step vs ps) r st))
  = flush_word vs ps (after_word st r).
Proof.
  intros Hb Hr Hw.
  rewrite fold_word_chars by (done || (rewrite Hb; cbn; lia)).
  unfold flush_last.
  replace (wpos (after_word st r) >? 0) with true; [done|].
  unfold after_word, wpos. cbn [wbuf]. rewrite Hb. cbn [app].
  destruct r; done.
Qed.

(** ** A corpus of repeated "void" *)




Lemma tokens_close_final st : tokens (close_final st) = tokens st.
Proof. done. Qed.








(** ** The hit log *)

(** Whatever the number of hits, the log holds the earliest
    [MAX_HIT_LOG] of them (all of them when they are fewer) while
    [total_void] counts every hit; the diagnostics of a completed run are the
    [perror] messages of the unreadable operands and nothing else, its
    [stdout] under [-q] is the single record of the counters, and the [-d]
    listing is computed from the capped log alone. *)
Theorem hit_log_keeps_earliest_hits o names args stdin :
  let r := main o names args stdin in
  status r = 0 ->
  exists ts cs,
    analysis r = Some (ts, cs)
    /\ (let L := all_hits tech_default (tokens ts) (opt_window o) in
        hits cs = take (Z.to_nat MAX_HIT_LOG) L
        /\ c_total_void cs = Z.of_nat (length L)
        /\ n_hits cs = Z.min (c_total_void cs) MAX_HIT_LOG)
    /\ diagnostics r = input_diags args
    /\ Forall (fun d => exists name, d = DiagPerror name /\ (name, None) ∈ args)
              (diagnostics r)
    /\ (opt_quiet o = true ->
        debug_lines r = []
        /\ exists z_raw z_resid z_anom,
             quiet_record r
             = Some (mkQuietRecord (c_total_void cs) (c_personality_void cs)
                       (c_residual_void cs) (c_anomalous_void cs)
                       (n_tokens ts) z_raw z_resid z_anom))
    /\ (opt_quiet o = false ->
        quiet_record r = None
        /\ debug_lines r
           = debug_listing (tokens ts) (opt_debug o) (hits cs)).
Proof.
  intros r Hs. subst r.
  destruct (main_cases o names args stdin)
    as [(_ & Hs1 & _)|(vs & ps & _ & _ & H)]; [congruence|].
  cbv zeta in H. destruct H as (_ & Ha & _ & Hd & Hq & Hl & _).
  pose proof (analyse_hits vs ps tech_default (opt_window o)
                           (input_files args stdin)) as Hh.
  cbv zeta in Hh.
  destruct (analyse vs ps tech_default (opt_window o) (input_files args stdin))
    as [ts cs].
  cbn [fst snd] in *. destruct Hh as [Hh1 Hh2].
  exists ts, cs. split; [exact Ha|]. split.
  { cbv zeta. split; [exact Hh1|]. split; [exact Hh2|].
    unfold n_hits. rewrite Hh1, Hh2, length_take. unfold MAX_HIT_LOG. lia. }
  split; [exact Hd|]. split.
  { rewrite Hd. unfold input_diags. destruct args; [constructor|].
    apply open_inputs_diags. }
  split.
  - intros Eq. rewrite Eq in Hq, Hl. split; [exact Hl|]. eauto.
  - intros Eq. rewrite Eq in Hq, Hl. split; [exact Hq|exact Hl].
Qed.

Lemma hit_log_keeps_earliest_hits_witness :
  let r := main (mkOptions 1 0.03%float true false false None None)
                (""%string, ""%string) [] (cstr "void dark") in
  status r = 0
  /\ exists ts cs,
       analysis r = Some (ts, cs)
       /\ n_hits cs = Z.min (c_total_void cs) MAX_HIT_LOG.
Proof.
  cbv zeta.
  assert (Hs : status (main (mkOptions 1 0.03%float true false false None None)
                            (""%string, ""%string) [] (cstr "void dark")) = 0)
    by (vm_compute; reflexivity).
  split; [exact Hs|].
  destruct (hit_log_keeps_earliest_hits _ _ _ _ Hs)
    as (ts & cs & Ha & (_ & _ & Hn) & _).
  exists ts, cs. split; [exact Ha|exact Hn].
Defined.

(** ** The token array *)

Lemma lowercase_word_chars w :
  Forall (fun c => is_word_char c = true) w ->
  Forall (fun c => is_word_char c = true /\ isupper c = false) (lowercase w).
Proof.
  unfold lowercase. induction 1 as [|c w Hc Hw IH]; cbn [map]; constructor;
    [|done].
  split; [by rewrite is_word_char_tolower|apply isupper_tolower].
Qed.

Lemma make_token_ok vs ps st :
  (length (wbuf st) <= Z.to_nat (MAX_WORD_LEN - 1))%nat ->
  Forall (fun c => is_word_char c = true) (wbuf st) ->
  accepts st = true ->
  token_ok vs ps (make_token vs ps st).
Proof.
  intros Hlen Hchars Hacc. unfold accepts in Hacc.
  apply andb_true_iff in Hacc as [Hacc _].
  apply andb_true_iff in Hacc as [Hpos Hfirst].
  apply Z.geb_le in Hpos. unfold wpos in Hpos.
  unfold token_ok, make_token. cbn [word is_void is_personality].
  rewrite strncpy_word_short by (by rewrite lowercase_length).
  pose proof (lowercase_word_chars _ Hchars) as Hlow.
  split_and!; [rewrite lowercase_length; lia|rewrite lowercase_length; lia
              |done| |done|done].
  destruct (lowercase (wbuf st)) as [|c w'] eqn:E; [done|].
  exists c, w'. split; [done|].
  apply Forall_cons in Hlow as [[_ Hup] _].
  unfold isalpha in Hfirst. rewrite Hup in Hfirst. done.
Qed.

Lemma tokens_inv_same vs ps st st' :
  tokens_inv vs ps st ->
  tokens st' = tokens st ->
  cur_para_id st <= cur_para_id st' ->
  (length (wbuf st') <= Z.to_nat (MAX_WORD_LEN - 1))%nat ->
  Forall (fun c => is_word_char c = true) (wbuf st') ->
  tokens_inv vs ps st'.
Proof.
  intros (Hbuf & Hchars & Hn & Htok & Hid & Hpid & Hmono) Et Ec Hbuf' Hchars'.
  unfold tokens_inv, n_tokens in *. rewrite Et.
  split_and!; [done|done|done|done|lia| |done].
  eapply Forall_impl; [exact Hpid|]. intros t Ht. simpl in Ht. lia.
Qed.

Lemma tokens_inv_flush vs ps st st' :
  tokens_inv vs ps st ->
  tokens st' = flush_word vs ps st ->
  cur_para_id st' = cur_para_id st ->
  wbuf st' = [] \/ wbuf st' = wbuf st ->
  tokens_inv vs ps st'.
Proof.
  intros Hinv Et Ec Ew.
  assert (Hbuf' : (length (wbuf st') <= Z.to_nat (MAX_WORD_LEN - 1))%nat
                  /\ Forall (fun c => is_word_char c = true) (wbuf st')).
  { destruct Hinv as (Hbuf & Hchars & _).
    destruct Ew as [->| ->]; [split; [simpl; lia|constructor]|done]. }
  destruct Hbuf' as [Hbuf' Hchars'].
  unfold flush_word in Et. destruct (accepts st) eqn:Eacc.
  2:{ eapply tokens_inv_same; [exact Hinv|done|lia|done|done]. }
  destruct Hinv as (Hbuf & Hchars & Hn & Htok & Hid & Hpid & Hmono).
  pose proof (make_token_ok vs ps st Hbuf Hchars Eacc) as Hok.
  unfold accepts in Eacc. apply andb_true_iff in Eacc as [_ Hroom].
  apply Z.ltb_lt in Hroom.
  unfold tokens_inv, n_tokens in *. rewrite Et, Ec.
  split_and!; [done|done|rewrite length_app; simpl; lia| |done| |].
  - apply Forall_app. split; [done|]. by constructor.
  - apply Forall_app. split; [done|]. constructor; [|done].
    unfold make_token. cbn [para_id]. lia.
  - intros i j ti tj Hij Hi Hj.
    apply lookup_snoc_Some in Hi as [[Hil Hi]|[-> <-]];
      apply lookup_snoc_Some in Hj as [[Hjl Hj]|[-> <-]].
    + by apply (Hmono i j).
    + unfold make_token. cbn [para_id].
      pose proof (Forall_lookup_1 _ _ _ _ Hpid Hi) as H. simpl in H. lia.
    + lia.
    + lia.
Qed.

Lemma tokens_init_inv vs ps : tokens_inv vs ps tok_init.
Proof.
  unfold tokens_inv, tok_init, n_tokens. proj.
  split_and!; [simpl; lia|constructor|simpl; unfold MAX_TOKENS; lia
              |constructor|lia|constructor|].
  intros i j ti tj _ Hi. by destruct i.
Qed.

Lemma para_step_tokens c st :
  tokens (para_step c st) = tokens st
  /\ wbuf (para_step c st) = wbuf st
  /\ cur_para_id st <= cur_para_id (para_step c st).
Proof.
  unfold para_step.
  destruct (code c =? 10).
  - destruct (_ && _).
    + destruct (n_paragraphs st <? MAX_PARAGRAPHS - 1); proj;
        (split_and!; [done|done|lia]).
    + proj. split_and!; [done|done|lia].
  - destruct (negb _); proj; (split_and!; [done|done|lia]).
Qed.

Lemma char_step_tokens_inv vs ps st c :
  tokens_inv vs ps st -> tokens_inv vs ps (char_step vs ps st c).
Proof.
  intros Hinv. unfold char_step.
  set (st1 := mkTokState _ _ _ _ _ _ _ _ _).
  assert (H1 : tokens_inv vs ps st1).
  { eapply tokens_inv_same; [exact Hinv|done|unfold st1; proj; lia|..];
      unfold st1; proj; apply Hinv. }
  destruct (para_step_tokens c st1) as (Et & Ew & Ec).
  set (st2 := para_step c st1) in *.
  assert (H2 : tokens_inv vs ps st2).
  { eapply tokens_inv_same; [exact H1|done|done|..]; rewrite Ew; apply H1. }
  clearbody st2. clear - H2.
  unfold word_step. destruct (is_word_char c) eqn:Ec.
  - eapply tokens_inv_same; [exact H2|done|proj; lia|..]; proj.
    + destruct H2 as (Hbuf & _). destruct (Z.ltb_spec (wpos st2) (MAX_WORD_LEN - 1));
        [|done]. unfold wpos in *. rewrite length_app. simpl.
      unfold MAX_WORD_LEN in *. lia.
    + destruct H2 as (_ & Hchars & _). destruct (wpos st2 <? MAX_WORD_LEN - 1);
        [|done]. apply Forall_app. split; [done|]. by constructor.
  - destruct (wpos st2 >? 0); [|done].
    eapply tokens_inv_flush; [exact H2|done|done|by left].
Qed.

Lemma fold_char_step_tokens_inv vs ps f st :
  tokens_inv vs ps st -> tokens_inv vs ps (fold_left (char_step vs ps) f st).
Proof.
  revert st. induction f as [|c f IH]; intros st H; [done|].
  rewrite fold_left_step. apply IH, char_step_tokens_inv, H.
Qed.

Lemma read_file_tokens_inv vs ps st f :
  tokens_inv vs ps st -> tokens_inv vs ps (read_file vs ps st f).
Proof.
  intros H. unfold read_file, flush_last.
  set (st' := fold_left _ _ _).
  assert (H' : tokens_inv vs ps st').
  { apply fold_char_step_tokens_inv.
    eapply tokens_inv_same; [exact H|done|unfold open_file; proj; lia|..];
      unfold open_file; proj; [simpl; lia|constructor]. }
  destruct (wpos st' >? 0); [|done].
  eapply tokens_inv_flush; [exact H'|done|done|by right].
Qed.

Lemma read_files_tokens_inv vs ps files st :
  tokens_inv vs ps st ->
  tokens_inv vs ps (fold_left (read_file vs ps) files st).
Proof.
  revert st. induction files as [|f files IH]; intros st H; [done|].
  rewrite fold_left_step. apply IH, read_file_tokens_inv, H.
Qed.

Lemma tokenize_tokens_inv vs ps files :
  tokens_inv vs ps (tokenize vs ps files).
Proof.
  unfold tokenize.
  pose proof (read_files_tokens_inv vs ps files _ (tokens_init_inv vs ps)) as H.
  eapply tokens_inv_same; [exact H|done|unfold close_final; proj; lia|..];
    unfold close_final; proj; apply H.
Qed.

(** Whatever the input bytes and the word lists, every token the tokenizer
    stores is a normalised word: 2 to 63 word characters, none upper-case,
    the first a letter, flagged by the lookups of that very word; and at most
    [MAX_TOKENS] tokens are stored. *)
Theorem tokens_are_normalised_words vs ps files :
  Forall (token_ok vs ps) (tokens (tokenize vs ps files))
  /\ n_tokens (tokenize vs ps files) <= MAX_TOKENS.
Proof.
  destruct (tokenize_tokens_inv vs ps files) as (_ & _ & Hn & Htok & _).
  done.
Qed.

(** The paragraph ids stored in the tokens start at 0 and never decrease
    along the corpus. *)
Theorem token_paragraph_ids_ascend vs ps files (i j : nat) ti tj :
  (i <= j)%nat ->
  tokens (tokenize vs ps files) !! i = Some ti ->
  tokens (tokenize vs ps files) !! j = Some tj ->
  0 <= para_id ti <= para_id tj.
Proof.
  intros Hij Hi Hj.
  destruct (tokenize_tokens_inv vs ps files) as (_ & _ & _ & _ & _ & Hpid & Hmono).
  pose proof (Forall_lookup_1 _ _ _ _ Hpid Hi) as H. simpl in H.
  pose proof (Hmono i j ti tj Hij Hi Hj). lia.
Qed.

Lemma token_paragraph_ids_ascend_witness :
  0 <= para_id (mkToken (cstr "ab") false false 0 1)
    <= para_id (mkToken (cstr "cd") false false 1 5).
Proof.
  apply (token_paragraph_ids_ascend hs_init hs_init [cstr "ab

cd"] 0 1).
  - lia.
  - vm_compute. reflexivity.
  - vm_compute. reflexivity.
Defined.

(** ** Letter case *)

Lemma flush_word_lower vs ps st :
  flush_word vs ps (lower_buf st) = flush_word vs ps st.
Proof.
  unfold flush_word, accepts, make_token, lower_buf, wpos, n_tokens. proj.
  by rewrite lowercase_idem, lowercase_length.
Qed.

Lemma wpos_lower st : wpos (lower_buf st) = wpos st.
Proof. unfold wpos, lower_buf; proj. by rewrite lowercase_length. Qed.

Lemma para_step_lower c st :
  para_step (tolower c) (lower_buf st) = lower_buf (para_step c st).
Proof.
  unfold para_step. rewrite !code_tolower_ctl by lia.
  unfold lower_buf, n_tokens. proj.
  destruct (code c =? 10).
  - destruct (_ && _); [|done].
    by destruct (n_paragraphs st <? MAX_PARAGRAPHS - 1).
  - by destruct (negb _).
Qed.

Lemma word_step_lower vs ps c st :
  word_step vs ps (tolower c) (lower_buf st)
  = lower_buf (word_step vs ps c st).
Proof.
  unfold word_step. rewrite is_word_char_tolower, flush_word_lower.
  rewrite wpos_lower. destruct (is_word_char c).
  - unfold lower_buf; proj.
    destruct (wpos st <? MAX_WORD_LEN - 1); destruct (wpos st =? 0);
      unfold lowercase; rewrite ?map_app; reflexivity.
  - destruct (wpos st >? 0); reflexivity.
Qed.

Lemma char_step_lower vs ps st c :
  char_step vs ps (lower_buf st) (tolower c)
  = lower_buf (char_step vs ps st c).
Proof.
  unfold char_step. rewrite <- word_step_lower, <- para_step_lower. done.
Qed.

Lemma fold_char_step_lower vs ps f st :
  fold_left (char_step vs ps) (lowercase f) (lower_buf st)
  = lower_buf (fold_left (char_step vs ps) f st).
Proof.
  revert st. induction f as [|c f IH]; intros st; [done|].
  unfold lowercase. rewrite map_cons, !fold_left_step.
  rewrite char_step_lower. apply IH.
Qed.

Lemma flush_last_lower vs ps st :
  flush_last vs ps (lower_buf st) = lower_buf (flush_last vs ps st).
Proof.
  unfold flush_last. rewrite flush_word_lower, wpos_lower.
  destruct (wpos st >? 0); reflexivity.
Qed.

Lemma read_file_lower vs ps st f :
  read_file vs ps (lower_buf st) (lowercase f)
  = lower_buf (read_file vs ps st f).
Proof.
  unfold read_file.
  change (open_file (lower_buf st)) with (lower_buf (open_file st)).
  by rewrite fold_char_step_lower, flush_last_lower.
Qed.

Lemma read_files_lower vs ps files st :
  fold_left (read_file vs ps) (map lowercase files) (lower_buf st)
  = lower_buf (fold_left (read_file vs ps) files st).
Proof.
  revert st. induction files as [|f files IH]; intros st; [done|].
  rewrite map_cons, !fold_left_step, read_file_lower. apply IH.
Qed.

Lemma tokenize_lower vs ps files :
  tokenize vs ps (map lowercase files) = lower_buf (tokenize vs ps files).
Proof.
  unfold tokenize.
  change (tok_init) with (lower_buf tok_init) at 1.
  rewrite read_files_lower. done.
Qed.

(** The analysis does not see letter case: lower-casing every input byte
    beforehand changes neither the tokens, nor the sections, nor any counter
    or hit record. *)
Theorem analysis_ignores_letter_case vs ps tech W files :
  let '(ts, cs) := analyse vs ps tech W files in
  let '(ts', cs') := analyse vs ps tech W (map lowercase files) in
  tokens ts' = tokens ts
  /\ paragraphs ts' = paragraphs ts
  /\ n_paragraphs ts' = n_paragraphs ts
  /\ cs' = cs.
Proof.
  unfold analyse. rewrite tokenize_lower. done.
Qed.

(** ** A file that holds one word *)

(** An input made of a single run of word characters gives at most one
    token: none when the run has fewer than 2 characters or does not start
    with a letter; otherwise the first [MAX_WORD_LEN - 1] characters,
    lower-cased, in paragraph 0 at byte offset 1, flagged by the lookups of
    this cut form. *)
Theorem single_word_file vs ps r :
  Forall (fun c => is_word_char c = true) r -> r <> [] ->
  let w := lowercase (take (Z.to_nat (MAX_WORD_LEN - 1)) r) in
  tokens (tokenize vs ps [r])
  = if (2 <=? Z.of_nat (length r))
       && match r with c :: _ => isalpha c | [] => false end
    then [mkToken w (hs_contains vs w) (hs_contains ps w) 0 1]
    else [].
Proof.
  intros Hr Hne w. unfold tokenize. rewrite tokens_close_final.
  rewrite fold_left_step. change (fold_left (read_file vs ps) [] ?x) with x.
  unfold read_file.
  rewrite (read_last_word vs ps (open_file tok_init) r eq_refl Hne Hr).
  pose proof (flush_after_word vs ps (open_file tok_init) r eq_refl) as E.
  cbn zeta in E. rewrite E. clear E. fold w.
  assert (E0 : n_tokens (open_file tok_init) = 0) by reflexivity.
  assert (E1 : tokens (open_file tok_init) = []) by reflexivity.
  assert (E2 : cur_para_id (open_file tok_init) = 0) by reflexivity.
  assert (E3 : byte_pos (open_file tok_init) = 0) by reflexivity.
  rewrite E0, E1, E2, E3. clear E0 E1 E2 E3.
  change (0 <? MAX_TOKENS) with true. rewrite andb_true_r.
  replace (Z.of_nat (length w) >=? 2) with (2 <=? Z.of_nat (length r)).
  2:{ unfold w. rewrite lowercase_length, length_take.
      change (Z.to_nat (MAX_WORD_LEN - 1)) with 63%nat.
      rewrite Z.geb_leb.
      destruct (Z.leb_spec 2 (Z.of_nat (length r)));
        [symmetry; apply Z.leb_le|symmetry; apply Z.leb_gt]; lia. }
  destruct r as [|c r']; [done|]. reflexivity.
Qed.

Lemma single_word_file_witness :
  tokens (tokenize hs_init hs_init [cstr "Ab"])
  = if (2 <=? Z.of_nat (length (cstr "Ab")))
       && match cstr "Ab" with c :: _ => isalpha c | [] => false end
    then [mkToken (lowercase (take (Z.to_nat (MAX_WORD_LEN - 1)) (cstr "Ab")))
            (hs_contains hs_init
               (lowercase (take (Z.to_nat (MAX_WORD_LEN - 1)) (cstr "Ab"))))
            (hs_contains hs_init
               (lowercase (take (Z.to_nat (MAX_WORD_LEN - 1)) (cstr "Ab"))))
            0 1]
    else [].
Proof.
  apply (single_word_file hs_init hs_init (cstr "Ab")).
  - repeat constructor.
  - discriminate.
Defined.

(** ** Marker counts *)

Lemma para_step_paragraphs_Forall (Q : Paragraph -> Prop) c st :
  (forall n, Q (set_start n zero_paragraph)) ->
  (forall n p, Q p -> Q (close_at n p)) ->
  Forall Q (paragraphs st) -> Forall Q (paragraphs (para_step c st)).
Proof.
  intros H0 Hc H. unfold para_step. destruct (code c =? 10).
  - destruct (_ && _); [|done].
    assert (Forall Q (alter (close_at (n_tokens st)) (Z.to_nat (n_paragraphs st))
                            (paragraphs st))).
    { apply Forall_alter; [done|]. intros x _. apply Hc. }
    destruct (n_paragraphs st <? MAX_PARAGRAPHS - 1); proj; [|done].
    by apply Forall_insert.
  - by destruct (negb _).
Qed.

Lemma word_step_paragraphs vs ps c st :
  paragraphs (word_step vs ps c st) = paragraphs st.
Proof.
  unfold word_step. destruct (is_word_char c); [done|].
  by destruct (wpos st >? 0).
Qed.

Lemma read_file_paragraphs_Forall (Q : Paragraph -> Prop) vs ps st f :
  (forall n, Q (set_start n zero_paragraph)) ->
  (forall n p, Q p -> Q (close_at n p)) ->
  Forall Q (paragraphs st) -> Forall Q (paragraphs (read_file vs ps st f)).
Proof.
  intros H0 Hc H. unfold read_file.
  assert (Hf : forall s, Forall Q (paragraphs s) ->
                         Forall Q (paragraphs (fold_left (char_step vs ps) f s))).
  { induction f as [|c f IH]; intros s Hs; [done|].
    rewrite fold_left_step. apply IH. unfold char_step.
    rewrite word_step_paragraphs. by apply para_step_paragraphs_Forall. }
  specialize (Hf (open_file st) H).
  unfold flush_last. by destruct (wpos _ >? 0).
Qed.

Lemma tokenize_paragraphs_Forall (Q : Paragraph -> Prop) vs ps files :
  (forall n, Q (set_start n zero_paragraph)) ->
  (forall n p, Q p -> Q (close_at n p)) ->
  Q zero_paragraph ->
  Forall Q (paragraphs (tokenize vs ps files)).
Proof.
  intros H0 Hc Hz. unfold tokenize.
  assert (Hf : forall s, Forall Q (paragraphs s) ->
                 Forall Q (paragraphs (fold_left (read_file vs ps) files s))).
  { induction files as [|f files IH]; intros s Hs; [done|].
    rewrite fold_left_step. by apply IH, read_file_paragraphs_Forall. }
  unfold close_final. proj. apply Forall_alter; [|intros x _; apply Hc].
  apply Hf. unfold tok_init. proj.
  apply Forall_insert; [|done]. by apply Forall_replicate.
Qed.

Lemma para_sum_zero g ps np :
  Forall (fun p => g p = 0) ps -> para_sum g ps np = 0.
Proof.
  intros H. unfold para_sum.
  assert (Ht : Forall (fun p => g p = 0) (take (Z.to_nat np) ps))
    by by apply Forall_take.
  induction Ht as [|x l Hx _ IH]; simpl; [done|]. rewrite Hx. lia.
Qed.

Lemma count_tokens_S f toks (k : nat) t :
  toks !! k = Some t ->
  count_tokens f (take (S k) toks) = count_tokens f (take k toks) + b2z (f t).
Proof.
  intros H. unfold count_tokens. rewrite (take_S_r _ _ _ H), map_app, zsum_app.
  simpl. lia.
Qed.

Lemma classify_prefix_markers tech toks W np ps (k : nat) :
  (k <= length toks)%nat ->
  let cs := fold_left (classify_step tech toks W np) (for_range k 0)
                      (cls_init ps) in
  c_total_personality_markers cs = count_tokens is_personality (take k toks)
  /\ c_total_technical_markers cs
     = count_tokens (fun t => hs_contains tech (word t)) (take k toks)
  /\ para_sum personality_hits (c_paragraphs cs) np
     = para_sum personality_hits ps np
  /\ para_sum technical_hits (c_paragraphs cs) np
     = para_sum technical_hits ps np.
Proof.
  induction k as [|k IH]; intros Hk; [done|].
  rewrite for_range_snoc, fold_left_app. cbn [fold_left]. rewrite Z.add_0_l.
  destruct (IH ltac:(lia)) as (Hp & Ht & Hsp & Hst). clear IH.
  set (cs := fold_left _ _ _) in *. cbn zeta.
  destruct (lookup_lt_is_Some_2 toks k ltac:(lia)) as [t Et].
  rewrite !(count_tokens_S _ _ _ _ Et).
  unfold classify_step. rewrite Nat2Z.id, Et.
  destruct (is_void t); cbn [negb].
  - destruct (scan_window tech toks W (Z.of_nat k)) as [pc tc].
    rewrite classify_counts_label.
    cbn [c_total_personality_markers c_total_technical_markers c_paragraphs].
    rewrite !update_paragraph_neutral
      by (intros p; unfold bump; by destruct (Ascii.eqb _ _)).
    split_and!; [lia|lia|done|done].
  - cbn [c_total_personality_markers c_total_technical_markers c_paragraphs].
    split_and!; [lia|lia|done|done].
Qed.

Lemma count_markers_prefix tech toks np ps (k : nat) :
  (k <= length toks)%nat ->
  (forall i, 0 <= i < ntok toks -> covered ps np i) ->
  let ps' :=
    fold_left
      (fun ps i =>
         match toks !! Z.to_nat i with
         | Some t => update_paragraph np i (bump_markers tech t) ps
         | None => ps
         end) (for_range k 0) ps in
  same_ranges ps ps'
  /\ para_sum personality_hits ps' np
     = para_sum personality_hits ps np
       + count_tokens is_personality (take k toks)
  /\ para_sum technical_hits ps' np
     = para_sum technical_hits ps np
       + count_tokens (fun t => hs_contains tech (word t)) (take k toks).
Proof.
  intros Hk Hcov. induction k as [|k IH].
  - cbn [for_range fold_left]. rewrite take_0. unfold count_tokens.
    cbn [map zsum fold_right].
    split_and!; [apply same_ranges_refl|lia|lia].
  - rewrite for_range_snoc, fold_left_app. cbn [fold_left]. rewrite Z.add_0_l.
    destruct (IH ltac:(lia)) as (Hr & Hp & Ht). clear IH.
    set (ps' := fold_left _ _ _) in *. cbn zeta.
    destruct (lookup_lt_is_Some_2 toks k ltac:(lia)) as [t Et].
    rewrite !(count_tokens_S _ _ _ _ Et). rewrite Nat2Z.id, Et.
    assert (Hc : covered ps' np (Z.of_nat k)).
    { eapply covered_same_ranges; [exact Hr|]. apply Hcov. unfold ntok. lia. }
    split_and!.
    + eapply same_ranges_trans; [exact Hr|].
      apply update_paragraph_ranges, keeps_range_bump_markers.
    + rewrite (update_paragraph_covered _ (b2z (is_personality t)))
        by (done || by intros p). lia.
    + rewrite (update_paragraph_covered _ (b2z (hs_contains tech (word t))))
        by (done || by intros p). lia.
Qed.

Lemma count_tokens_bounds f toks :
  0 <= count_tokens f toks <= Z.of_nat (length toks).
Proof.
  unfold count_tokens. induction toks as [|t toks IH]; cbn [map zsum fold_right length];
    [lia|].
  fold (zsum (map (fun t => b2z (f t)) toks)).
  destruct (f t); cbn [b2z]; lia.
Qed.

(** The two marker totals count the personality-marker and the
    technical-marker tokens of the whole corpus (so neither exceeds the
    number of tokens), and the per-section marker counters add up to
    them. *)
Theorem marker_counts_add_up vs ps tech W files :
  let ts := fst (analyse vs ps tech W files) in
  let cs := snd (analyse vs ps tech W files) in
  let np := n_paragraphs ts in
  c_total_personality_markers cs = count_tokens is_personality (tokens ts)
  /\ c_total_technical_markers cs
     = count_tokens (fun t => hs_contains tech (word t)) (tokens ts)
  /\ para_sum personality_hits (c_paragraphs cs) np
     = c_total_personality_markers cs
  /\ para_sum technical_hits (c_paragraphs cs) np
     = c_total_technical_markers cs
  /\ 0 <= c_total_personality_markers cs <= n_tokens ts
  /\ 0 <= c_total_technical_markers cs <= n_tokens ts.
Proof.
  intros ts cs np. unfold analyse in ts, cs, np. cbn [fst snd] in ts, cs, np.
  subst cs. cbn [c_total_personality_markers c_total_technical_markers
                 c_paragraphs].
  fold ts. fold np.
  destruct (tokenize_partitions vs ps files) as (Hlen & Hnp & Hpart & _).
  fold ts in Hlen, Hnp, Hpart. fold np in Hnp, Hpart.
  assert (Hle : (Z.to_nat np <= length (paragraphs ts))%nat)
    by (rewrite Hlen; unfold MAX_PARAGRAPHS in *; lia).
  assert (Hcov : forall i, 0 <= i < ntok (tokens ts) ->
                           covered (paragraphs ts) np i).
  { intros i Hi. destruct (partitions_find _ _ _ i Hpart Hi) as (p & Hp' & Hin).
    by eapply in_section_covered. }
  pose proof (classify_prefix_markers tech (tokens ts) W np (paragraphs ts)
                (length (tokens ts)) ltac:(lia)) as H.
  cbn zeta in H. fold (classify_all tech (tokens ts) W np (paragraphs ts)) in H.
  set (cs0 := classify_all tech (tokens ts) W np (paragraphs ts)) in *.
  rewrite firstn_all in H. destruct H as (Hp & Ht & Hsp & Hst).
  destruct (classify_all_para tech (tokens ts) W np (paragraphs ts) Hcov)
    as (Hr & _).
  fold cs0 in Hr.
  pose proof (count_markers_prefix tech (tokens ts) np (c_paragraphs cs0)
                (length (tokens ts)) ltac:(lia)) as H.
  cbn zeta in H.
  fold (count_markers tech (tokens ts) np (c_paragraphs cs0)) in H.
  destruct H as (_ & Hmp & Hmt).
  { intros i Hi. eapply covered_same_ranges; [exact Hr|by apply Hcov]. }
  rewrite firstn_all in Hmp, Hmt.
  assert (Hz : Forall (fun p => personality_hits p = 0 /\ technical_hits p = 0)
                      (paragraphs ts)).
  { apply tokenize_paragraphs_Forall; done. }
  rewrite (para_sum_zero personality_hits (paragraphs ts)) in Hsp
    by (eapply Forall_impl; [exact Hz|]; by intros ? [? ?]).
  rewrite (para_sum_zero technical_hits (paragraphs ts)) in Hst
    by (eapply Forall_impl; [exact Hz|]; by intros ? [? ?]).
  pose proof (count_tokens_bounds is_personality (tokens ts)).
  pose proof (count_tokens_bounds (fun t => hs_contains tech (word t))
                (tokens ts)).
  unfold n_tokens.
  split_and!; try done; lia.
Qed.

(** ** Counters *)

Lemma count_label_nonneg c l : 0 <= count_label c l.
Proof. unfold count_label. lia. Qed.

Lemma length_void_indices toks :
  (length (void_indices toks) <= length toks)%nat.
Proof.
  unfold void_indices.
  pose proof (length_filter (fun i => void_at toks i = true)
                (for_range (length toks) 0)) as H.
  rewrite length_for_range in H. exact H.
Qed.

Lemma analyse_bounds vs ps tech W files :
  let ts := fst (analyse vs ps tech W files) in
  let cs := snd (analyse vs ps tech W files) in
  c_total_void cs = c_personality_void cs + c_residual_void cs
  /\ 0 <= c_personality_void cs
  /\ 0 <= c_anomalous_void cs <= c_residual_void cs
  /\ c_total_void cs <= n_tokens ts
  /\ n_hits cs = Z.min (c_total_void cs) MAX_HIT_LOG.
Proof.
  intros ts cs.
  destruct (analyse_counts vs ps tech W files) as ((Ht & Hp & Ha & Hr & Hs) & _).
  destruct (analyse_hits vs ps tech W files) as (Hh & _).
  fold ts in Ht, Hp, Ha, Hr, Hs, Hh.
  fold cs in Ht, Hp, Ha, Hr, Hs, Hh.
  pose proof (count_label_nonneg "P" (all_hits tech (tokens ts) W)).
  pose proof (count_label_nonneg "A" (all_hits tech (tokens ts) W)).
  pose proof (count_label_nonneg "R" (all_hits tech (tokens ts) W)).
  pose proof (length_void_indices (tokens ts)) as Hv.
  assert (Hl : length (all_hits tech (tokens ts) W)
               = length (void_indices (tokens ts)))
    by (unfold all_hits; apply length_map).
  split_and!; try lia.
  - unfold n_tokens. lia.
  - unfold n_hits. rewrite Hh, length_take, Ht. unfold MAX_HIT_LOG. lia.
Qed.

(** The record written under [-q]: the hits split into personality-explained
    and residual ones, the anomalous hits are residual hits, there are no
    more hits than tokens, the token count is positive (so the guard of
    [z_test] on [total] never fires there), and the three scores are those of
    the three counters against the baseline. *)
Theorem quiet_record_is_consistent o names args stdin :
  let r := main o names args stdin in
  status r = 0 -> opt_quiet o = true ->
  exists q,
    quiet_record r = Some q
    /\ 0 < q_n_tokens q
    /\ q_total_void q = q_personality_void q + q_residual_void q
    /\ 0 <= q_personality_void q
    /\ 0 <= q_anomalous_void q <= q_residual_void q
    /\ q_total_void q <= q_n_tokens q
    /\ q_z_raw q = z_test (q_total_void q) (q_n_tokens q) (opt_baseline o)
    /\ q_z_resid q = z_test (q_residual_void q) (q_n_tokens q) (opt_baseline o)
    /\ q_z_anom q = z_test (q_anomalous_void q) (q_n_tokens q) (opt_baseline o).
Proof.
  intros r Hs Hq. subst r.
  destruct (main_cases o names args stdin)
    as [(_ & Hs1 & _)|(vs & ps & _ & _ & H)]; [congruence|].
  cbv zeta in H. destruct H as (Hnz & _ & _ & _ & Hrec & _).
  pose proof (analyse_bounds vs ps tech_default (opt_window o)
                (input_files args stdin)) as Hb.
  cbv zeta in Hb. destruct Hb as (H1 & H2 & H3 & H4 & _).
  rewrite Hq in Hrec. eexists. split; [exact Hrec|].
  cbn [q_n_tokens q_total_void q_personality_void q_residual_void
       q_anomalous_void q_z_raw q_z_resid q_z_anom].
  assert (0 <= n_tokens (fst (analyse vs ps tech_default (opt_window o)
                                (input_files args stdin))))
    by (unfold n_tokens; lia).
  split_and!; try reflexivity; lia.
Qed.

Lemma quiet_record_is_consistent_witness :
  let r := main (mkOptions 1 0.03%float true false false None None)
                (""%string, ""%string) [] (cstr "void dark") in
  exists q, quiet_record r = Some q /\ 0 < q_n_tokens q.
Proof.
  cbv zeta.
  destruct (quiet_record_is_consistent
              (mkOptions 1 0.03%float true false false None None)
              (""%string, ""%string) [] (cstr "void dark"))
    as (q & Hq & Hn & _).
  - vm_compute. reflexivity.
  - reflexivity.
  - exists q. split; [exact Hq|exact Hn].
Defined.

(** ** Opening the inputs *)

Lemma open_inputs_files args n :
  0 <= n <= 256 ->
  snd (open_inputs args n) = take (Z.to_nat (256 - n)) (omap snd args).
Proof.
  revert n. induction args as [|[name f] args IH]; intros n Hn;
    cbn [open_inputs omap list_omap snd].
  - by rewrite take_nil.
  - destruct (Z.ltb_spec n 256).
    2:{ replace (Z.to_nat (256 - n)) with 0%nat by lia. by rewrite take_0. }
    destruct f as [bytes|]; cbn [snd].
    + specialize (IH (n + 1) ltac:(lia)).
      destruct (open_inputs args (n + 1)) as [d fs]. cbn [snd] in *.
      replace (Z.to_nat (256 - n)) with (S (Z.to_nat (256 - (n + 1)))) by lia.
      cbn [take]. by rewrite IH.
    + specialize (IH n ltac:(lia)).
      destruct (open_inputs args n) as [d fs]. cbn [snd] in *. done.
Qed.

Lemma open_inputs_all_diags args n :
  0 <= n -> n + Z.of_nat (length (omap snd args)) < 256 ->
  fst (open_inputs args n)
  = omap (fun a => match snd a with
                   | None => Some (DiagPerror (fst a))
                   | Some _ => None
                   end) args.
Proof.
  revert n. induction args as [|[name f] args IH]; intros n Hn Hlen;
    cbn [open_inputs omap list_omap fst snd] in *; [done|].
  destruct (Z.ltb_spec n 256); [|lia].
  destruct f as [bytes|]; cbn [fst length] in *.
  - specialize (IH (n + 1) ltac:(lia) ltac:(lia)).
    destruct (open_inputs args (n + 1)) as [d fs]. cbn [fst] in *. done.
  - specialize (IH n ltac:(lia) ltac:(lia)).
    destruct (open_inputs args n) as [d fs]. cbn [fst] in *. by rewrite IH.
Qed.

(** The streams that are read are the first 256 operands that can be
    opened, in the order of the command line; with fewer than 256 of them,
    every operand that cannot be opened gets its [perror] line, in order. *)
Theorem inputs_are_first_256_readable args :
  snd (open_inputs args 0) = take 256 (omap snd args)
  /\ (length (snd (open_inputs args 0)) <= 256)%nat
  /\ ((length (omap snd args) < 256)%nat ->
      fst (open_inputs args 0)
      = omap (fun a => match snd a with
                       | None => Some (DiagPerror (fst a))
                       | Some _ => None
                       end) args).
Proof.
  rewrite (open_inputs_files args 0) by lia.
  change (Z.to_nat (256 - 0)) with 256%nat.
  split_and!; [done|rewrite length_take; lia|].
  intros H. apply open_inputs_all_diags; lia.
Qed.

(** ** The size of a window *)

Lemma clamp_window_range n : 1 <= clamp_window n <= 100.
Proof.
  unfold clamp_window. destruct (Z.ltb_spec n 1).
  - change (1 >? 100) with false. cbv iota. lia.
  - destruct (Z.gtb_spec n 100); lia.
Qed.

Lemma length_inspected toks W i :
  0 <= W -> Z.of_nat (length (inspected toks W i)) <= 2 * W.
Proof.
  intros HW.
  assert (Hnd : NoDup (inspected toks W i)).
  { unfold inspected. apply NoDup_filter, NoDup_for_range. }
  assert (Hsub : inspected toks W i
                 ⊆+ for_range (Z.to_nat W) (i - W)
                    ++ for_range (Z.to_nat W) (i + 1)).
  { apply NoDup_submseteq; [done|]. intros j Hj.
    apply elem_of_inspected in Hj. apply elem_of_app.
    rewrite !elem_of_for_range. lia. }
  apply submseteq_length in Hsub.
  rewrite length_app, !length_for_range in Hsub. lia.
Qed.

(** With the radius clamped by the option parser, the scan of a hit reads at
    most 200 neighbours. *)
Theorem window_reads_at_most_200_tokens toks n i :
  1 <= clamp_window n <= 100
  /\ Z.of_nat (length (inspected toks (clamp_window n) i))
     <= 2 * clamp_window n <= 200.
Proof.
  pose proof (clamp_window_range n).
  pose proof (length_inspected toks (clamp_window n) i ltac:(lia)). lia.
Qed.

(** ** The hit listing *)

Lemma debug_hit_lines toks h :
  is_Some (toks !! Z.to_nat (token_idx h)) ->
  length (filter (fun l => is_hit_line l = true) (debug_hit toks h)) = 1%nat
  /\ forall m, DbgMore m ∉ debug_hit toks h.
Proof.
  intros [t Ht]. unfold debug_hit. rewrite Ht.
  destruct (personality_count h >? 0); destruct (technical_count h >? 0);
    (split; [reflexivity|]); intros m Hm;
    repeat (apply elem_of_cons in Hm as [Hm|Hm]; [discriminate Hm|]);
    by apply elem_of_nil in Hm.
Qed.

Lemma debug_hits_lines toks log :
  Forall (fun h => is_Some (toks !! Z.to_nat (token_idx h))) log ->
  length (filter (fun l => is_hit_line l = true)
                 (flat_map (debug_hit toks) log)) = length log
  /\ forall m, DbgMore m ∉ flat_map (debug_hit toks) log.
Proof.
  induction 1 as [|h log Hh Hlog [IH1 IH2]]; cbn [flat_map length].
  - split; [done|]. intros m Hm. by apply elem_of_nil in Hm.
  - destruct (debug_hit_lines toks h Hh) as [H1 H2].
    rewrite filter_app, length_app, H1, IH1. split; [done|].
    intros m Hm. apply elem_of_app in Hm as [Hm|Hm];
      [by apply (H2 m)|by apply (IH2 m)].
Qed.

Lemma debug_listing_lines toks log :
  Forall (fun h => is_Some (toks !! Z.to_nat (token_idx h))) log ->
  let nh := Z.of_nat (length log) in
  let lines := debug_listing toks true log in
  length (filter (fun l => is_hit_line l = true) lines)
  = Z.to_nat (Z.min nh 100)
  /\ (forall m, DbgMore m ∈ lines <-> 100 < nh /\ m = nh - 100)
  /\ (0 < nh -> head lines = Some (DbgHeader nh))
  /\ (nh = 0 -> lines = []).
Proof.
  intros Hlog nh lines. subst lines. unfold debug_listing. fold nh.
  cbn [andb]. destruct (Z.gtb_spec nh 0) as [Hpos|Hz].
  2:{ split_and!; [simpl; lia| |intros; lia|done].
      intros m. split; [intros Hm; by apply elem_of_nil in Hm|lia]. }
  set (show := if nh <? 100 then nh else 100).
  assert (Hshow : show = Z.min nh 100)
    by (unfold show; destruct (Z.ltb_spec nh 100); lia).
  destruct (debug_hits_lines toks (take (Z.to_nat show) log)
              (Forall_take _ _ _ Hlog)) as [H1 H2].
  split_and!; [| |done|lia].
  - cbn [app]. rewrite filter_cons_False by (simpl; discriminate).
    rewrite filter_app, length_app, H1, length_take.
    assert (length (filter (fun l => is_hit_line l = true)
                      (if nh >? 100 then [DbgMore (nh - 100)] else []))
            = 0%nat) as -> by (by destruct (nh >? 100)).
    subst nh. lia.
  - intros m. cbn [app]. rewrite elem_of_cons, elem_of_app. split.
    + intros [Hm|[Hm|Hm]]; [discriminate Hm|by destruct (H2 m)|].
      destruct (Z.gtb_spec nh 100).
      * apply list_elem_of_singleton in Hm. injection Hm as ->. lia.
      * by apply elem_of_nil in Hm.
    + intros [Hgt ->]. right; right.
      destruct (Z.gtb_spec nh 100); [|lia]. by apply list_elem_of_singleton.
Qed.

Lemma all_hits_valid tech toks W :
  Forall (fun h => is_Some (toks !! Z.to_nat (token_idx h)))
         (all_hits tech toks W).
Proof.
  unfold all_hits. apply Forall_forall. intros h Hh.
  apply list_elem_of_fmap in Hh as (i & -> & Hi).
  rewrite token_idx_hit_record. apply elem_of_void_indices in Hi.
  apply lookup_lt_is_Some_2. unfold ntok in Hi. lia.
Qed.

(** The [-d] listing of a run shows the first 100 logged hits at most, one
    [DbgHit] line each, under a header that gives the size of the log; the
    closing "more" line appears exactly when the log holds more than 100
    records and counts the rest of the log. *)
Theorem debug_listing_is_capped o names args stdin :
  let r := main o names args stdin in
  status r = 0 -> opt_quiet o = false -> opt_debug o = true ->
  exists ts cs,
    analysis r = Some (ts, cs)
    /\ length (filter (fun l => is_hit_line l = true) (debug_lines r))
       = Z.to_nat (Z.min (n_hits cs) 100)
    /\ (forall m, DbgMore m ∈ debug_lines r
                  <-> 100 < n_hits cs /\ m = n_hits cs - 100)
    /\ (0 < n_hits cs -> head (debug_lines r) = Some (DbgHeader (n_hits cs)))
    /\ (n_hits cs = 0 -> debug_lines r = []).
Proof.
  intros r Hs Hq Hd. subst r.
  destruct (main_cases o names args stdin)
    as [(_ & Hs1 & _)|(vs & ps & _ & _ & H)]; [congruence|].
  cbv zeta in H. destruct H as (_ & Ha & _ & _ & _ & Hl & _).
  pose proof (analyse_hits vs ps tech_default (opt_window o)
                           (input_files args stdin)) as Hh.
  cbv zeta in Hh.
  destruct (analyse vs ps tech_default (opt_window o) (input_files args stdin))
    as [ts cs].
  cbn [fst snd] in *. destruct Hh as [Hh _].
  exists ts, cs. split; [exact Ha|].
  rewrite Hq, Hd in Hl. rewrite Hl. unfold n_hits.
  apply debug_listing_lines. rewrite Hh. apply Forall_take, all_hits_valid.
Qed.

Lemma debug_listing_is_capped_witness :
  let r := main (mkOptions 1 0.03%float false true false None None)
                (""%string, ""%string) [] (cstr "void dark") in
  exists ts cs,
    analysis r = Some (ts, cs)
    /\ length (filter (fun l => is_hit_line l = true) (debug_lines r))
       = Z.to_nat (Z.min (n_hits cs) 100).
Proof.
  cbv zeta.
  destruct (debug_listing_is_capped
              (mkOptions 1 0.03%float false true false None None)
              (""%string, ""%string) [] (cstr "void dark"))
    as (ts & cs & Ha & Hn & _).
  - vm_compute. reflexivity.
  - reflexivity.
  - reflexivity.
  - exists ts, cs. split; [exact Ha|exact Hn].
Defined.

(** ** The order of the hit log *)

Lemma filter_for_range_sorted (P : Z -> Prop) `{!forall x, Decision (P x)} n a :
  StronglySorted Z.lt (filter P (for_range n a))
  /\ Forall (fun x => a <= x) (filter P (for_range n a)).
Proof.
  revert a. induction n as [|n IH]; intros a; cbn [for_range].
  - split; constructor.
  - destruct (IH (a + 1)) as [IH1 IH2].
    assert (H2 : Forall (fun x => a < x) (filter P (for_range n (a + 1)))).
    { eapply Forall_impl; [exact IH2|]. intros x Hx. simpl in Hx. lia. }
    rewrite filter_cons. destruct (decide (P a)).
    + split; [by constructor|]. constructor; [lia|].
      eapply Forall_impl; [exact H2|]. intros x Hx. simpl in Hx. lia.
    + split; [done|]. eapply Forall_impl; [exact H2|].
      intros x Hx. simpl in Hx. lia.
Qed.

Lemma StronglySorted_take {A} (R : A -> A -> Prop) k l :
  StronglySorted R l -> StronglySorted R (take k l).
Proof.
  revert k. induction l as [|x l IH]; intros k H; [by destruct k|].
  apply StronglySorted_inv in H as [H1 H2].
  destruct k; cbn [take]; constructor; [by apply IH|by apply Forall_take].
Qed.

(** The log lists the cluster-term tokens by increasing position: the token
    positions of its records are the first [MAX_HIT_LOG] positions that hold
    a cluster term, each one inside the corpus. *)
Theorem hit_log_is_in_corpus_order tech toks W np ps :
  let log := hits (classify_all tech toks W np ps) in
  map token_idx log = take (Z.to_nat MAX_HIT_LOG) (void_indices toks)
  /\ StronglySorted Z.lt (map token_idx log)
  /\ Forall (fun h => 0 <= token_idx h < ntok toks
                      /\ void_at toks (token_idx h) = true) log.
Proof.
  intros log.
  destruct (classify_all_spec tech toks W np ps) as (Hh & _).
  rewrite hits_upto_all in Hh. fold log in Hh.
  assert (E : map token_idx log
              = take (Z.to_nat MAX_HIT_LOG) (void_indices toks)).
  { rewrite Hh, <- (token_idx_all_hits tech toks W). symmetry.
    apply firstn_map. }
  split_and!; [done| |].
  - rewrite E. apply StronglySorted_take.
    apply (filter_for_range_sorted (fun i => void_at toks i = true)).
  - apply Forall_forall. intros h Hh'.
    assert (Hi : token_idx h ∈ void_indices toks).
    { assert (Hm : token_idx h ∈ map token_idx log)
        by (apply list_elem_of_fmap; by exists h).
      rewrite E in Hm. apply elem_of_take in Hm as (k & Hk & _).
      by eapply list_elem_of_lookup_2. }
    split; [by apply elem_of_void_indices|].
    unfold void_indices in Hi. by apply list_elem_of_filter in Hi as [? _].
Qed.

(** ** Paragraph ids and sections *)

Lemma para_step_cases c st :
  (tokens (para_step c st) = tokens st
   /\ cur_para_id (para_step c st) = cur_para_id st
   /\ paragraphs (para_step c st) = paragraphs st
   /\ n_paragraphs (para_step c st) = n_paragraphs st
   /\ para_start (para_step c st) = para_start st
   /\ wbuf (para_step c st) = wbuf st)
  \/ (tokens (para_step c st) = tokens st
      /\ cur_para_id (para_step c st) = cur_para_id st + 1
      /\ wbuf (para_step c st) = wbuf st
      /\ ((n_paragraphs st < MAX_PARAGRAPHS - 1
           /\ n_paragraphs (para_step c st) = n_paragraphs st + 1
           /\ paragraphs (para_step c st)
              = <[Z.to_nat (n_paragraphs st + 1) :=
                    set_start (n_tokens st) zero_paragraph]>
                  (alter (close_at (n_tokens st)) (Z.to_nat (n_paragraphs st))
                         (paragraphs st)))
          \/ (MAX_PARAGRAPHS - 1 <= n_paragraphs st
              /\ n_paragraphs (para_step c st) = n_paragraphs st
              /\ paragraphs (para_step c st)
                 = alter (close_at (n_tokens st)) (Z.to_nat (n_paragraphs st))
                         (paragraphs st)))).
Proof.
  unfold para_step. destruct (code c =? 10).
  2:{ left. by destruct (negb _). }
  destruct (_ && _); [|by left]. right.
  destruct (Z.ltb_spec (n_paragraphs st) (MAX_PARAGRAPHS - 1)); proj.
  - split_and!; [done..|]. left. done.
  - split_and!; [done..|]. right. done.
Qed.

Lemma section_inv_same st st' :
  section_inv st ->
  tokens st' = tokens st -> cur_para_id st' = cur_para_id st ->
  paragraphs st' = paragraphs st -> n_paragraphs st' = n_paragraphs st ->
  section_inv st'.
Proof. unfold section_inv. by intros H -> -> -> ->. Qed.

Lemma section_init : section_inv tok_init.
Proof.
  split; [reflexivity|]. intros i t H. by destruct i.
Qed.

Lemma para_step_section c st :
  tok_inv st -> section_inv st -> section_inv (para_step c st).
Proof.
  intros (Hlen & Hnp & Hps & _ & Hcur & _) HS.
  destruct (para_step_cases c st)
    as [(Et & Ec & Ep & En & _)|(Et & Ec & _ & Hcase)].
  { by eapply section_inv_same. }
  destruct HS as [HJ HK].
  set (n := n_tokens st) in *. set (np := n_paragraphs st) in *.
  set (ps := paragraphs st) in *. set (pid := cur_para_id st) in *.
  assert (Hnpl : (Z.to_nat np < length ps)%nat) by (rewrite Hlen; lia).
  unfold section_inv. rewrite Et, Ec.
  destruct Hcase as [(Hlt & -> & ->)|(Hge & -> & ->)].
  - assert (Hpid : np = pid) by (unfold MAX_PARAGRAPHS in *; lia).
    split; [unfold MAX_PARAGRAPHS in *; lia|].
    intros i t Hi. destruct (HK i t Hi) as (Hb & Hclosed & Hopen).
    assert (Hin : Z.of_nat i < n).
    { apply lookup_lt_Some in Hi. unfold n, n_tokens. lia. }
    split; [lia|]. split; [|lia].
    intros _. unfold in_section.
    rewrite para_at_insert by lia.
    rewrite decide_False by lia. rewrite para_at_alter by lia.
    destruct (decide (para_id t = np)) as [E|Hne].
    + rewrite decide_True by (split; [done|done]). proj.
      specialize (Hopen ltac:(lia)). lia.
    + rewrite decide_False by (intros [? _]; done).
      apply Hclosed. lia.
  - split; [unfold MAX_PARAGRAPHS in *; lia|].
    intros i t Hi. destruct (HK i t Hi) as (Hb & Hclosed & Hopen).
    split; [lia|]. split.
    + intros Hlt. unfold in_section. rewrite para_at_alter by lia.
      rewrite decide_False by lia. by apply Hclosed.
    + intros Hle. rewrite para_at_alter by lia.
      rewrite decide_True by (split; [done|done]). proj. by apply Hopen.
Qed.

Lemma flush_word_section vs ps st st' :
  tok_inv st -> section_inv st ->
  tokens st' = flush_word vs ps st -> cur_para_id st' = cur_para_id st ->
  paragraphs st' = paragraphs st -> n_paragraphs st' = n_paragraphs st ->
  section_inv st'.
Proof.
  intros (Hlen & Hnp & Hps & _ & Hcur & _) HS Et Ec Ep En.
  unfold flush_word in Et. destruct (accepts st).
  2:{ by eapply section_inv_same. }
  destruct HS as [HJ HK]. unfold section_inv. rewrite Et, Ec, Ep, En.
  split; [done|]. intros i t Hi.
  apply lookup_snoc_Some in Hi as [[_ Hi]|[-> <-]]; [by apply HK|].
  unfold make_token. cbn [para_id].
  split; [unfold MAX_PARAGRAPHS in *; lia|]. split; [lia|].
  intros _. unfold n_tokens in Hps. lia.
Qed.

Lemma char_step_section vs ps st c :
  tok_inv st -> section_inv st -> section_inv (char_step vs ps st c).
Proof.
  intros HT HS. unfold char_step.
  set (st1 := mkTokState _ _ _ _ _ _ _ _ _).
  assert (HT1 : tok_inv st1).
  { eapply tok_inv_weaken; [exact HT|done..|]. unfold st1, n_tokens; proj; lia. }
  assert (HS1 : section_inv st1) by (by eapply section_inv_same).
  pose proof (para_step_inv c st1 HT1) as HT2.
  pose proof (para_step_section c st1 HT1 HS1) as HS2.
  set (st2 := para_step c st1) in *. clearbody st2. clear - HT2 HS2.
  unfold word_step. destruct (is_word_char c).
  - by eapply section_inv_same.
  - destruct (wpos st2 >? 0); [|done].
    by eapply flush_word_section.
Qed.

Lemma read_file_section vs ps st f :
  tok_inv st -> section_inv st -> section_inv (read_file vs ps st f).
Proof.
  intros HT HS. unfold read_file.
  assert (H : forall s, tok_inv s -> section_inv s ->
                tok_inv (fold_left (char_step vs ps) f s)
                /\ section_inv (fold_left (char_step vs ps) f s)).
  { induction f as [|c f IH]; intros s Hs1 Hs2; [done|].
    rewrite fold_left_step.
    apply IH; [by apply char_step_inv|by apply char_step_section]. }
  destruct (H (open_file st)) as [H1 H2].
  { eapply tok_inv_weaken; [exact HT|done..|].
    unfold n_tokens, open_file; proj; lia. }
  { by eapply section_inv_same. }
  unfold flush_last. destruct (wpos _ >? 0); [|done].
  by eapply flush_word_section.
Qed.

Lemma read_files_section vs ps files st :
  tok_inv st -> section_inv st ->
  section_inv (fold_left (read_file vs ps) files st).
Proof.
  revert st. induction files as [|f files IH]; intros st HT HS; [done|].
  rewrite fold_left_step.
  apply IH; [by apply read_file_inv|by apply read_file_section].
Qed.

(** The paragraph id stored in a token is the index of the section that
    holds the token; ids from [MAX_PARAGRAPHS - 1] on share the last section
    of the table, which absorbs every later paragraph. *)
Theorem token_paragraph_id_is_its_section vs ps files (i : nat) t :
  let st := tokenize vs ps files in
  tokens st !! i = Some t ->
  let q := Z.min (para_id t) (MAX_PARAGRAPHS - 1) in
  0 <= q < n_paragraphs st
  /\ in_section (paragraphs st) q (Z.of_nat i).
Proof.
  intros st Hi q. subst st. unfold tokenize in *.
  pose proof (read_files_inv vs ps files _ tok_init_inv) as HT.
  pose proof (read_files_section vs ps files _ tok_init_inv section_init) as HS.
  set (st := fold_left _ _ _) in *.
  destruct HT as (Hlen & Hnp & Hps & _ & Hcur & _).
  destruct HS as [HJ HK].
  rewrite tokens_close_final in Hi.
  destruct (HK i t Hi) as (Hb & Hclosed & Hopen).
  assert (Hin : Z.of_nat i < n_tokens st).
  { apply lookup_lt_Some in Hi. unfold n_tokens. lia. }
  unfold close_final. set (n := n_tokens st) in *.
  set (np := n_paragraphs st) in *. set (pars := paragraphs st) in *.
  assert (Hnpl : (Z.to_nat np < length pars)%nat) by (rewrite Hlen; lia).
  assert (Hl : alter (close_at n) (Z.to_nat np) pars !! Z.to_nat np
               = Some (close_at n (para_at pars np))).
  { rewrite list_lookup_alter_eq. unfold para_at.
    destruct (lookup_lt_is_Some_2 pars _ Hnpl) as [x ->]. done. }
  rewrite Hl. proj. unfold in_section. rewrite para_at_alter by lia.
  destruct (Z.lt_ge_cases (para_id t) np) as [Hlt|Hge].
  - assert (Hq : q = para_id t) by (unfold q, MAX_PARAGRAPHS in *; lia).
    rewrite Hq. rewrite decide_False by lia.
    split; [|by apply Hclosed].
    destruct (_ >? 0); lia.
  - assert (Hq : q = np) by (unfold q, MAX_PARAGRAPHS in *; lia).
    rewrite Hq. rewrite decide_True by (split; [done|done]). proj.
    specialize (Hopen Hge).
    destruct (Z.gtb_spec (n - start_token (para_at pars np)) 0); lia.
Qed.

Lemma token_paragraph_id_is_its_section_witness :
  0 <= Z.min (para_id (mkToken (cstr "cd") false false 1 5))
             (MAX_PARAGRAPHS - 1)
    < n_paragraphs (tokenize hs_init hs_init [cstr "ab

cd"])
  /\ in_section (paragraphs (tokenize hs_init hs_init [cstr "ab

cd"]))
       (Z.min (para_id (mkToken (cstr "cd") false false 1 5))
              (MAX_PARAGRAPHS - 1))
       (Z.of_nat 1).
Proof.
  apply (token_paragraph_id_is_its_section hs_init hs_init [cstr "ab

cd"] 1).
  vm_compute. reflexivity.
Defined.

(** ** Where sections end *)

Lemma has_blank_line_app s s' : has_blank_line s -> has_blank_line (s ++ s').
Proof.
  intros (a & crs & b & l1 & l2 & -> & H1 & H2 & Hc).
  exists a, crs, (b ++ s'), l1, l2. split; [|done].
  rewrite <- !app_assoc. cbn [app]. rewrite <- app_assoc. done.
Qed.

Lemma word_step_keeps vs ps c st :
  cur_para_id (word_step vs ps c st) = cur_para_id st
  /\ n_paragraphs (word_step vs ps c st) = n_paragraphs st
  /\ newline_count (word_step vs ps c st) = newline_count st.
Proof.
  unfold word_step. destruct (is_word_char c); [done|].
  by destruct (wpos st >? 0).
Qed.

Lemma char_step_one_section vs ps h st c :
  ~ has_blank_line (h ++ [c]) ->
  one_section_inv h st -> one_section_inv (h ++ [c]) (char_step vs ps st c).
Proof.
  intros Hno (Hpid & Hnp & Hnc & Hpend). unfold char_step.
  set (st1 := mkTokState _ _ _ _ _ _ _ _ _).
  unfold one_section_inv.
  destruct (word_step_keeps vs ps c (para_step c st1)) as (-> & -> & ->).
  unfold para_step. unfold st1 at 1 2 3. proj.
  destruct (Z.eqb_spec (code c) 10) as [E10|N10].
  - destruct (Z.eq_dec (newline_count st) 1) as [E1|N1].
    { destruct Hno. destruct (Hpend E1) as (a & l & crs & -> & Hl & Hcrs).
      exists a, crs, [], l, c. split; [|done].
      rewrite <- app_assoc. done. }
    assert (E0 : newline_count st = 0) by lia.
    unfold st1. proj. rewrite E0. change (0 + 1 >=? 2) with false.
    cbn [andb]. proj. split_and!; [done|done|lia|lia|].
    intros _. exists h, c, []. split; [done|]. split; [done|constructor].
  - destruct (Z.eqb_spec (code c) 13) as [E13|N13]; cbn [negb]; unfold st1; proj.
    + split_and!; [done|done|lia|lia|].
      intros E1. destruct (Hpend E1) as (a & l & crs & -> & Hl & Hcrs).
      exists a, l, (crs ++ [c]). split; [by rewrite <- app_assoc|].
      split; [done|]. apply Forall_app. split; [done|]. by constructor.
    + split_and!; [done|done|lia|lia|]. intros ?. lia.
Qed.

Lemma fold_char_step_one_section vs ps f :
  forall h st,
    ~ has_blank_line (h ++ f) ->
    one_section_inv h st ->
    one_section_inv (h ++ f) (fold_left (char_step vs ps) f st).
Proof.
  induction f as [|c f IH]; intros h st Hno Hinv.
  - by rewrite app_nil_r.
  - rewrite fold_left_step, cons_middle, app_assoc. apply IH.
    + by rewrite <- app_assoc, <- cons_middle.
    + apply char_step_one_section; [|done].
      intros Hb. apply Hno. rewrite cons_middle, app_assoc.
      by apply has_blank_line_app.
Qed.

Lemma one_section_inv_same h st st' :
  one_section_inv h st ->
  cur_para_id st' = cur_para_id st -> n_paragraphs st' = n_paragraphs st ->
  newline_count st' = newline_count st ->
  one_section_inv h st'.
Proof. unfold one_section_inv. by intros H -> -> ->. Qed.

Lemma read_file_one_section vs ps f h st :
  ~ has_blank_line (h ++ f) ->
  one_section_inv h st ->
  one_section_inv (h ++ f) (read_file vs ps st f).
Proof.
  intros Hno Hinv. unfold read_file.
  assert (H : one_section_inv (h ++ f)
                (fold_left (char_step vs ps) f (open_file st))).
  { apply fold_char_step_one_section; [done|].
    by eapply one_section_inv_same. }
  unfold flush_last. destruct (wpos _ >? 0); [|done].
  by eapply one_section_inv_same.
Qed.

Lemma read_files_one_section vs ps files :
  forall h st,
    ~ has_blank_line (h ++ concat files) ->
    one_section_inv h st ->
    one_section_inv (h ++ concat files)
                    (fold_left (read_file vs ps) files st).
Proof.
  induction files as [|f files IH]; intros h st Hno Hinv.
  - cbn [concat]. by rewrite app_nil_r.
  - rewrite fold_left_step, concat_cons, app_assoc. apply IH.
    + by rewrite <- app_assoc, <- concat_cons.
    + apply read_file_one_section; [|done].
      intros Hb. apply Hno. rewrite concat_cons, app_assoc.
      by apply has_blank_line_app.
Qed.

(** Sections end at blank lines only: when the input streams, read one
    after the other, hold no two line feeds separated by nothing but
    carriage returns, all tokens have paragraph id 0 and there is at most one
    section. *)
Theorem no_blank_line_one_section vs ps files :
  ~ has_blank_line (concat files) ->
  n_paragraphs (tokenize vs ps files) <= 1
  /\ Forall (fun t => para_id t = 0) (tokens (tokenize vs ps files)).
Proof.
  intros Hno.
  destruct (tokenize_tokens_inv vs ps files) as (_ & _ & _ & _ & _ & Hpid & _).
  unfold tokenize in *.
  destruct (read_files_one_section vs ps files [] tok_init Hno)
    as (Ep & En & _).
  { split_and!; [done|done|done|done|]. intros H. discriminate H. }
  set (st := fold_left _ _ _) in *. split.
  - unfold close_final. proj. rewrite En.
    destruct (_ !! _) as [p|]; [|lia]. destruct (_ >? 0); lia.
  - eapply Forall_impl; [exact Hpid|]. intros t Ht.
    unfold close_final in Ht. proj. simpl in Ht. lia.
Qed.

Lemma no_blank_line_one_section_witness :
  n_paragraphs (tokenize hs_init hs_init [cstr "ab"]) <= 1
  /\ Forall (fun t => para_id t = 0)
            (tokens (tokenize hs_init hs_init [cstr "ab"])).
Proof.
  apply (no_blank_line_one_section hs_init hs_init [cstr "ab"]).
  intros (a & crs & b & l1 & l2 & E & H1 & H2 & _).
  destruct a as [|x [|y a]]; cbn in E.
  - injection E as <- E. vm_compute in H1. discriminate H1.
  - injection E as _ <- E. vm_compute in H1. discriminate H1.
  - injection E as _ _ E. by destruct a.
Defined.

(** ** A blank line between two words *)

Lemma not_word_char_of_code c :
  code c = 10 \/ code c = 13 -> is_word_char c = false.
Proof.
  intros H. destruct (is_word_char c) eqn:E; [|done].
  destruct (word_char_not_newline c E) as [H10 H13].
  apply Z.eqb_neq in H10, H13. lia.
Qed.

Lemma flush_accepted vs ps st r :
  wbuf st = [] ->
  (2 <= length r)%nat ->
  match r with c :: _ => isalpha c | [] => false end = true ->
  n_tokens st < MAX_TOKENS ->
  let w := lowercase (take (Z.to_nat (MAX_WORD_LEN - 1)) r) in
  flush_word vs ps (after_word st r)
  = tokens st
    ++ [mkToken w (hs_contains vs w) (hs_contains ps w) (cur_para_id st)
                (byte_pos st + 1)].
Proof.
  intros Hb Hlen Hfirst Hroom w.
  pose proof (flush_after_word vs ps st r Hb) as E. cbn zeta in E.
  rewrite E. clear E. fold w. rewrite Hfirst.
  assert (Hw : (Z.of_nat (length w) >=? 2) = true).
  { apply Z.geb_le. unfold w. rewrite lowercase_length, length_take.
    change (Z.to_nat (MAX_WORD_LEN - 1)) with 63%nat. lia. }
  rewrite Hw. apply Z.ltb_lt in Hroom. rewrite Hroom. cbn [andb].
  destruct r; [simpl in Hlen; lia|]. reflexivity.
Qed.

Lemma char_step_gap vs ps st c :
  is_word_char c = false -> wbuf st = [] ->
  char_step vs ps st c
  = para_step c (mkTokState (tokens st) (cur_para_id st) (newline_count st)
                            (para_start st) (paragraphs st) (n_paragraphs st)
                            (wbuf st) (byte_pos st + 1) (word_start st)).
Proof.
  intros Hc Hb. unfold char_step. set (st1 := mkTokState _ _ _ _ _ _ _ _ _).
  unfold word_step. rewrite Hc.
  destruct (para_step_tokens c st1) as (_ & Ew & _).
  unfold wpos. rewrite Ew. unfold st1. proj. rewrite Hb. reflexivity.
Qed.

Lemma fold_crs vs ps crs :
  forall st,
    wbuf st = [] -> Forall (fun c => code c = 13) crs ->
    fold_left (char_step vs ps) crs st
    = mkTokState (tokens st) (cur_para_id st) (newline_count st)
                 (para_start st) (paragraphs st) (n_paragraphs st) []
                 (byte_pos st + Z.of_nat (length crs)) (word_start st).
Proof.
  induction crs as [|c crs IH]; intros st Hb Hcrs.
  - destruct st. cbn in Hb. subst. cbn [fold_left length]. proj.
    by rewrite Z.add_0_r.
  - apply Forall_cons in Hcrs as [Hc Hcrs]. rewrite fold_left_step.
    rewrite char_step_gap by (done || apply not_word_char_of_code; by right).
    unfold para_step. proj.
    replace (code c =? 10) with false by (symmetry; apply Z.eqb_neq; lia).
    replace (code c =? 13) with true by (symmetry; apply Z.eqb_eq; lia).
    cbn [negb]. rewrite IH by done. proj.
    f_equal. cbn [length]. lia.
Qed.

Lemma blank_line_step vs ps st c :
  code c = 10 -> wbuf st = [] -> newline_count st = 1 ->
  para_start st < n_tokens st -> n_paragraphs st < MAX_PARAGRAPHS - 1 ->
  char_step vs ps st c
  = mkTokState (tokens st) (cur_para_id st + 1) 0 (n_tokens st)
      (<[Z.to_nat (n_paragraphs st + 1) :=
           set_start (n_tokens st) zero_paragraph]>
         (alter (close_at (n_tokens st)) (Z.to_nat (n_paragraphs st))
                (paragraphs st)))
      (n_paragraphs st + 1) [] (byte_pos st + 1) (word_start st).
Proof.
  intros Hc Hb Hnc Hps Hnp.
  rewrite char_step_gap by (done || apply not_word_char_of_code; by left).
  unfold para_step, n_tokens. proj. fold (n_tokens st).
  replace (code c =? 10) with true by (symmetry; apply Z.eqb_eq; lia).
  rewrite Hnc. change (1 + 1 >=? 2) with true.
  replace (n_tokens st >? para_start st) with true
    by (symmetry; apply Z.gtb_lt; lia).
  cbn [andb].
  replace (n_paragraphs st <? MAX_PARAGRAPHS - 1) with true
    by (symmetry; apply Z.ltb_lt; lia).
  by rewrite Hb.
Qed.

(** Two words separated by a blank line -- two line feeds with only carriage
    returns between them -- are the tokens 0 and 1 of two sections: the
    second token gets paragraph id 1 and the section table has two
    entries. *)
Theorem blank_line_starts_new_section vs ps r1 crs r2 :
  Forall (fun c => is_word_char c = true) r1 ->
  Forall (fun c => is_word_char c = true) r2 ->
  (2 <= length r1)%nat -> (2 <= length r2)%nat ->
  match r1 with c :: _ => isalpha c | [] => false end = true ->
  match r2 with c :: _ => isalpha c | [] => false end = true ->
  Forall (fun c => code c = 13) crs ->
  let st := tokenize vs ps [r1 ++ "010"%char :: crs ++ "010"%char :: r2] in
  map para_id (tokens st) = [0; 1]
  /\ map word (tokens st)
     = [lowercase (take (Z.to_nat (MAX_WORD_LEN - 1)) r1);
        lowercase (take (Z.to_nat (MAX_WORD_LEN - 1)) r2)]
  /\ n_paragraphs st = 2.
Proof.
  intros Hr1 Hr2 Hl1 Hl2 Ha1 Ha2 Hcrs st. subst st. unfold tokenize.
  set (input := r1 ++ _).
  pose proof (read_files_inv vs ps [input] _ tok_init_inv) as HT.
  pose proof (read_files_section vs ps [input] _ tok_init_inv section_init)
    as HS.
  set (X := fold_left (read_file vs ps) [input] tok_init) in *.
  assert (EX : exists t1 t2,
             tokens X = [t1; t2] /\ cur_para_id X = 1
             /\ para_id t1 = 0 /\ para_id t2 = 1
             /\ word t1 = lowercase (take (Z.to_nat (MAX_WORD_LEN - 1)) r1)
             /\ word t2 = lowercase (take (Z.to_nat (MAX_WORD_LEN - 1)) r2)).
  { unfold X. rewrite fold_left_step.
    change (fold_left (read_file vs ps) [] ?x) with x.
    unfold read_file, input.
    replace (r1 ++ "010"%char :: crs ++ "010"%char :: r2)
      with ((r1 ++ ["010"%char]) ++ crs ++ ["010"%char] ++ r2)
      by (rewrite <- app_assoc; reflexivity).
    rewrite (fold_left_app _ (r1 ++ ["010"%char])), (fold_left_app _ crs),
      (fold_left_app _ ["010"%char]).
    rewrite (read_word vs ps (open_file tok_init) r1 "010"%char eq_refl)
      by (done || (intros ->; simpl in Hl1; lia)).
    rewrite (flush_accepted vs ps (open_file tok_init) r1 eq_refl Hl1 Ha1)
      by reflexivity.
    change (code "010" =? 10) with true. cbv iota.
    rewrite (fold_crs vs ps crs); [|reflexivity|exact Hcrs]. proj.
    cbn [fold_left].
    rewrite blank_line_step; [|reflexivity|reflexivity|reflexivity
                              |reflexivity|reflexivity].
    proj.
    rewrite (fold_word_chars vs ps r2) by (done || (proj; simpl; lia)).
    unfold flush_last.
    assert (Hw : forall s, wbuf s = [] -> (wpos (after_word s r2) >? 0) = true).
    { intros s Hs. apply Z.gtb_lt. unfold wpos, after_word. proj.
      rewrite Hs, app_nil_l, length_take.
      change (Z.to_nat (MAX_WORD_LEN - 1)) with 63%nat. lia. }
    rewrite Hw by reflexivity. proj.
    rewrite flush_accepted; [|reflexivity|done|done|reflexivity].
    proj. do 2 eexists. split; [reflexivity|]. split_and!; reflexivity. }
  destruct EX as (t1 & t2 & Et & Ep & Ep1 & Ep2 & Ew1 & Ew2).
  rewrite tokens_close_final, Et. cbn [map]. rewrite Ep1, Ep2, Ew1, Ew2.
  split; [done|]. split; [done|].
  destruct HT as (Hlen & Hnp & _).
  destruct HS as [HJ HK].
  destruct (HK 1%nat t2) as (_ & _ & Hopen); [by rewrite Et|].
  assert (En : n_paragraphs X = 1)
    by (rewrite HJ, Ep; unfold MAX_PARAGRAPHS; lia).
  assert (Hn : n_tokens X = 2) by (unfold n_tokens; by rewrite Et).
  unfold close_final. proj. rewrite En, Hn in *.
  assert (Hnpl : (Z.to_nat 1 < length (paragraphs X))%nat)
    by (rewrite Hlen; unfold MAX_PARAGRAPHS; lia).
  rewrite list_lookup_alter_eq.
  destruct (lookup_lt_is_Some_2 (paragraphs X) _ Hnpl) as [x Ex].
  rewrite Ex. cbn [fmap option_fmap option_map]. proj.
  unfold para_at in Hopen. rewrite Ex in Hopen. cbn [default] in Hopen.
  specialize (Hopen ltac:(lia)). simpl in Hopen.
  destruct (Z.gtb_spec (2 - start_token x) 0); lia.
Qed.

Lemma blank_line_starts_new_section_witness :
  let st := tokenize hs_init hs_init
              [cstr "ab" ++ "010"%char :: [] ++ "010"%char :: cstr "cd"] in
  map para_id (tokens st) = [0; 1]
  /\ map word (tokens st)
     = [lowercase (take (Z.to_nat (MAX_WORD_LEN - 1)) (cstr "ab"));
        lowercase (take (Z.to_nat (MAX_WORD_LEN - 1)) (cstr "cd"))]
  /\ n_paragraphs st = 2.
Proof.
  apply (blank_line_starts_new_section hs_init hs_init (cstr "ab") []
           (cstr "cd")).
  - repeat constructor.
  - repeat constructor.
  - simpl. lia.
  - simpl. lia.
  - reflexivity.
  - reflexivity.
  - constructor.
Defined.

(** ** The counters of one section *)

Lemma same_ranges_para_at ps ps' p :
  same_ranges ps ps' ->
  start_token (para_at ps' p) = start_token (para_at ps p)
  /\ end_token (para_at ps' p) = end_token (para_at ps p).
Proof.
  intros H. unfold para_at.
  destruct (ps !! Z.to_nat p) as [a|] eqn:E.
  - destruct (Forall2_lookup_l _ _ _ _ _ H E) as (b & Hb & Hs & He).
    rewrite Hb. simpl. split; congruence.
  - apply lookup_ge_None in E. rewrite (Forall2_length _ _ _ H) in E.
    rewrite (lookup_ge_None_2 ps') by done. done.
Qed.

Lemma in_sectionb_same ps ps' p i :
  same_ranges ps ps' -> in_sectionb ps' p i = in_sectionb ps p i.
Proof.
  intros H. unfold in_sectionb.
  destruct (same_ranges_para_at ps ps' p H) as [-> ->]. done.
Qed.

Lemma in_sectionb_true ps p i :
  in_sectionb ps p i = true <-> in_section ps p i.
Proof.
  unfold in_sectionb, in_section.
  rewrite andb_true_iff, Z.leb_le, Z.ltb_lt. done.
Qed.

(** What the search loop does to a field of section [p]: the field of the
    one section that holds token [i] moves by [d], the others stay. *)
Lemma update_paragraph_at g d np n i f ps0 ps p :
  partitions ps0 np n -> (Z.to_nat np <= length ps0)%nat ->
  same_ranges ps0 ps -> 0 <= i < n -> 0 <= p < np ->
  (forall pp, g (f pp) = g pp + d) ->
  g (para_at (update_paragraph np i f ps) p)
  = g (para_at ps p) + (if in_sectionb ps0 p i then d else 0).
Proof.
  intros Hpart Hlen Hr Hi Hp Hg.
  destruct (partitions_find _ _ _ i Hpart Hi) as (p' & Hp' & Hin').
  destruct (update_paragraph_cases np i f ps)
    as [[_ Hn]|(q & pp & Hq & Hl & Hrng & ->)].
  - exfalso.
    assert (Hc : covered ps np i).
    { eapply covered_same_ranges; [exact Hr|]. by eapply in_section_covered. }
    destruct Hc as (q0 & pp0 & Hq0 & Hl0 & Hr0). by apply (Hn q0 pp0).
  - assert (Hq' : in_section ps0 (Z.of_nat q) i).
    { apply in_sectionb_true. rewrite <- (in_sectionb_same _ _ _ _ Hr).
      apply in_sectionb_true. unfold in_section, para_at.
      rewrite Nat2Z.id, Hl. done. }
    assert (Hpq : para_at ps (Z.of_nat q) = pp)
      by (unfold para_at; by rewrite Nat2Z.id, Hl).
    rewrite <- (Nat2Z.id q) at 1. rewrite para_at_insert by lia.
    case_decide as Hd.
    + destruct Hd as [-> _].
      rewrite (proj2 (in_sectionb_true _ _ _) Hq'), Hpq. apply Hg.
    + destruct (in_sectionb ps0 p i) eqn:E; [|lia].
      exfalso. apply Hd. split.
      * eapply partitions_unique; [exact Hpart|lia|lia| |exact Hq'].
        by apply in_sectionb_true.
      * rewrite Nat2Z.id. eapply lookup_lt_Some. exact Hl.
Qed.

Lemma update_paragraph_keeps (g : Paragraph -> Z) np n i f ps0 ps p :
  partitions ps0 np n -> (Z.to_nat np <= length ps0)%nat ->
  same_ranges ps0 ps -> 0 <= i < n -> 0 <= p < np ->
  (forall pp, g (f pp) = g pp) ->
  g (para_at (update_paragraph np i f ps) p) = g (para_at ps p).
Proof.
  intros Hpart Hlen Hr Hi Hp Hg.
  rewrite (update_paragraph_at g 0 np n i f ps0 ps p); try done.
  - destruct (in_sectionb ps0 p i); lia.
  - intros pp. rewrite Hg. lia.
Qed.

Lemma count_where_app f l1 l2 :
  count_where f (l1 ++ l2) = count_where f l1 + count_where f l2.
Proof. unfold count_where. by rewrite map_app, zsum_app. Qed.

Lemma section_count_0 ps p f : section_count ps p f 0 = 0.
Proof. reflexivity. Qed.

Lemma section_count_S ps p f (k : nat) :
  section_count ps p f (S k)
  = section_count ps p f k
    + b2z (in_sectionb ps p (Z.of_nat k) && f (Z.of_nat k)).
Proof.
  unfold section_count. rewrite for_range_snoc, count_where_app, Z.add_0_l.
  rewrite count_where_cons.
  change (count_where (fun i => in_sectionb ps p i && f i) []) with 0. lia.
Qed.

Lemma section_count_same ps ps' p f n :
  same_ranges ps ps' -> section_count ps' p f n = section_count ps p f n.
Proof.
  intros H. induction n as [|n IH]; [done|].
  by rewrite !section_count_S, IH, (in_sectionb_same _ _ _ _ H).
Qed.

Lemma void_at_lookup toks (k : nat) t :
  toks !! k = Some t -> void_at toks (Z.of_nat k) = is_void t.
Proof. intros H. unfold void_at. by rewrite Nat2Z.id, H. Qed.

Lemma label_at_scan tech toks W i pc tc :
  scan_window tech toks W i = (pc, tc) ->
  label_at tech toks W i = classify pc tc.
Proof. intros H. unfold label_at, hit_record. by rewrite H. Qed.

(** The section counters after [k] iterations of the classification loop. *)
Lemma classify_prefix_section tech toks W np ps0 (k : nat) :
  partitions ps0 np (ntok toks) -> (Z.to_nat np <= length ps0)%nat ->
  (k <= length toks)%nat ->
  let ps := c_paragraphs (fold_left (classify_step tech toks W np)
                                    (for_range k 0) (cls_init ps0)) in
  same_ranges ps0 ps
  /\ forall p, 0 <= p < np ->
       void_hits (para_at ps p)
       = void_hits (para_at ps0 p) + section_count ps0 p (void_at toks) k
       /\ personality_void (para_at ps p)
          = personality_void (para_at ps0 p)
            + section_count ps0 p (personality_hit_at tech toks W) k
       /\ residual_void (para_at ps p)
          = residual_void (para_at ps0 p)
            + section_count ps0 p (residual_hit_at tech toks W) k
       /\ personality_hits (para_at ps p) = personality_hits (para_at ps0 p)
       /\ technical_hits (para_at ps p) = technical_hits (para_at ps0 p)
       /\ total_tokens (para_at ps p) = total_tokens (para_at ps0 p).
Proof.
  intros Hpart Hlen. induction k as [|k IH]; intros Hk.
  - cbn zeta. cbn [for_range fold_left cls_init c_paragraphs].
    split; [apply same_ranges_refl|]. intros p Hp.
    rewrite !section_count_0. split_and!; lia.
  - destruct (IH ltac:(lia)) as [Hr Hf]. clear IH. cbn zeta in *.
    rewrite for_range_snoc, fold_left_app. cbn [fold_left].
    rewrite Z.add_0_l.
    set (cs := fold_left _ _ _) in *.
    destruct (lookup_lt_is_Some_2 toks k ltac:(lia)) as [t Et].
    unfold classify_step. rewrite Nat2Z.id, Et.
    pose proof (void_at_lookup toks k t Et) as Hv.
    destruct (is_void t) eqn:Evoid; cbn [negb].
    + destruct (scan_window tech toks W (Z.of_nat k)) as [pc tc] eqn:Esw.
      rewrite classify_counts_label. cbn [c_paragraphs].
      pose proof (label_at_scan _ _ _ _ _ _ Esw) as Hlab.
      assert (Hi : 0 <= Z.of_nat k < ntok toks) by (unfold ntok; lia).
      split.
      { eapply same_ranges_trans; [exact Hr|].
        apply update_paragraph_ranges, keeps_range_bump. }
      intros p Hp. destruct (Hf p Hp) as (H1 & H2 & H3 & H4 & H5 & H6).
      rewrite !section_count_S.
      assert (E1 : personality_hit_at tech toks W (Z.of_nat k)
                   = Ascii.eqb (classify pc tc) "P")
        by (unfold personality_hit_at; by rewrite Hv, Hlab).
      assert (E2 : residual_hit_at tech toks W (Z.of_nat k)
                   = negb (Ascii.eqb (classify pc tc) "P"))
        by (unfold residual_hit_at; by rewrite Hv, Hlab).
      rewrite E1, E2, Hv.
      rewrite (update_paragraph_at void_hits 1 np (ntok toks) _ _ ps0)
        by (done || apply bump_void_hits).
      rewrite (update_paragraph_at personality_void
                 (b2z (Ascii.eqb (classify pc tc) "P")) np (ntok toks) _ _ ps0)
        by (done || apply bump_personality_void).
      rewrite (update_paragraph_at residual_void
                 (b2z (negb (Ascii.eqb (classify pc tc) "P"))) np (ntok toks) _ _ ps0)
        by (done || apply bump_residual_void).
      rewrite (update_paragraph_keeps personality_hits np (ntok toks) _ _ ps0)
        by (done || (intros pp; unfold bump; by destruct (Ascii.eqb _ _))).
      rewrite (update_paragraph_keeps technical_hits np (ntok toks) _ _ ps0)
        by (done || (intros pp; unfold bump; by destruct (Ascii.eqb _ _))).
      rewrite (update_paragraph_keeps total_tokens np (ntok toks) _ _ ps0)
        by (done || (intros pp; unfold bump; by destruct (Ascii.eqb _ _))).
      destruct (in_sectionb ps0 p (Z.of_nat k));
        destruct (Ascii.eqb (classify pc tc) "P");
        cbn [andb negb b2z]; split_and!; lia.
    + cbn [c_paragraphs]. split; [exact Hr|].
      intros p Hp. destruct (Hf p Hp) as (H1 & H2 & H3 & H4 & H5 & H6).
      rewrite !section_count_S.
      assert (E1 : personality_hit_at tech toks W (Z.of_nat k) = false)
        by (unfold personality_hit_at; by rewrite Hv).
      assert (E2 : residual_hit_at tech toks W (Z.of_nat k) = false)
        by (unfold residual_hit_at; by rewrite Hv).
      rewrite E1, E2, Hv, !andb_false_r. cbn [b2z].
      split_and!; lia.
Qed.

(** The section counters after [k] iterations of the marker count. *)
Lemma count_markers_section tech toks np ps0 ps1 (k : nat) :
  partitions ps0 np (ntok toks) -> (Z.to_nat np <= length ps0)%nat ->
  same_ranges ps0 ps1 ->
  (k <= length toks)%nat ->
  let ps :=
    fold_left
      (fun ps i =>
         match toks !! Z.to_nat i with
         | Some t => update_paragraph np i (bump_markers tech t) ps
         | None => ps
         end) (for_range k 0) ps1 in
  same_ranges ps0 ps
  /\ forall p, 0 <= p < np ->
       personality_hits (para_at ps p)
       = personality_hits (para_at ps1 p)
         + section_count ps0 p (personality_at toks) k
       /\ technical_hits (para_at ps p)
          = technical_hits (para_at ps1 p)
            + section_count ps0 p (technical_at tech toks) k
       /\ void_hits (para_at ps p) = void_hits (para_at ps1 p)
       /\ personality_void (para_at ps p) = personality_void (para_at ps1 p)
       /\ residual_void (para_at ps p) = residual_void (para_at ps1 p)
       /\ total_tokens (para_at ps p) = total_tokens (para_at ps1 p).
Proof.
  intros Hpart Hlen Hr1. induction k as [|k IH]; intros Hk.
  - cbn zeta. cbn [for_range fold_left].
    split; [exact Hr1|]. intros p Hp.
    rewrite !section_count_0. split_and!; lia.
  - destruct (IH ltac:(lia)) as [Hr Hf]. clear IH. cbn zeta in *.
    rewrite for_range_snoc, fold_left_app. cbn [fold_left].
    rewrite Z.add_0_l.
    set (ps := fold_left _ _ _) in *.
    destruct (lookup_lt_is_Some_2 toks k ltac:(lia)) as [t Et].
    rewrite Nat2Z.id, Et.
    assert (Hi : 0 <= Z.of_nat k < ntok toks) by (unfold ntok; lia).
    split.
    { eapply same_ranges_trans; [exact Hr|].
      apply update_paragraph_ranges, keeps_range_bump_markers. }
    intros p Hp. destruct (Hf p Hp) as (H1 & H2 & H3 & H4 & H5 & H6).
    rewrite !section_count_S.
    assert (E1 : personality_at toks (Z.of_nat k) = is_personality t)
      by (unfold personality_at; by rewrite Nat2Z.id, Et).
    assert (E2 : technical_at tech toks (Z.of_nat k)
                 = hs_contains tech (word t))
      by (unfold technical_at; by rewrite Nat2Z.id, Et).
    rewrite E1, E2.
    rewrite (update_paragraph_at personality_hits (b2z (is_personality t))
               np (ntok toks) _ _ ps0) by (done || by intros pp).
    rewrite (update_paragraph_at technical_hits
               (b2z (hs_contains tech (word t))) np (ntok toks) _ _ ps0)
      by (done || by intros pp).
    rewrite (update_paragraph_keeps void_hits np (ntok toks) _ _ ps0)
      by (done || by intros pp).
    rewrite (update_paragraph_keeps personality_void np (ntok toks) _ _ ps0)
      by (done || by intros pp).
    rewrite (update_paragraph_keeps residual_void np (ntok toks) _ _ ps0)
      by (done || by intros pp).
    rewrite (update_paragraph_keeps total_tokens np (ntok toks) _ _ ps0)
      by (done || by intros pp).
    destruct (in_sectionb ps0 p (Z.of_nat k)); cbn [andb b2z];
      split_and!; lia.
Qed.

(** The counters of section [p] at the end of the analysis. *)
Lemma analyse_sections vs ps tech W files p :
  let ts := fst (analyse vs ps tech W files) in
  let cs := snd (analyse vs ps tech W files) in
  let toks := tokens ts in
  let n := length toks in
  let pp := para_at (c_paragraphs cs) p in
  0 <= p < n_paragraphs ts ->
  start_token pp = start_token (para_at (paragraphs ts) p)
  /\ end_token pp = end_token (para_at (paragraphs ts) p)
  /\ total_tokens pp = end_token pp - start_token pp
  /\ 0 < total_tokens pp
  /\ void_hits pp = section_count (paragraphs ts) p (void_at toks) n
  /\ personality_void pp
     = section_count (paragraphs ts) p (personality_hit_at tech toks W) n
  /\ residual_void pp
     = section_count (paragraphs ts) p (residual_hit_at tech toks W) n
  /\ personality_hits pp
     = section_count (paragraphs ts) p (personality_at toks) n
  /\ technical_hits pp
     = section_count (paragraphs ts) p (technical_at tech toks) n.
Proof.
  intros ts cs toks n pp Hp.
  unfold analyse in ts, cs. cbn [fst snd] in ts, cs.
  subst pp cs n. cbn [c_paragraphs]. fold ts. fold toks.
  set (np := n_paragraphs ts) in *. unfold count_markers, classify_all.
  destruct (tokenize_partitions vs ps files) as (Hlen & Hnp & Hpart & Hclean).
  fold ts in Hlen, Hnp, Hpart, Hclean. fold np in Hnp, Hpart.
  assert (Hle : (Z.to_nat np <= length (paragraphs ts))%nat)
    by (rewrite Hlen; unfold MAX_PARAGRAPHS in *; lia).
  change (n_tokens ts) with (ntok toks) in Hpart.
  destruct (classify_prefix_section tech toks W np (paragraphs ts)
              (length toks) Hpart Hle ltac:(lia)) as [Hr1 Hc].
  cbv zeta in Hr1, Hc.
  set (cs0 := fold_left (classify_step tech toks W np)
                        (for_range (length toks) 0)
                        (cls_init (paragraphs ts))) in *.
  destruct (count_markers_section tech toks np (paragraphs ts)
              (c_paragraphs cs0) (length toks) Hpart Hle Hr1 ltac:(lia))
    as [Hr2 Hm].
  cbv zeta in Hr2, Hm.
  set (ps2 := fold_left _ (for_range (length toks) 0) (c_paragraphs cs0))
    in *.
  destruct (Hc p Hp) as (C1 & C2 & C3 & C4 & C5 & C6).
  destruct (Hm p Hp) as (M1 & M2 & M3 & M4 & M5 & M6).
  destruct (same_ranges_para_at _ _ p Hr2) as [Hs He].
  assert (Hz : Forall (fun q => personality_hits q = 0 /\ technical_hits q = 0)
                      (paragraphs ts)).
  { apply tokenize_paragraphs_Forall; done. }
  assert (Hz0 : personality_hits (para_at (paragraphs ts) p) = 0
                /\ technical_hits (para_at (paragraphs ts) p) = 0).
  { unfold para_at.
    destruct (lookup_lt_is_Some_2 (paragraphs ts) (Z.to_nat p) ltac:(lia))
      as [x Hx].
    rewrite Hx. simpl.
    eapply (proj1 (Forall_lookup _ _) Hz). exact Hx. }
  assert (Hc0 : clean (para_at (paragraphs ts) p)).
  { unfold para_at.
    destruct (lookup_lt_is_Some_2 (paragraphs ts) (Z.to_nat p) ltac:(lia))
      as [x Hx].
    rewrite Hx. simpl.
    eapply (proj1 (Forall_lookup _ _) Hclean). exact Hx. }
  destruct Hc0 as (Z1 & Z2 & Z3). destruct Hz0 as [Z4 Z5].
  destruct Hpart as (_ & _ & _ & Hne & _).
  destruct (Hne p Hp) as [Hlt Htot].
  split_and!; try lia.
Qed.

(** ** The section table *)

Lemma section_step_overflow p pp :
  section_step p pp = SecOverflow
  <-> total_tokens pp <> 0 /\ 0 < residual_void pp /\ 0 < technical_hits pp.
Proof.
  unfold section_step.
  destruct (Z.eqb_spec (total_tokens pp) 0) as [E|E]; [split; [done|lia]|].
  destruct (Z.gtb_spec (residual_void pp) 0);
    destruct (Z.gtb_spec (technical_hits pp) 0); cbn [andb];
    split; try done; lia.
Qed.

(** The loop runs into the overflowing copy exactly when one of the sections
    it is to visit calls for the warning flag. *)
Lemma section_loop_over n (p : nat) ps :
  (p + n <= length ps)%nat ->
  snd (section_loop n (Z.of_nat p) ps) = true
  <-> exists q, (p <= q < p + n)%nat
        /\ section_step (Z.of_nat q) (para_at ps (Z.of_nat q)) = SecOverflow.
Proof.
  revert p. induction n as [|n IH]; intros p Hlen.
  - cbn [section_loop snd]. split; [done|]. intros (q & Hq & _). lia.
  - cbn [section_loop]. rewrite Nat2Z.id.
    destruct (lookup_lt_is_Some_2 ps p ltac:(lia)) as [pp Hl]. rewrite Hl.
    assert (Hpp : para_at ps (Z.of_nat p) = pp)
      by (unfold para_at; by rewrite Nat2Z.id, Hl).
    replace (Z.of_nat p + 1) with (Z.of_nat (S p)) by lia.
    specialize (IH (S p) ltac:(lia)).
    assert (Hrest : section_step (Z.of_nat p) pp <> SecOverflow ->
              (exists q, (S p <= q < S p + n)%nat
                 /\ section_step (Z.of_nat q) (para_at ps (Z.of_nat q))
                    = SecOverflow)
              <-> (exists q, (p <= q < p + S n)%nat
                 /\ section_step (Z.of_nat q) (para_at ps (Z.of_nat q))
                    = SecOverflow)).
    { intros Hno. split; intros (q & Hq & Hs).
      - exists q. split; [lia|done].
      - exists q. split; [|done].
        destruct (decide (q = p)) as [->|]; [|lia].
        rewrite Hpp in Hs. done. }
    destruct (section_step (Z.of_nat p) pp) as [|row|] eqn:Es.
    + rewrite IH. by apply Hrest.
    + destruct (section_loop n (Z.of_nat (S p)) ps) as [rows over].
      cbn [snd] in *. rewrite IH. by apply Hrest.
    + cbn [snd]. split; [|done]. intros _. exists p. split; [lia|].
      by rewrite Hpp.
Qed.

(** Without overflow the loop prints one row per section that has a token. *)
Lemma section_loop_rows n (p : nat) ps :
  (p + n <= length ps)%nat ->
  (forall q, (p <= q < p + n)%nat ->
     total_tokens (para_at ps (Z.of_nat q)) <> 0
     /\ section_step (Z.of_nat q) (para_at ps (Z.of_nat q)) <> SecOverflow) ->
  section_loop n (Z.of_nat p) ps
  = (map (section_row ps) (for_range n (Z.of_nat p)), false).
Proof.
  revert p. induction n as [|n IH]; intros p Hlen Hall; [done|].
  cbn [section_loop for_range map]. rewrite Nat2Z.id.
  destruct (lookup_lt_is_Some_2 ps p ltac:(lia)) as [pp Hl]. rewrite Hl.
  assert (Hpp : para_at ps (Z.of_nat p) = pp)
    by (unfold para_at; by rewrite Nat2Z.id, Hl).
  replace (Z.of_nat p + 1) with (Z.of_nat (S p)) by lia.
  rewrite (IH (S p)) by (lia || (intros q Hq; apply Hall; lia)).
  destruct (Hall p ltac:(lia)) as [Ht Hs]. rewrite Hpp in Ht, Hs.
  unfold section_step in *.
  destruct (Z.eqb_spec (total_tokens pp) 0) as [E|E]; [done|].
  destruct ((residual_void pp >? 0) && (technical_hits pp >? 0)); [done|].
  replace (Z.of_nat (S p)) with (Z.of_nat p + 1) by lia.
  do 2 f_equal. unfold section_row. cbv zeta. by rewrite Hpp.
Qed.

Lemma section_count_pos ps p f n :
  0 < section_count ps p f n
  <-> exists i, 0 <= i < Z.of_nat n /\ in_section ps p i /\ f i = true.
Proof.
  unfold section_count.
  rewrite (proj2 (count_where_pos _ _)). split.
  - intros (i & Hi & Hb). apply elem_of_for_range in Hi.
    apply andb_true_iff in Hb as [Hb1 Hb2].
    exists i. split; [lia|]. split; [by apply in_sectionb_true|done].
  - intros (i & Hi & Hin & Hf). exists i. split.
    + apply elem_of_for_range. lia.
    + apply andb_true_iff. split; [by apply in_sectionb_true|done].
Qed.

(** The listing of [-s] runs into the overflowing copy exactly when one of
    the first 200 sections holds a hit that is not labelled Personality
    together with a technical-marker token. *)
Lemma section_listing_over vs ps tech W files sections :
  let ts := fst (analyse vs ps tech W files) in
  let cs := snd (analyse vs ps tech W files) in
  snd (section_listing sections (n_paragraphs ts) (c_paragraphs cs)) = true
  <-> sections = true
      /\ section_overflows tech (tokens ts) W (paragraphs ts) (n_paragraphs ts).
Proof.
  intros ts cs.
  pose proof (fun p => analyse_sections vs ps tech W files p) as Hsec.
  cbv zeta in Hsec. fold ts in Hsec. fold cs in Hsec.
  destruct (tokenize_partitions vs ps files) as (Hlen & Hnp & Hpart & _).
  assert (Ets : tokenize vs ps files = ts) by done.
  rewrite Ets in Hlen, Hnp, Hpart.
  set (np := n_paragraphs ts) in *.
  set (toks := tokens ts) in *.
  assert (Hr : same_ranges (paragraphs ts) (c_paragraphs cs)).
  { subst cs. unfold analyse. cbn [snd c_paragraphs]. fold ts. fold np.
    fold toks.
    change (n_tokens ts) with (ntok toks) in Hpart.
    assert (Hle : (Z.to_nat np <= length (paragraphs ts))%nat)
      by (rewrite Hlen; unfold MAX_PARAGRAPHS in *; lia).
    destruct (classify_prefix_section tech toks W np (paragraphs ts)
                (length toks) Hpart Hle ltac:(lia)) as [Hr1 _].
    fold (classify_all tech toks W np (paragraphs ts)) in Hr1.
    destruct (count_markers_section tech toks np (paragraphs ts) _
                (length toks) Hpart Hle Hr1 ltac:(lia)) as [Hr2 _].
    exact Hr2. }
  assert (Hlc : length (c_paragraphs cs) = Z.to_nat MAX_PARAGRAPHS).
  { rewrite <- (Forall2_length _ _ _ Hr). exact Hlen. }
  assert (Hnp0 : 0 <= np) by (by destruct Hpart).
  assert (Hstep : forall q, 0 <= q < np ->
            section_step q (para_at (c_paragraphs cs) q) = SecOverflow
            <-> exists i j,
                  in_section (paragraphs ts) q i
                  /\ in_section (paragraphs ts) q j
                  /\ residual_hit_at tech toks W i = true
                  /\ technical_at tech toks j = true).
  { intros q Hq.
    destruct (Hsec q Hq) as (_ & _ & _ & Htot & _ & _ & Hres & _ & Htech).
    rewrite section_step_overflow, Hres, Htech, !section_count_pos.
    split.
    - intros (_ & (i & _ & Hi & Hfi) & (j & _ & Hj & Hfj)).
      exists i, j. done.
    - intros (i & j & Hi & Hj & Hfi & Hfj).
      split; [lia|]. split.
      + exists i. split; [|done].
        pose proof (partitions_within _ _ _ q i Hpart Hq Hi).
        unfold n_tokens in *. fold toks in H. lia.
      + exists j. split; [|done].
        pose proof (partitions_within _ _ _ q j Hpart Hq Hj).
        unfold n_tokens in *. fold toks in H. lia. }
  unfold section_listing.
  destruct sections; cbn [andb]; [|split; [done|by intros [? _]]].
  destruct (Z.gtb_spec np 0) as [Hpos|Hzero].
  - set (m := if np <? 200 then np else 200).
    assert (Hm : 0 <= m <= np /\ m <= 200 /\ (np < 200 -> m = np)
                 /\ (200 <= np -> m = 200))
      by (subst m; destruct (Z.ltb_spec np 200); lia).
    pose proof (section_loop_over (Z.to_nat m) 0 (c_paragraphs cs)) as Hloop.
    change (Z.of_nat 0) with 0 in Hloop.
    destruct (section_loop (Z.to_nat m) 0 (c_paragraphs cs)) as [rows over].
    cbn [snd] in *.
    rewrite Hloop by (rewrite Hlc; unfold MAX_PARAGRAPHS in *; lia).
    split.
    + intros (q & Hq & Hs). split; [done|].
      apply Hstep in Hs; [|lia].
      destruct Hs as (i & j & Hi & Hj & Hfi & Hfj).
      exists (Z.of_nat q), i, j. split_and!; try done; lia.
    + intros [_ (p & i & j & Hp & Hp200 & Hi & Hj & Hfi & Hfj)].
      exists (Z.to_nat p). split; [lia|].
      rewrite Z2Nat.id by lia. apply Hstep; [lia|].
      exists i, j. done.
  - cbn [snd]. split; [done|].
    intros [_ (p & _ & _ & Hp & _)]. lia.
Qed.

(** ** The section counters at the end of the analysis *)

Lemma section_hits_split tech toks W ps p n :
  section_count ps p (void_at toks) n
  = section_count ps p (personality_hit_at tech toks W) n
    + section_count ps p (residual_hit_at tech toks W) n.
Proof.
  induction n as [|n IH]; [done|].
  rewrite !section_count_S, IH. unfold personality_hit_at, residual_hit_at.
  destruct (in_sectionb ps p (Z.of_nat n)), (void_at toks (Z.of_nat n)),
    (Ascii.eqb (label_at tech toks W (Z.of_nat n)) "P");
    cbn [andb negb b2z]; lia.
Qed.

(** At the end of the analysis every section still has the token range the
    tokenizer gave it, [total_tokens] is the length of the range, and each
    counter is the number of tokens of the range that pass its test:
    [void_hits] counts the cluster terms, [personality_void] those labelled
    Personality, [residual_void] those labelled Anomalous or Residual,
    [personality_hits] and [technical_hits] the personality-marker and the
    technical-marker tokens.  So the hits of a section are its personality
    hits plus its residual ones. *)
Theorem section_counters_count_their_tokens vs ps tech W files p :
  let ts := fst (analyse vs ps tech W files) in
  let cs := snd (analyse vs ps tech W files) in
  let toks := tokens ts in
  let n := length toks in
  let pp := para_at (c_paragraphs cs) p in
  0 <= p < n_paragraphs ts ->
  start_token pp = start_token (para_at (paragraphs ts) p)
  /\ end_token pp = end_token (para_at (paragraphs ts) p)
  /\ total_tokens pp = end_token pp - start_token pp
  /\ 0 < total_tokens pp
  /\ void_hits pp = section_count (paragraphs ts) p (void_at toks) n
  /\ personality_void pp
     = section_count (paragraphs ts) p (personality_hit_at tech toks W) n
  /\ residual_void pp
     = section_count (paragraphs ts) p (residual_hit_at tech toks W) n
  /\ personality_hits pp
     = section_count (paragraphs ts) p (personality_at toks) n
  /\ technical_hits pp
     = section_count (paragraphs ts) p (technical_at tech toks) n
  /\ void_hits pp = personality_void pp + residual_void pp.
Proof.
  intros ts cs toks n pp Hp.
  destruct (analyse_sections vs ps tech W files p Hp)
    as (H1 & H2 & H3 & H4 & H5 & H6 & H7 & H8 & H9).
  fold ts in H1, H2, H3, H4, H5, H6, H7, H8, H9.
  fold cs in H1, H2, H3, H4, H5, H6, H7, H8, H9.
  fold toks in H5, H6, H7, H8, H9. fold n in H5, H6, H7, H8, H9.
  fold pp in H1, H2, H3, H4, H5, H6, H7, H8, H9.
  split_and!; try done.
  rewrite H5, H6, H7. apply section_hits_split.
Qed.

Lemma section_counters_count_their_tokens_witness :
  let a := analyse (load_defaults hs_init VOID_CLUSTER)
                   (load_defaults hs_init PERSONALITY_MARKERS)
                   tech_default 15 [cstr "the void kernel"] in
  0 <= 0 < n_paragraphs (fst a)
  /\ void_hits (para_at (c_paragraphs (snd a)) 0)
     = personality_void (para_at (c_paragraphs (snd a)) 0)
       + residual_void (para_at (c_paragraphs (snd a)) 0).
Proof.
  cbv zeta.
  assert (Hp : 0 <= 0 < n_paragraphs
                 (fst (analyse (load_defaults hs_init VOID_CLUSTER)
                         (load_defaults hs_init PERSONALITY_MARKERS)
                         tech_default 15 [cstr "the void kernel"]))).
  { split; [lia|]. vm_compute. reflexivity. }
  split; [exact Hp|].
  exact (proj2 (proj2 (proj2 (proj2 (proj2 (proj2 (proj2 (proj2 (proj2
           (section_counters_count_their_tokens _ _ _ _ _ 0 Hp)))))))))).
Defined.

(** ** The section table *)

Lemma analyse_ranges vs ps tech W files :
  let ts := fst (analyse vs ps tech W files) in
  let cs := snd (analyse vs ps tech W files) in
  same_ranges (paragraphs ts) (c_paragraphs cs)
  /\ length (c_paragraphs cs) = Z.to_nat MAX_PARAGRAPHS
  /\ 0 <= n_paragraphs ts <= MAX_PARAGRAPHS
  /\ (0 < n_tokens ts -> 0 < n_paragraphs ts).
Proof.
  intros ts cs.
  destruct (tokenize_partitions vs ps files) as (Hlen & Hnp & Hpart & _).
  assert (Ets : tokenize vs ps files = ts) by done.
  rewrite Ets in Hlen, Hnp, Hpart.
  set (np := n_paragraphs ts) in *. set (toks := tokens ts) in *.
  assert (Hr : same_ranges (paragraphs ts) (c_paragraphs cs)).
  { subst cs. unfold analyse. cbn [snd c_paragraphs]. fold ts. fold np.
    fold toks.
    change (n_tokens ts) with (ntok toks) in Hpart.
    assert (Hle : (Z.to_nat np <= length (paragraphs ts))%nat)
      by (rewrite Hlen; unfold MAX_PARAGRAPHS in *; lia).
    destruct (classify_prefix_section tech toks W np (paragraphs ts)
                (length toks) Hpart Hle ltac:(lia)) as [Hr1 _].
    fold (classify_all tech toks W np (paragraphs ts)) in Hr1.
    destruct (count_markers_section tech toks np (paragraphs ts) _
                (length toks) Hpart Hle Hr1 ltac:(lia)) as [Hr2 _].
    exact Hr2. }
  split; [exact Hr|]. split.
  { rewrite <- (Forall2_length _ _ _ Hr). exact Hlen. }
  destruct Hpart as (Hnp0 & Hz & _). split; [lia|].
  intros Hpos. destruct (decide (np = 0)) as [E|]; [|lia].
  specialize (Hz E). lia.
Qed.

(** When the listing of [-s] goes through, it is the header and one row per
    section, for the first 200 sections. *)
Lemma section_listing_rows vs ps tech W files :
  let ts := fst (analyse vs ps tech W files) in
  let cs := snd (analyse vs ps tech W files) in
  let np := n_paragraphs ts in
  0 < np ->
  snd (section_listing true np (c_paragraphs cs)) = false ->
  fst (section_listing true np (c_paragraphs cs))
  = SecHeader np
    :: map (section_row (c_paragraphs cs))
           (for_range (Z.to_nat (Z.min np 200)) 0).
Proof.
  intros ts cs np Hpos Hno.
  pose proof (fun p => analyse_sections vs ps tech W files p) as Hsec.
  cbv zeta in Hsec. fold ts in Hsec. fold cs in Hsec. fold np in Hsec.
  destruct (analyse_ranges vs ps tech W files) as (_ & Hlc & Hnp & _).
  fold ts in Hnp. fold cs in Hlc. fold np in Hnp.
  unfold section_listing in *. cbn [andb] in *.
  destruct (Z.gtb_spec np 0) as [_|]; [|lia].
  replace (if np <? 200 then np else 200) with (Z.min np 200) in *
    by (destruct (Z.ltb_spec np 200); lia).
  set (m := Z.min np 200) in *.
  pose proof (section_loop_over (Z.to_nat m) 0 (c_paragraphs cs)) as Hloop.
  pose proof (section_loop_rows (Z.to_nat m) 0 (c_paragraphs cs)) as Hrows.
  change (Z.of_nat 0) with 0 in Hloop, Hrows.
  assert (Hfit : (0 + Z.to_nat m <= length (c_paragraphs cs))%nat)
    by (rewrite Hlc; unfold MAX_PARAGRAPHS in *; lia).
  specialize (Hloop Hfit). specialize (Hrows Hfit).
  destruct (section_loop (Z.to_nat m) 0 (c_paragraphs cs)) as [rows over].
  cbn [fst snd] in *. subst over.
  assert (Hall : forall q : nat, (0 <= q < 0 + Z.to_nat m)%nat ->
            total_tokens (para_at (c_paragraphs cs) (Z.of_nat q)) <> 0
            /\ section_step (Z.of_nat q)
                 (para_at (c_paragraphs cs) (Z.of_nat q)) <> SecOverflow).
  { intros q Hq. split.
    - destruct (Hsec (Z.of_nat q) ltac:(lia)) as (_ & _ & _ & Ht & _). lia.
    - intros Hs. assert (false = true); [|done].
      apply Hloop. by exists q. }
  specialize (Hrows Hall). congruence.
Qed.

(** ** How a run ends *)

Lemma input_match args stdin :
  match args with
  | [] => ([], [stdin])
  | _ => open_inputs args 0
  end = (input_diags args, input_files args stdin).
Proof.
  unfold input_diags, input_files. destruct args; [done|].
  by destruct (open_inputs _ 0).
Qed.

(** The ways [main] ends once the options are set. *)
Lemma main_outcome o names args stdin :
  let r := main o names args stdin in
  (termination r = Returns 1 /\ no_output r
   /\ ((load_cluster (opt_void_file o) VOID_CLUSTER = None
        /\ diagnostics r = [DiagPerror (fst names)])
       \/ (is_Some (load_cluster (opt_void_file o) VOID_CLUSTER)
           /\ load_cluster (opt_pers_file o) PERSONALITY_MARKERS = None
           /\ diagnostics r = [DiagPerror (snd names)])
       \/ (exists vs ps,
             load_cluster (opt_void_file o) VOID_CLUSTER = Some vs
             /\ load_cluster (opt_pers_file o) PERSONALITY_MARKERS = Some ps
             /\ n_tokens (tokenize vs ps (input_files args stdin)) = 0
             /\ diagnostics r = input_diags args ++ [DiagNoTokens])))
  \/ (exists ts cs,
        analysis r = Some (ts, cs) /\ 0 < n_tokens ts
        /\ diagnostics r = input_diags args
        /\ (termination r = Returns 0 \/ termination r = UndefinedBehaviour)
        /\ (termination r = UndefinedBehaviour
            <-> opt_quiet o = false /\ opt_sections o = true
                /\ section_overflows tech_default (tokens ts) (opt_window o)
                                     (paragraphs ts) (n_paragraphs ts))
        /\ (opt_quiet o = true ->
            is_Some (quiet_record r)
            /\ debug_lines r = [] /\ section_lines r = [])
        /\ (opt_quiet o = false -> opt_sections o = true ->
            termination r = Returns 0 ->
            section_lines r
            = SecHeader (n_paragraphs ts)
              :: map (section_row (c_paragraphs cs))
                     (for_range (Z.to_nat (Z.min (n_paragraphs ts) 200)) 0))).
Proof.
  intros r. subst r. unfold main.
  destruct (load_cluster (opt_void_file o) VOID_CLUSTER) as [vs|];
    [|left; split_and!; [done|done|by left]].
  destruct (load_cluster (opt_pers_file o) PERSONALITY_MARKERS) as [ps|];
    [|left; split_and!; [done|done|right; left; by eauto]].
  rewrite load_tech_default. cbv iota beta. rewrite input_match.
  pose proof (section_listing_over vs ps tech_default (opt_window o)
                (input_files args stdin) (opt_sections o)) as Hover.
  pose proof (section_listing_rows vs ps tech_default (opt_window o)
                (input_files args stdin)) as Hrows.
  pose proof (analyse_ranges vs ps tech_default (opt_window o)
                (input_files args stdin)) as (_ & _ & _ & Hnp).
  cbv zeta in Hover, Hrows, Hnp.
  destruct (analyse vs ps tech_default (opt_window o) (input_files args stdin))
    as [ts cs] eqn:Ea.
  cbn [fst snd] in Hover, Hrows, Hnp.
  assert (Hts : ts = tokenize vs ps (input_files args stdin)).
  { unfold analyse in Ea. cbv zeta in Ea. congruence. }
  destruct (Z.eqb_spec (n_tokens ts) 0) as [Hz|Hnz].
  { left. split_and!; [done|done|]. right; right. exists vs, ps.
    rewrite <- Hts. done. }
  assert (Hpos : 0 < n_tokens ts) by (unfold n_tokens in *; lia).
  right. exists ts, cs. destruct (opt_quiet o).
  - cbn [analysis termination diagnostics quiet_record debug_lines
         section_lines].
    split_and!; try done.
    + by left.
    + split; [done|]. by intros [? _].
  - destruct (opt_sections o).
    + destruct (section_listing true (n_paragraphs ts) (c_paragraphs cs))
        as [rows over].
      cbn [fst snd] in Hover, Hrows.
      cbn [analysis termination diagnostics quiet_record debug_lines
           section_lines].
      split_and!; try done.
      * destruct over; [by right|by left].
      * destruct over.
        { split; [intros _|done]. split; [done|]. by apply Hover. }
        { split; [done|]. intros (_ & _ & H).
          assert (false = true); [|done]. apply Hover. done. }
      * intros _ _ Hret. destruct over; [done|].
        apply Hrows; [by apply Hnp|done].
    + assert (Hoff : section_listing false (n_paragraphs ts) (c_paragraphs cs)
                     = ([], false)) by done.
      rewrite Hoff.
      cbn [analysis termination diagnostics quiet_record debug_lines
           section_lines].
      split_and!; try done.
      * by left.
      * split; [done|]. by intros (_ & ? & _).
Qed.

Lemma load_cluster_fopen fopen (file : option string) defaults :
  load_cluster (option_map fopen file) defaults = None
  <-> exists name, file = Some name /\ fopen name = None.
Proof.
  unfold load_cluster, option_map. destruct file as [name|].
  - destruct (fopen name) eqn:E.
    + split; [done|]. intros (n & [= <-] & H). congruence.
    + split; [|done]. intros _. by exists name.
  - split; [done|]. by intros (n & ? & _).
Qed.

(** The ways a run of the program ends.  [-h] prints the usage text and
    returns 0; an unknown option is reported, followed by the usage text, and
    returns 1.  Otherwise the run stops with status 1 and without output
    when a word-list file named by [-v] or [-p] cannot be opened (one
    [perror] line) or when the inputs give no token ("No tokens found." after
    the [perror] lines of the unreadable operands).  In every other case the
    analysis is made, the only diagnostics are the [perror] lines of the
    unreadable operands, and [main] returns 0, save that the table of [-s]
    writes past the end of [flag], which is undefined behaviour, exactly when
    [-q] is not given and one of the first 200 sections holds both a hit that
    is not labelled Personality and a technical-marker token.  Under [-q] the
    output is the one record; when the table of [-s] goes through it is the
    header and one row per section for the first 200 sections. *)
Theorem exit_status_and_diagnostics atoi atof fopen argv stdin :
  let r := main_argv atoi atof fopen argv stdin in
  match parse_args atoi atof (tl argv) default_args with
  | ParsedHelp =>
      termination r = Returns 0 /\ diagnostics r = [DiagUsage] /\ no_output r
  | ParsedUnknown arg =>
      termination r = Returns 1
      /\ diagnostics r = [DiagUnknownOption arg; DiagUsage] /\ no_output r
  | ParsedArgs a operands =>
      let args := map (fun name => (name, fopen name)) operands in
      (termination r = Returns 1 /\ no_output r
       /\ ((exists name,
              arg_void_file a = Some name /\ fopen name = None
              /\ diagnostics r = [DiagPerror name])
           \/ (exists name,
                 arg_pers_file a = Some name /\ fopen name = None
                 /\ diagnostics r = [DiagPerror name])
           \/ (exists vs ps,
                 load_cluster (option_map fopen (arg_void_file a))
                              VOID_CLUSTER = Some vs
                 /\ load_cluster (option_map fopen (arg_pers_file a))
                                 PERSONALITY_MARKERS = Some ps
                 /\ n_tokens (tokenize vs ps (input_files args stdin)) = 0
                 /\ diagnostics r = input_diags args ++ [DiagNoTokens])))
      \/ (exists ts cs,
            analysis r = Some (ts, cs) /\ 0 < n_tokens ts
            /\ diagnostics r = input_diags args
            /\ (termination r = Returns 0
                \/ termination r = UndefinedBehaviour)
            /\ (termination r = UndefinedBehaviour
                <-> arg_quiet a = false /\ arg_sections a = true
                    /\ section_overflows tech_default (tokens ts)
                         (arg_window a) (paragraphs ts) (n_paragraphs ts))
            /\ (arg_quiet a = true ->
                is_Some (quiet_record r)
                /\ debug_lines r = [] /\ section_lines r = [])
            /\ (arg_quiet a = false -> arg_sections a = true ->
                termination r = Returns 0 ->
                section_lines r
                = SecHeader (n_paragraphs ts)
                  :: map (section_row (c_paragraphs cs))
                         (for_range
                            (Z.to_nat (Z.min (n_paragraphs ts) 200)) 0)))
  end.
Proof.
  intros r. subst r. unfold main_argv.
  destruct (parse_args atoi atof (tl argv) default_args) as [|arg|a operands].
  - by split_and!.
  - by split_and!.
  - cbv zeta.
    set (args := map (fun name => (name, fopen name)) operands).
    destruct (main_outcome (options_of fopen a)
                (default ""%string (arg_void_file a),
                 default ""%string (arg_pers_file a)) args stdin)
      as [(Ht & Hno & Hwhy)|H]; [left|right; exact H].
    split; [exact Ht|]. split; [exact Hno|].
    destruct Hwhy as [[Hl Hd]|[(_ & Hl & Hd)|Hz]].
    + left.
      change (load_cluster (option_map fopen (arg_void_file a)) VOID_CLUSTER
              = None) in Hl.
      apply load_cluster_fopen in Hl as (name & E & Hf).
      exists name. split; [done|]. split; [done|].
      rewrite Hd. cbn [fst]. rewrite E. done.
    + right; left.
      change (load_cluster (option_map fopen (arg_pers_file a))
                           PERSONALITY_MARKERS = None) in Hl.
      apply load_cluster_fopen in Hl as (name & E & Hf).
      exists name. split; [done|]. split; [done|].
      rewrite Hd. cbn [snd]. rewrite E. done.
    + right; right. exact Hz.
Qed.

(** The table of [-s] on an input whose one section holds an Anomalous hit
    and a technical marker: the run has no defined result. *)
Lemma section_table_overflow atoi atof fopen :
  termination (main_argv atoi atof fopen ["filter"; "-s"]%string
                         (cstr "the void kernel"))
  = UndefinedBehaviour.
Proof. vm_compute. reflexivity. Qed.

(** The same input without [-s], and with [-s] under [-q]. *)
Lemma section_table_not_printed atoi atof fopen :
  termination (main_argv atoi atof fopen ["filter"]%string
                         (cstr "the void kernel")) = Returns 0
  /\ termination (main_argv atoi atof fopen ["filter"; "-s"; "-q"]%string
                            (cstr "the void kernel")) = Returns 0.
Proof. split; vm_compute; reflexivity. Qed.

(** ** The argument loop *)

Lemma parse_args_help atoi atof rest a :
  parse_args atoi atof ("-h"%string :: rest) a = ParsedHelp
  /\ parse_args atoi atof ("--help"%string :: rest) a = ParsedHelp.
Proof. by destruct rest. Qed.

Lemma parse_args_operand atoi atof arg rest a :
  is_option arg = false ->
  parse_args atoi atof (arg :: rest) a = ParsedArgs a (arg :: rest).
Proof. intros H. cbn [parse_args]. by rewrite H. Qed.

Lemma parse_args_end_of_options atoi atof rest a :
  parse_args atoi atof ("--"%string :: rest) a = ParsedArgs a rest.
Proof. by destruct rest. Qed.

Lemma parse_args_window atoi atof value rest a :
  parse_args atoi atof ("-w"%string :: value :: rest) a
  = parse_args atoi atof rest
      (mkArgs (clamp_window (atoi value)) (arg_baseline a) (arg_quiet a)
              (arg_debug a) (arg_sections a) (arg_void_file a)
              (arg_pers_file a)).
Proof. reflexivity. Qed.

(** An option that takes a value, given last, is reported as unknown. *)
Lemma parse_args_missing_value atoi atof a :
  parse_args atoi atof ["-w"%string] a = ParsedUnknown "-w"
  /\ parse_args atoi atof ["-v"%string] a = ParsedUnknown "-v"
  /\ parse_args atoi atof ["-p"%string] a = ParsedUnknown "-p"
  /\ parse_args atoi atof ["-b"%string] a = ParsedUnknown "-b".
Proof. by split_and!. Qed.

(** ** A hit log that is full *)




End FilterFacts.

(** * Properties of void-cluster-analyzer.c *)

Module AnalyzerFacts.

Import Analyzer.

(** ** Strings and the hash set *)

(** ** The frequency table *)

(** An increment below [INT_MAX] adds one. *)
Lemma int_incr_lt x : x < INT_MAX -> int_incr x = x + 1.
Proof.
  intros H. unfold int_incr. destruct (Z.ltb_spec x INT_MAX); [done|lia].
Qed.

Lemma table_sum_cons e tbl :
  table_sum (e :: tbl) = wc_count e + table_sum tbl.
Proof. reflexivity. Qed.

Lemma table_sum_nonneg tbl :
  Forall (fun e => 1 <= wc_count e) tbl ->
  Z.of_nat (length tbl) <= table_sum tbl.
Proof.
  induction 1 as [|e l He _ IH]; [done|].
  rewrite table_sum_cons. cbn [length]. lia.
Qed.

(** No count exceeds the sum of the counts. *)
Lemma table_counts_bounded tbl b :
  Forall (fun e => 1 <= wc_count e) tbl ->
  table_sum tbl <= b ->
  Forall (fun e => wc_count e <= b) tbl.
Proof.
  intros H. revert b. induction H as [|e l He Hl IH]; intros b Hb; [done|].
  rewrite table_sum_cons in Hb. pose proof (table_sum_nonneg l Hl).
  constructor; [lia|]. apply IH. lia.
Qed.

Lemma record_loop_Some tbl w tbl' :
  Forall (fun e => wc_count e < INT_MAX) tbl ->
  record_loop tbl w = Some tbl' ->
  table_sum tbl' = table_sum tbl + 1
  /\ map wc_word tbl' = map wc_word tbl.
Proof.
  intros Hlt. revert tbl'.
  induction Hlt as [|e tbl He _ IH]; intros tbl'; cbn [record_loop]; [done|].
  destruct (cstr_eqb (wc_word e) w).
  - intros [= <-]. rewrite !table_sum_cons. cbn [wc_count wc_word map].
    rewrite int_incr_lt by done. split; [lia|done].
  - destruct (record_loop tbl w) as [t|]; [|done]. intros [= <-].
    destruct (IH t eq_refl) as [Hs Hw]. rewrite !table_sum_cons.
    cbn [map]. split; [lia|by rewrite Hw].
Qed.

Lemma record_loop_None tbl w :
  record_loop tbl w = None -> w ∉ map wc_word tbl.
Proof.
  induction tbl as [|e tbl IH]; simpl; [intros _; apply not_elem_of_nil|].
  destruct (cstr_eqb (wc_word e) w) eqn:E; [done|].
  destruct (record_loop tbl w); [done|]. intros _.
  rewrite not_elem_of_cons. split; [|by apply IH].
  intros ->. rewrite (proj2 (cstr_eqb_eq _ _) eq_refl) in E. done.
Qed.

Lemma table_sum_snoc tbl e :
  table_sum (tbl ++ [e]) = table_sum tbl + wc_count e.
Proof.
  unfold table_sum. induction tbl as [|x tbl IH]; simpl; lia.
Qed.

(** Recording a hit of a cluster word keeps the invariant with one more
    hit. *)
Lemma record_hit_inv cluster tt tt' th tbl buf w buf' :
  count_inv cluster (mkState tt th tbl buf) ->
  Forall (fun e => wc_count e < INT_MAX) tbl ->
  (length w <= Z.to_nat (MAX_WORD_LEN - 1))%nat ->
  (length buf' <= Z.to_nat (MAX_WORD_LEN - 1))%nat ->
  hs_contains cluster w = true ->
  count_inv cluster (mkState tt' (th + 1) (record_hit tbl w) buf').
Proof.
  intros (Hb & Hnd & Hst & Hle & Heq) Hbound Hw Hb' Hc.
  unfold count_inv, n_cluster_hits in *.
  cbn [wbuf cluster_hits total_hits] in *.
  apply hs_contains_stored in Hc. unfold record_hit.
  destruct (record_loop tbl w) as [tbl'|] eqn:E.
  - destruct (record_loop_Some _ _ _ Hbound E) as [Hs Hws].
    rewrite Hws. split_and!; try done. 1: lia.
    intros H. rewrite Hs, Heq; [done|].
    assert (length tbl' = length tbl) as <-; [|done].
    by rewrite <- (length_map wc_word tbl'), Hws, length_map.
  - apply record_loop_None in E.
    destruct (Z.ltb_spec (Z.of_nat (length tbl)) MAX_WORDLIST) as [Hlt|Hge].
    + rewrite map_app, table_sum_snoc, length_app. cbn [map wc_word wc_count length].
      rewrite strncpy_word_short by done.
      split_and!; try done.
      * apply NoDup_app. split_and!; [done| |apply NoDup_singleton].
        intros x Hx Hx'. apply list_elem_of_singleton in Hx' as ->. done.
      * intros x Hx. apply elem_of_app in Hx as [Hx|Hx]; [by apply Hst|].
        apply list_elem_of_singleton in Hx as ->. done.
      * lia.
      * intros _. rewrite Heq; [done|]. by left.
    + split_and!; try done; [lia|].
      intros [Hlt|Hsmall]; [lia|]. exfalso.
      assert (Hsub : (w :: map wc_word tbl) ⊆+ stored_words cluster).
      { apply NoDup_submseteq; [by constructor|].
        intros x Hx. apply elem_of_cons in Hx as [->|Hx]; [done|by apply Hst]. }
      apply submseteq_length in Hsub. cbn [length] in Hsub.
      rewrite length_map in Hsub. unfold cstring in *. lia.
Qed.

(** ** The counting loop *)

Lemma init_inv cluster : count_inv cluster init.
Proof.
  unfold count_inv, init, n_cluster_hits, table_sum. cbn.
  split_and!; try done; [lia|constructor|]. intros w Hw. by apply elem_of_nil in Hw.
Qed.

Lemma count_word_inv cluster st :
  count_inv cluster st ->
  Forall (fun e => wc_count e < INT_MAX) (cluster_hits st) ->
  total_hits st < INT_MAX ->
  count_inv cluster (count_word cluster st).
Proof.
  intros H Hbound Hth. unfold count_word.
  destruct (_ && _); [|done].
  destruct st as [tt th tbl buf].
  cbn [wbuf total_tokens total_hits cluster_hits] in *.
  destruct (hs_contains cluster (lowercase buf)) eqn:E.
  - pose proof H as (Hb & _). cbn [wbuf] in Hb.
    rewrite (int_incr_lt th) by done.
    apply (record_hit_inv _ tt _ _ _ buf); try done.
    unfold lowercase. by rewrite length_map.
  - exact H.
Qed.

Lemma reset_word_inv cluster st :
  count_inv cluster st -> count_inv cluster (reset_word st).
Proof.
  intros (_ & H). split; [|exact H]. cbn. lia.
Qed.

Lemma default_cluster_size :
  Z.of_nat (length (stored_words (load_defaults hs_init DEFAULT_CLUSTER)))
  <= MAX_WORDLIST.
Proof. vm_compute. discriminate. Qed.


(** ** Reading a word *)

Lemma an_fold_word_chars cluster r st :
  Forall (fun c => is_word_char c = true) r ->
  (length (wbuf st) <= Z.to_nat (MAX_WORD_LEN - 1))%nat ->
  fold_left (char_step cluster) r st = after_word st r.
Proof.
  intros Hr. revert st. induction Hr as [|c r Hc Hr IH]; intros st Hlen.
  - destruct st as [tt th tbl buf]. unfold after_word.
    cbn [total_tokens total_hits cluster_hits wbuf fold_left] in *.
    by rewrite app_nil_r, take_ge by lia.
  - cbn [fold_left]. unfold char_step at 2. rewrite Hc.
    destruct st as [tt th tbl buf]. unfold wpos.
    cbn [total_tokens total_hits cluster_hits wbuf] in *.
    destruct (Z.ltb_spec (Z.of_nat (length buf)) (MAX_WORD_LEN - 1)).
    + rewrite IH.
      * unfold after_word. cbn [total_tokens total_hits cluster_hits wbuf].
        by rewrite <- app_assoc.
      * cbn [wbuf]. rewrite length_app. cbn [length].
        unfold MAX_WORD_LEN in *. lia.
    + rewrite IH by done. unfold after_word.
      cbn [total_tokens total_hits cluster_hits wbuf].
      assert (length buf = Z.to_nat (MAX_WORD_LEN - 1)) as Hb by lia.
      by rewrite !take_app_le by lia.
Qed.

(** The counting done for a run read into an empty buffer: one token when
    the run starts with a letter, looked up and tabulated in its truncated,
    lowercased form. *)
Lemma an_count_after_word cluster st c r :
  wbuf st = [] ->
  let buf := take (Z.to_nat (MAX_WORD_LEN - 1)) (c :: r) in
  let w := lowercase buf in
  count_word cluster (after_word st (c :: r))
  = if isalpha c then
      if hs_contains cluster w
      then mkState (int_incr (total_tokens st)) (int_incr (total_hits st))
                   (record_hit (cluster_hits st) w) buf
      else mkState (int_incr (total_tokens st)) (total_hits st)
                   (cluster_hits st) buf
    else after_word st (c :: r).
Proof.
  intros Hb buf w. unfold count_word, after_word, wpos.
  cbn [total_tokens total_hits cluster_hits wbuf]. rewrite Hb. cbn [app].
  fold buf. fold w.
  assert (Hbuf : buf = c :: take 62 r) by reflexivity.
  replace (Z.of_nat (length buf) >=? 1) with true
    by (symmetry; apply Z.geb_le; rewrite Hbuf; cbn [length]; lia).
  replace (match w with [] => false | c0 :: _ => isalpha c0 end)
    with (isalpha c).
  2:{ unfold w. rewrite Hbuf. cbn [lowercase map]. by rewrite isalpha_tolower. }
  cbn [andb]. done.
Qed.

(** A non-empty run of word characters followed by a separator. *)
Lemma an_read_word cluster st r c :
  wbuf st = [] -> r <> [] ->
  Forall (fun c => is_word_char c = true) r -> is_word_char c = false ->
  fold_left (char_step cluster) (r ++ [c]) st
  = reset_word (count_word cluster (after_word st r)).
Proof.
  intros Hb Hr Hw Hc. rewrite fold_left_app. cbn [fold_left].
  rewrite an_fold_word_chars by (done || (rewrite Hb; cbn; lia)).
  unfold char_step. rewrite Hc.
  replace (wpos (after_word st r) >? 0) with true; [done|].
  unfold after_word, wpos. cbn [wbuf]. rewrite Hb. cbn [app].
  destruct r; done.
Qed.

(** The same run ending the file. *)
Lemma an_read_last_word cluster st r :
  wbuf st = [] -> r <> [] ->
  Forall (fun c => is_word_char c = true) r ->
  flush_last cluster (fold_left (char_step cluster) r st)
  = count_word cluster (after_word st r).
Proof.
  intros Hb Hr Hw.
  rewrite an_fold_word_chars by (done || (rewrite Hb; cbn; lia)).
  unfold flush_last.
  replace (wpos (after_word st r) >? 0) with true; [done|].
  unfold after_word, wpos. cbn [wbuf]. rewrite Hb. cbn [app].
  destruct r; done.
Qed.

(** ** The entries of the frequency table *)

Lemma record_loop_entries (Q Q' : WordCount -> Prop) tbl w tbl' :
  (forall e, Q e -> Q' e) ->
  (forall e, Q e -> Q' (mkWordCount (wc_word e) (int_incr (wc_count e)))) ->
  record_loop tbl w = Some tbl' ->
  Forall Q tbl -> Forall Q' tbl' /\ length tbl' = length tbl.
Proof.
  intros Hweak HQ. revert tbl'.
  induction tbl as [|e tbl IH]; intros tbl' E H; cbn [record_loop] in E;
    [discriminate E|].
  apply Forall_cons in H as [He H].
  destruct (cstr_eqb (wc_word e) w).
  - injection E as <-. split; [|done]. constructor; [by apply HQ|].
    eapply Forall_impl; [exact H|exact Hweak].
  - destruct (record_loop tbl w) as [t|]; [|discriminate E].
    injection E as <-. destruct (IH t eq_refl H) as [IH1 IH2].
    split; [constructor; [by apply Hweak|done]|]. simpl. by rewrite IH2.
Qed.

Lemma record_hit_entries tbl w :
  normalised w ->
  Forall (fun e => 1 <= wc_count e /\ normalised (wc_word e)) tbl ->
  Forall (fun e => wc_count e < INT_MAX) tbl ->
  Z.of_nat (length tbl) <= MAX_WORDLIST ->
  Forall (fun e => 1 <= wc_count e /\ normalised (wc_word e))
         (record_hit tbl w)
  /\ Z.of_nat (length (record_hit tbl w)) <= MAX_WORDLIST
  /\ Z.of_nat (length tbl) <= Z.of_nat (length (record_hit tbl w))
     <= Z.of_nat (length tbl) + 1.
Proof.
  intros Hw Htbl Hbound Hlen. unfold record_hit.
  destruct (record_loop tbl w) as [tbl'|] eqn:E.
  - assert (HQ : Forall (fun e => (1 <= wc_count e /\ normalised (wc_word e))
                                  /\ wc_count e < INT_MAX) tbl)
      by (apply Forall_and; done).
    assert (Hweak : forall e,
              (1 <= wc_count e /\ normalised (wc_word e))
              /\ wc_count e < INT_MAX ->
              1 <= wc_count e /\ normalised (wc_word e))
      by (by intros e [H _]).
    assert (Hincr : forall e,
              (1 <= wc_count e /\ normalised (wc_word e))
              /\ wc_count e < INT_MAX ->
              1 <= wc_count (mkWordCount (wc_word e) (int_incr (wc_count e)))
              /\ normalised
                   (wc_word (mkWordCount (wc_word e)
                                         (int_incr (wc_count e))))).
    { intros e [[H1 H2] H3]. cbn [wc_count wc_word].
      rewrite int_incr_lt by done. split; [lia|done]. }
    destruct (record_loop_entries _ _ tbl w tbl' Hweak Hincr E HQ)
      as [H1 H2].
    rewrite H2. split_and!; [done|lia|lia|lia].
  - destruct (Z.ltb_spec (Z.of_nat (length tbl)) MAX_WORDLIST).
    + rewrite length_app. cbn [length]. split_and!; [|lia|lia|lia].
      apply Forall_app. split; [done|]. constructor; [|done].
      cbn [wc_count wc_word]. split; [lia|].
      rewrite strncpy_word_short by apply Hw. done.
    + split_and!; [done|lia|lia|lia].
Qed.

Lemma table_init : table_inv init.
Proof.
  unfold table_inv, init, n_cluster_hits, MAX_WORDLIST.
  cbn [total_hits total_tokens cluster_hits length].
  split_and!; try lia. constructor.
Qed.

(** ** The counters within the range of [int] *)

(** With fewer than [INT_MAX] tokens counted, every counter is below
    [INT_MAX]. *)
Lemma counts_below cluster st :
  count_inv cluster st -> table_inv st -> total_tokens st < INT_MAX ->
  Forall (fun e => wc_count e < INT_MAX) (cluster_hits st)
  /\ total_hits st < INT_MAX.
Proof.
  intros (_ & _ & _ & Hsum & _) (Hh & _ & _ & Hent) Hlt. split; [|lia].
  assert (H1 : Forall (fun e => 1 <= wc_count e) (cluster_hits st)).
  { eapply Forall_impl; [exact Hent|]. by intros e [? _]. }
  eapply Forall_impl;
    [exact (table_counts_bounded _ (total_hits st) H1 Hsum)|].
  intros e He. cbv beta in He. lia.
Qed.

Lemma count_word_table cluster st :
  count_inv cluster st -> table_inv st -> total_tokens st < INT_MAX ->
  table_inv (count_word cluster st).
Proof.
  intros Hc Ht Hlt.
  destruct (counts_below cluster st Hc Ht Hlt) as [Hbound Hth].
  destruct Hc as (Hbuf & _). destruct Ht as (Hh & Hn & Hnh & Hent).
  unfold count_word.
  destruct (_ && _); [|done].
  destruct (hs_contains cluster (lowercase (wbuf st))).
  - destruct (record_hit_entries (cluster_hits st) (lowercase (wbuf st))
                (lowercase_normalised _ Hbuf) Hent Hbound Hn)
      as (H1 & H2 & H3).
    unfold table_inv, n_cluster_hits in *.
    cbn [total_hits total_tokens cluster_hits].
    rewrite !int_incr_lt by done. split_and!; try done; lia.
  - unfold table_inv, n_cluster_hits in *.
    cbn [total_hits total_tokens cluster_hits].
    rewrite !int_incr_lt by done. split_and!; try done; lia.
Qed.

(** The end of a word, counted below [INT_MAX]: at most one more token, and
    the buffer is left as it is. *)
Lemma count_word_step cluster st :
  count_inv cluster st -> table_inv st -> total_tokens st < INT_MAX ->
  count_inv cluster (count_word cluster st)
  /\ table_inv (count_word cluster st)
  /\ total_tokens st <= total_tokens (count_word cluster st)
     <= total_tokens st + 1
  /\ wbuf (count_word cluster st) = wbuf st.
Proof.
  intros Hc Ht Hlt.
  destruct (counts_below cluster st Hc Ht Hlt) as [Hbound Hth].
  split; [by apply count_word_inv|].
  split; [by apply count_word_table|].
  unfold count_word. destruct (_ && _); [|split; [lia|done]].
  destruct (hs_contains cluster _); cbn [total_tokens wbuf];
    rewrite int_incr_lt by done; (split; [lia|done]).
Qed.

Lemma pending_range st : 0 <= pending st <= 1.
Proof. unfold pending. destruct (wbuf st); lia. Qed.

Lemma pending_wpos st : 0 < wpos st -> pending st = 1.
Proof.
  unfold pending, wpos. destruct (wbuf st); cbn [length]; [lia|done].
Qed.

(** One byte more: the invariants hold with one more byte in the budget. *)
Lemma char_step_counting cluster k st c :
  counting_inv cluster k st -> k + 1 <= INT_MAX ->
  counting_inv cluster (k + 1) (char_step cluster st c).
Proof.
  intros (Hc & Ht & Hb & Hk) Hk1. pose proof (pending_range st) as Hp.
  unfold counting_inv, in_budget, char_step. destruct (is_word_char c).
  - destruct (Z.ltb_spec (wpos st) (MAX_WORD_LEN - 1)) as [Hlt|Hge].
    + split_and!.
      * destruct Hc as (Hbuf & H). split; [|exact H].
        cbn [wbuf]. rewrite length_app. cbn [length].
        unfold wpos, MAX_WORD_LEN in *. lia.
      * exact Ht.
      * unfold pending. cbn [wbuf total_tokens].
        destruct (wbuf st ++ [c]); lia.
      * lia.
    + split_and!; [done|done|lia|lia].
  - destruct (Z.gtb_spec (wpos st) 0) as [Hpos|Hzero].
    + rewrite (pending_wpos st Hpos) in Hb.
      destruct (count_word_step cluster st Hc Ht ltac:(lia))
        as (Hc' & Ht' & Htok & Hw).
      split_and!.
      * by apply reset_word_inv.
      * exact Ht'.
      * unfold pending, reset_word. cbn [wbuf total_tokens]. lia.
      * lia.
    + split_and!; [done|done|lia|lia].
Qed.

Lemma fold_char_step_counting cluster f k st :
  counting_inv cluster k st -> k + Z.of_nat (length f) <= INT_MAX ->
  counting_inv cluster (k + Z.of_nat (length f))
               (fold_left (char_step cluster) f st).
Proof.
  revert k st. induction f as [|c f IH]; intros k st H Hk.
  - cbn [fold_left length]. by rewrite Z.add_0_r.
  - rewrite fold_left_step. cbn [length] in *.
    replace (k + Z.of_nat (S (length f)))
      with (k + 1 + Z.of_nat (length f)) by lia.
    apply IH; [|lia]. apply char_step_counting; [done|lia].
Qed.

(** One file more: the invariants hold with its bytes added to the
    budget. *)
Lemma read_file_counted cluster k st f :
  counted_inv cluster k st -> k + Z.of_nat (length f) <= INT_MAX ->
  counted_inv cluster (k + Z.of_nat (length f)) (read_file cluster st f).
Proof.
  intros (Hc & Ht & Hb) Hk. unfold read_file.
  assert (H0 : counting_inv cluster k (reset_word st)).
  { unfold counting_inv, in_budget.
    split_and!; [by apply reset_word_inv|exact Ht| |lia].
    unfold pending, reset_word. cbn [wbuf total_tokens]. lia. }
  pose proof (fold_char_step_counting cluster f k _ H0 Hk) as H.
  set (st' := fold_left _ _ _) in *.
  destruct H as (Hc' & Ht' & Hb' & Hk').
  pose proof (pending_range st') as Hp.
  unfold flush_last. destruct (Z.gtb_spec (wpos st') 0) as [Hpos|Hzero].
  - rewrite (pending_wpos st' Hpos) in Hb'.
    destruct (count_word_step cluster st' Hc' Ht' ltac:(lia))
      as (Hc'' & Ht'' & Htok & _).
    split_and!; [done|done|lia|lia].
  - split_and!; [done|done|lia|lia].
Qed.

Lemma input_bytes_cons f files :
  input_bytes (f :: files) = Z.of_nat (length f) + input_bytes files.
Proof.
  unfold input_bytes. rewrite concat_cons, length_app. lia.
Qed.

Lemma fold_read_file_counted cluster files k st :
  counted_inv cluster k st -> k + input_bytes files <= INT_MAX ->
  counted_inv cluster (k + input_bytes files)
              (fold_left (read_file cluster) files st).
Proof.
  revert k st. induction files as [|f files IH]; intros k st H Hk.
  - cbn [fold_left]. change (input_bytes []) with 0. by rewrite Z.add_0_r.
  - rewrite fold_left_step. rewrite input_bytes_cons in *.
    pose proof (Nat2Z.is_nonneg (length (concat files))) as Hnn.
    fold (input_bytes files) in Hnn.
    rewrite Z.add_assoc. apply IH; [|lia].
    apply read_file_counted; [done|lia].
Qed.

(** On inputs of at most [INT_MAX] bytes the invariants hold at the end, and
    there are no more tokens than bytes. *)
Lemma process_counted cluster files :
  input_bytes files <= INT_MAX ->
  counted_inv cluster (input_bytes files) (process cluster files).
Proof.
  intros Hk. unfold process.
  pose proof (fold_read_file_counted cluster files 0 init) as H.
  rewrite Z.add_0_l in H. apply H; [|done].
  split_and!; [apply init_inv|apply table_init| |unfold INT_MAX; lia].
  cbn [total_tokens init]. lia.
Qed.

(** ** The frequency table and the hit count *)

(** On inputs of at most [INT_MAX] bytes, so that no [int] counter
    overflows: the counts of the frequency table never exceed the total hit
    count; they add up to it whenever the table did not fill up
    ([n_cluster_hits < MAX_WORDLIST]) or the cluster holds at most
    [MAX_WORDLIST] words, which is the case of the built-in list. *)
Theorem frequency_table_sums_to_hits wordlist files st :
  input_bytes files <= INT_MAX ->
  main wordlist files = Some st ->
  table_sum (cluster_hits st) <= total_hits st
  /\ (n_cluster_hits st < MAX_WORDLIST ->
      table_sum (cluster_hits st) = total_hits st)
  /\ (forall cluster,
        load_cluster wordlist DEFAULT_CLUSTER = Some cluster ->
        Z.of_nat (length (stored_words cluster)) <= MAX_WORDLIST ->
        table_sum (cluster_hits st) = total_hits st)
  /\ (wordlist = None -> table_sum (cluster_hits st) = total_hits st).
Proof.
  unfold main. intros Hk H.
  destruct (load_cluster wordlist DEFAULT_CLUSTER) as [cluster|] eqn:El; [|done].
  destruct (total_tokens (process cluster files) =? 0); [done|].
  injection H as <-.
  destruct (process_counted cluster files Hk)
    as ((_ & _ & _ & Hle & Heq) & _).
  split_and!.
  - exact Hle.
  - intros Hlt. apply Heq. by left.
  - intros c [= <-] Hsmall. apply Heq. by right.
  - intros ->. apply Heq. right.
    rewrite load_cluster_defaults in El.
    assert (cluster = load_defaults hs_init DEFAULT_CLUSTER) as ->
      by congruence.
    apply default_cluster_size.
Qed.

Lemma frequency_table_sums_to_hits_witness :
  input_bytes [cstr "The void crumbles into darkness; the Void again."]
  <= INT_MAX
  /\ exists st,
       main None [cstr "The void crumbles into darkness; the Void again."]
       = Some st
       /\ table_sum (cluster_hits st) = total_hits st.
Proof.
  split; [vm_compute; discriminate|].
  eexists. split; [vm_compute; reflexivity|].
  refine (proj2 (proj2 (proj2
            (frequency_table_sums_to_hits None
               [cstr "The void crumbles into darkness; the Void again."]
               _ _ _))) eq_refl).
  - vm_compute. discriminate.
  - vm_compute. reflexivity.
Defined.

(** On inputs of at most [INT_MAX] bytes, whatever the word list: the
    frequency table lists distinct words, each one a lower-case member of the
    cluster counted at least once and at most as often as there are hits; it
    has at most [MAX_WORDLIST] entries and no more entries than hits, there
    are no more hits than tokens, and no more tokens than input bytes. *)
Theorem frequency_table_entries cluster files :
  input_bytes files <= INT_MAX ->
  let st := process cluster files in
  NoDup (map wc_word (cluster_hits st))
  /\ Forall (fun e => wc_word e ∈ stored_words cluster
                      /\ 1 <= wc_count e <= total_hits st
                      /\ normalised (wc_word e)) (cluster_hits st)
  /\ n_cluster_hits st <= MAX_WORDLIST
  /\ n_cluster_hits st <= total_hits st <= total_tokens st
  /\ n_cluster_hits st <= table_sum (cluster_hits st) <= total_hits st
  /\ total_tokens st <= input_bytes files.
Proof.
  intros Hk st.
  destruct (process_counted cluster files Hk)
    as ((_ & Hnd & Hin & Hsum & _) & (Hh & Hn & Hnh & Hent) & Htok & _).
  fold st in Hnd, Hin, Hsum, Hh, Hn, Hnh, Hent, Htok.
  assert (H1 : Forall (fun e => 1 <= wc_count e) (cluster_hits st)).
  { eapply Forall_impl; [exact Hent|]. by intros e [? _]. }
  pose proof (table_counts_bounded _ _ H1 Hsum) as Hle.
  pose proof (table_sum_nonneg _ H1) as Hlen.
  split_and!; try done; try lia.
  apply Forall_forall. intros e He.
  pose proof (proj1 (Forall_forall _ _) Hent e He) as [H2 H3].
  pose proof (proj1 (Forall_forall _ _) Hle e He) as H4. cbv beta in H4.
  split_and!; [|done|done|done]. apply Hin.
  apply list_elem_of_fmap. by exists e.
Qed.

Lemma frequency_table_entries_witness :
  input_bytes [cstr "a void, the Void"] <= INT_MAX
  /\ total_tokens (process (load_defaults hs_init DEFAULT_CLUSTER)
                           [cstr "a void, the Void"])
     <= input_bytes [cstr "a void, the Void"].
Proof.
  assert (Hk : input_bytes [cstr "a void, the Void"] <= INT_MAX)
    by (vm_compute; discriminate).
  split; [exact Hk|].
  exact (proj2 (proj2 (proj2 (proj2 (proj2
           (frequency_table_entries
              (load_defaults hs_init DEFAULT_CLUSTER)
              [cstr "a void, the Void"] Hk)))))).
Defined.

(** ** A file that holds one word *)

(** An input made of a single run of word characters is one token when it
    starts with a letter (one character is enough) and none otherwise; the
    token is a hit when its first [MAX_WORD_LEN - 1] characters, lower-cased,
    are in the cluster, and the table then holds this cut form. *)
Theorem one_word_input cluster c r :
  Forall (fun c => is_word_char c = true) (c :: r) ->
  let w := lowercase (take (Z.to_nat (MAX_WORD_LEN - 1)) (c :: r)) in
  let st := process cluster [c :: r] in
  (total_tokens st, total_hits st, cluster_hits st)
  = if isalpha c then
      if hs_contains cluster w then (1, 1, [mkWordCount w 1]) else (1, 0, [])
    else (0, 0, []).
Proof.
  intros Hr w st. subst st. unfold process.
  rewrite fold_left_step. change (fold_left (read_file cluster) [] ?x) with x.
  unfold read_file.
  rewrite (an_read_last_word cluster (reset_word init) (c :: r) eq_refl
             ltac:(discriminate) Hr).
  pose proof (an_count_after_word cluster (reset_word init) c r eq_refl) as E.
  cbn zeta in E. rewrite E. clear E. fold w.
  destruct (isalpha c); [|reflexivity].
  destruct (hs_contains cluster w); [|reflexivity].
  cbn [total_tokens total_hits cluster_hits reset_word init].
  unfold record_hit. cbn [record_loop length app].
  change (Z.of_nat 0 <? MAX_WORDLIST) with true. cbv iota.
  rewrite strncpy_word_short; [reflexivity|].
  unfold w. rewrite lowercase_length, length_take. lia.
Qed.

Lemma one_word_input_witness :
  let st := process hs_init [cstr "I"] in
  (total_tokens st, total_hits st, cluster_hits st)
  = if isalpha "I" then
      if hs_contains hs_init
           (lowercase (take (Z.to_nat (MAX_WORD_LEN - 1)) (cstr "I")))
      then (1, 1, [mkWordCount
                     (lowercase (take (Z.to_nat (MAX_WORD_LEN - 1)) (cstr "I")))
                     1])
      else (1, 0, [])
    else (0, 0, []).
Proof.
  apply (one_word_input hs_init "I"%char []).
  repeat constructor.
Defined.

(** ** Letter case *)

Lemma an_wpos_lower st : wpos (lower_buf st) = wpos st.
Proof. unfold wpos, lower_buf. cbn [wbuf]. by rewrite lowercase_length. Qed.

Lemma count_word_lower cluster st :
  count_word cluster (lower_buf st) = lower_buf (count_word cluster st).
Proof.
  unfold count_word. rewrite an_wpos_lower.
  unfold lower_buf at 1 2 3 4 5 6 7 8 9 10 11.
  cbn [wbuf total_tokens total_hits cluster_hits].
  rewrite lowercase_idem.
  destruct (_ && _); [|reflexivity].
  destruct (hs_contains cluster (lowercase (wbuf st))); reflexivity.
Qed.

Lemma an_char_step_lower cluster st c :
  char_step cluster (lower_buf st) (tolower c)
  = lower_buf (char_step cluster st c).
Proof.
  unfold char_step. rewrite is_word_char_tolower, an_wpos_lower.
  destruct (is_word_char c).
  - destruct (wpos st <? MAX_WORD_LEN - 1); [|reflexivity].
    unfold lower_buf. cbn [wbuf total_tokens total_hits cluster_hits].
    unfold lowercase. by rewrite map_app.
  - destruct (wpos st >? 0); [|reflexivity].
    rewrite count_word_lower. reflexivity.
Qed.

Lemma an_read_file_lower cluster st f :
  read_file cluster (lower_buf st) (lowercase f)
  = lower_buf (read_file cluster st f).
Proof.
  unfold read_file.
  change (reset_word (lower_buf st)) with (lower_buf (reset_word st)).
  generalize (reset_word st). intros s.
  assert (E : fold_left (char_step cluster) (lowercase f) (lower_buf s)
              = lower_buf (fold_left (char_step cluster) f s)).
  { revert s. induction f as [|c f IH]; intros s; [done|].
    unfold lowercase. rewrite map_cons, !fold_left_step.
    rewrite an_char_step_lower. apply IH. }
  rewrite E. unfold flush_last. rewrite an_wpos_lower.
  destruct (wpos _ >? 0); [|reflexivity]. apply count_word_lower.
Qed.

Lemma process_lower cluster files :
  process cluster (map lowercase files) = lower_buf (process cluster files).
Proof.
  unfold process. change init with (lower_buf init) at 1.
  generalize init. induction files as [|f files IH]; intros s; [done|].
  rewrite map_cons, !fold_left_step, an_read_file_lower. apply IH.
Qed.

(** The counts do not see letter case: lower-casing every input byte
    beforehand changes neither the number of tokens, nor the number of hits,
    nor the frequency table. *)
Theorem counts_ignore_letter_case cluster files :
  let st := process cluster files in
  let st' := process cluster (map lowercase files) in
  total_tokens st' = total_tokens st
  /\ total_hits st' = total_hits st
  /\ cluster_hits st' = cluster_hits st.
Proof.
  cbv zeta. rewrite process_lower. done.
Qed.

(** ** The sum of the frequency table *)



End AnalyzerFacts.

(** * Properties that relate the two programs *)

Module CrossFacts.

Import FilterFacts AnalyzerFacts.

Lemma count_tokens_snoc f toks t :
  Filter.count_tokens f (toks ++ [t])
  = Filter.count_tokens f toks + Filter.b2z (f t).
Proof.
  unfold Filter.count_tokens. rewrite map_app, zsum_app.
  cbn [map Filter.zsum fold_right]. lia.
Qed.

Lemma both_read_flush cluster ps fs st :
  both_read fs st ->
  Analyzer.total_hits st <= Analyzer.total_tokens st < Analyzer.INT_MAX ->
  Filter.n_tokens fs <= Z.of_nat (length (Filter.flush_word cluster ps fs))
  /\ Z.of_nat (length (Filter.flush_word cluster ps fs))
     <= Analyzer.total_tokens (Analyzer.count_word cluster st)
  /\ Filter.count_tokens Filter.is_void (Filter.flush_word cluster ps fs)
     <= Analyzer.total_hits (Analyzer.count_word cluster st)
  /\ Analyzer.wbuf (Analyzer.count_word cluster st) = Analyzer.wbuf st.
Proof.
  intros (Hb & Ht & Hh) Hlt.
  unfold Filter.flush_word, Filter.accepts, Analyzer.count_word,
    Filter.wpos, Analyzer.wpos, Filter.n_tokens in *.
  rewrite !int_incr_lt by lia.
  rewrite <- Hb.
  set (first := match lowercase (Filter.wbuf fs) with
                | [] => false | c :: _ => isalpha c end).
  destruct (Z.geb_spec (Z.of_nat (length (Filter.wbuf fs))) 2) as [H2|H2];
    destruct (Z.geb_spec (Z.of_nat (length (Filter.wbuf fs))) 1) as [H1|H1];
    try lia; destruct first; cbn [andb];
    try destruct (Z.ltb_spec (Z.of_nat (length (Filter.tokens fs)))
                             Filter.MAX_TOKENS);
    try destruct (hs_contains cluster (lowercase (Filter.wbuf fs))) eqn:Ec;
    cbn [Analyzer.total_tokens Analyzer.total_hits Analyzer.wbuf];
    rewrite ?count_tokens_snoc, ?length_app;
    unfold Filter.make_token; cbn [Filter.is_void length];
    rewrite ?Ec; cbn [Filter.b2z]; split_and!; try done; lia.
Qed.

Lemma both_read_step cluster ps fs st c k :
  both_read fs st ->
  Analyzer.counting_inv cluster k st ->
  both_read (Filter.char_step cluster ps fs c)
            (Analyzer.char_step cluster st c).
Proof.
  intros Hsim (_ & ((_ & Hht) & _) & Hbud & Hk). unfold Filter.char_step.
  set (fs1 := Filter.mkTokState _ _ _ _ _ _ _ _ _).
  destruct (para_step_tokens c fs1) as (Et & Ew & _).
  set (fs2 := Filter.para_step c fs1) in *.
  assert (H2 : both_read fs2 st).
  { destruct Hsim as (Hb & Ht & Hh). unfold both_read, Filter.n_tokens.
    rewrite Et, Ew. done. }
  clearbody fs2. clear - H2 Hht Hbud Hk.
  pose proof H2 as (Hb & Ht & Hh).
  unfold Filter.word_step, Analyzer.char_step, Filter.wpos.
  rewrite Hb. fold (Analyzer.wpos st). destruct (is_word_char c).
  - destruct (_ <? _); unfold both_read, Filter.n_tokens;
      cbn [Filter.wbuf Filter.tokens Analyzer.wbuf Analyzer.total_tokens
           Analyzer.total_hits]; rewrite ?Hb; done.
  - destruct (Z.gtb_spec (Analyzer.wpos st) 0) as [Hpos|Hzero]; [|done].
    rewrite (pending_wpos st Hpos) in Hbud.
    destruct (both_read_flush cluster ps fs2 st H2 ltac:(lia))
      as (F1 & F2 & F3 & F4).
    unfold both_read, Filter.n_tokens, Analyzer.reset_word.
    cbn [Filter.wbuf Filter.tokens Analyzer.wbuf Analyzer.total_tokens
         Analyzer.total_hits]. done.
Qed.

Lemma both_read_chars cluster ps f :
  forall fs st k,
    both_read fs st ->
    Analyzer.counting_inv cluster k st ->
    k + Z.of_nat (length f) <= Analyzer.INT_MAX ->
    both_read (fold_left (Filter.char_step cluster ps) f fs)
              (fold_left (Analyzer.char_step cluster) f st).
Proof.
  induction f as [|c f IH]; intros fs st k H Hinv Hk; [done|].
  rewrite !fold_left_step. cbn [length] in Hk.
  apply (IH _ _ (k + 1)).
  - by eapply both_read_step.
  - apply char_step_counting; [done|lia].
  - lia.
Qed.

Lemma both_read_file cluster ps fs st f k :
  both_read fs st ->
  Analyzer.counted_inv cluster k st ->
  k + Z.of_nat (length f) <= Analyzer.INT_MAX ->
  both_read (Filter.read_file cluster ps fs f)
            (Analyzer.read_file cluster st f).
Proof.
  intros (Hb & Ht & Hh) (Hc & Htab & Hbud) Hk.
  unfold Filter.read_file, Analyzer.read_file.
  assert (H0 : both_read (Filter.open_file fs) (Analyzer.reset_word st)).
  { by split_and!. }
  assert (I0 : Analyzer.counting_inv cluster k (Analyzer.reset_word st)).
  { unfold Analyzer.counting_inv, Analyzer.in_budget.
    split_and!; [by apply reset_word_inv|exact Htab| |lia].
    unfold Analyzer.pending, Analyzer.reset_word.
    cbn [Analyzer.wbuf Analyzer.total_tokens]. lia. }
  pose proof (both_read_chars cluster ps f _ _ k H0 I0 Hk) as H.
  pose proof (fold_char_step_counting cluster f k _ I0 Hk)
    as (_ & ((_ & Hht) & _) & Hbud' & Hk').
  set (fs' := fold_left (Filter.char_step cluster ps) _ _) in *.
  set (st' := fold_left (Analyzer.char_step cluster) _ _) in *.
  clearbody fs' st'.
  pose proof H as (Hb' & Ht' & Hh').
  unfold Filter.flush_last, Analyzer.flush_last, Filter.wpos.
  rewrite Hb'. fold (Analyzer.wpos st').
  destruct (Z.gtb_spec (Analyzer.wpos st') 0) as [Hpos|Hzero];
    [|by split_and!].
  rewrite (pending_wpos st' Hpos) in Hbud'.
  destruct (both_read_flush cluster ps fs' st' H ltac:(lia))
    as (F1 & F2 & F3 & F4).
  unfold both_read, Filter.n_tokens.
  cbn [Filter.wbuf Filter.tokens]. rewrite F4. done.
Qed.

Lemma both_read_files cluster ps files :
  forall fs st k,
    both_read fs st ->
    Analyzer.counted_inv cluster k st ->
    k + Analyzer.input_bytes files <= Analyzer.INT_MAX ->
    both_read (fold_left (Filter.read_file cluster ps) files fs)
              (fold_left (Analyzer.read_file cluster) files st).
Proof.
  induction files as [|f files IH]; intros fs st k H Hinv Hk; [done|].
  rewrite !fold_left_step. rewrite input_bytes_cons in Hk.
  pose proof (Nat2Z.is_nonneg (length (concat files))) as Hnn.
  fold (Analyzer.input_bytes files) in Hnn.
  apply (IH _ _ (k + Z.of_nat (length f))).
  - eapply both_read_file; [done|done|lia].
  - apply read_file_counted; [done|lia].
  - lia.
Qed.

Lemma length_hits_upto tech toks W (k : nat) :
  (k <= length toks)%nat ->
  Z.of_nat (length (Filter.hits_upto tech toks W k))
  = Filter.count_tokens Filter.is_void (take k toks).
Proof.
  induction k as [|k IH]; intros Hk; [done|].
  destruct (lookup_lt_is_Some_2 toks k ltac:(lia)) as [t Et].
  rewrite hits_upto_S, length_app, (count_tokens_S _ _ _ _ Et).
  rewrite Nat2Z.inj_add, IH by lia.
  unfold Filter.void_at. rewrite Nat2Z.id, Et.
  by destruct (Filter.is_void t).
Qed.

(** On the same inputs, of at most [INT_MAX] bytes so that no counter of
    the analyzer overflows, and with the same cluster set, the analyzer
    counts at least as many tokens as the filter stores, and at least as many
    cluster-term hits as the filter classifies: the filter drops one-letter
    words and stops at [MAX_TOKENS], the analyzer does neither. *)
Theorem analyzer_counts_cover_the_filter cluster ps tech W files :
  Analyzer.input_bytes files <= Analyzer.INT_MAX ->
  Filter.n_tokens (Filter.tokenize cluster ps files)
  <= Analyzer.total_tokens (Analyzer.process cluster files)
  /\ Filter.c_total_void (snd (Filter.analyse cluster ps tech W files))
     <= Analyzer.total_hits (Analyzer.process cluster files).
Proof.
  intros Hk.
  assert (H : both_read (fold_left (Filter.read_file cluster ps) files
                                   Filter.tok_init)
                        (Analyzer.process cluster files)).
  { apply (both_read_files cluster ps files _ _ 0).
    - by split_and!.
    - unfold Analyzer.counted_inv.
      split_and!; [apply init_inv|apply table_init
                  | |unfold Analyzer.INT_MAX; lia].
      cbn [Analyzer.total_tokens Analyzer.init]. lia.
    - lia. }
  destruct H as (_ & Ht & Hh).
  destruct (analyse_hits cluster ps tech W files) as (_ & Hv).
  rewrite Hv. unfold Filter.analyse. cbn [fst].
  unfold Filter.tokenize, Filter.n_tokens in *.
  rewrite tokens_close_final.
  split; [exact Ht|].
  rewrite <- hits_upto_all, length_hits_upto by lia.
  by rewrite firstn_all.
Qed.

Lemma analyzer_counts_cover_the_filter_witness :
  Analyzer.input_bytes [cstr "I saw a void"] <= Analyzer.INT_MAX
  /\ Filter.n_tokens
       (Filter.tokenize (load_defaults hs_init VOID_CLUSTER)
                        (load_defaults hs_init PERSONALITY_MARKERS)
                        [cstr "I saw a void"])
     <= Analyzer.total_tokens
          (Analyzer.process (load_defaults hs_init VOID_CLUSTER)
                            [cstr "I saw a void"]).
Proof.
  assert (Hk : Analyzer.input_bytes [cstr "I saw a void"] <= Analyzer.INT_MAX)
    by (vm_compute; discriminate).
  split; [exact Hk|].
  exact (proj1 (analyzer_counts_cover_the_filter
                  (load_defaults hs_init VOID_CLUSTER)
                  (load_defaults hs_init PERSONALITY_MARKERS)
                  Filter.tech_default 15 [cstr "I saw a void"] Hk)).
Defined.

(** ** Runs of more than 63 word characters *)

Lemma long_run_cut r :
  (Z.to_nat (MAX_WORD_LEN - 1) < length r)%nat ->
  length (lowercase (take (Z.to_nat (MAX_WORD_LEN - 1)) r))
  = Z.to_nat (MAX_WORD_LEN - 1).
Proof. intros H. rewrite lowercase_length, length_take. lia. Qed.

(** The tokens of the filter after a run read into an empty buffer. *)
Lemma filter_long_run vs ps fs r :
  Filter.wbuf fs = [] ->
  (Z.to_nat (MAX_WORD_LEN - 1) < length r)%nat ->
  let w := lowercase (take (Z.to_nat (MAX_WORD_LEN - 1)) r) in
  Filter.flush_word vs ps (Filter.after_word fs r)
  = if starts_with_letter r && (Filter.n_tokens fs <? Filter.MAX_TOKENS)
    then Filter.tokens fs
         ++ [Filter.mkToken w (hs_contains vs w) (hs_contains ps w)
                            (Filter.cur_para_id fs) (Filter.byte_pos fs + 1)]
    else Filter.tokens fs.
Proof.
  intros Hb Hlen w.
  pose proof (flush_after_word vs ps fs r Hb) as E. cbv zeta in E.
  rewrite E. fold w.
  replace (Z.of_nat (length w) >=? 2) with true.
  2:{ unfold w. rewrite long_run_cut by done. reflexivity. }
  cbn [andb]. unfold starts_with_letter.
  destruct r as [|c0 r0]; [done|]. done.
Qed.

(** The counters of the analyzer after a run read into an empty buffer. *)
Lemma analyzer_long_run cluster st r :
  Analyzer.wbuf st = [] -> r <> [] ->
  let w := lowercase (take (Z.to_nat (MAX_WORD_LEN - 1)) r) in
  let st' := Analyzer.count_word cluster (Analyzer.after_word st r) in
  Analyzer.total_tokens st'
  = (if starts_with_letter r
     then Analyzer.int_incr (Analyzer.total_tokens st)
     else Analyzer.total_tokens st)
  /\ Analyzer.total_hits st'
     = (if starts_with_letter r && hs_contains cluster w
        then Analyzer.int_incr (Analyzer.total_hits st)
        else Analyzer.total_hits st)
  /\ Analyzer.cluster_hits st'
     = (if starts_with_letter r && hs_contains cluster w
        then Analyzer.record_hit (Analyzer.cluster_hits st) w
        else Analyzer.cluster_hits st).
Proof.
  intros Hb Hne w st'. subst st'.
  destruct r as [|c0 r0]; [done|].
  pose proof (an_count_after_word cluster st c0 r0 Hb) as E. cbv zeta in E.
  rewrite E. fold w. unfold starts_with_letter.
  destruct (isalpha c0); [|by split_and!].
  cbn [andb]. destruct (hs_contains cluster w); by split_and!.
Qed.

(** C10: a maximal run of more than 63 word characters that starts with a
    letter gives one token, made of the first 63 characters of the run,
    lower-cased; the lookups are made on this cut form, and the characters
    that are dropped start no token of their own (the buffer is empty
    again after the run).  This holds for a run ended by a separator and
    for a run that ends the file, in the filter (as long as the token array
    has room) and in the analyzer (which counts the token and tabulates the
    cut form when it is a cluster term).  A run that starts with an
    apostrophe or a hyphen gives no token. *)
Theorem long_run_is_one_cut_token vs ps cluster fs st r c :
  Filter.wbuf fs = [] -> Analyzer.wbuf st = [] ->
  Forall (fun a => is_word_char a = true) r ->
  (Z.to_nat (MAX_WORD_LEN - 1) < length r)%nat ->
  is_word_char c = false ->
  let w := lowercase (take (Z.to_nat (MAX_WORD_LEN - 1)) r) in
  let toks :=
    if starts_with_letter r && (Filter.n_tokens fs <? Filter.MAX_TOKENS)
    then Filter.tokens fs
         ++ [Filter.mkToken w (hs_contains vs w) (hs_contains ps w)
                            (Filter.cur_para_id fs) (Filter.byte_pos fs + 1)]
    else Filter.tokens fs in
  let counts :=
    (if starts_with_letter r
     then Analyzer.int_incr (Analyzer.total_tokens st)
     else Analyzer.total_tokens st,
     if starts_with_letter r && hs_contains cluster w
     then Analyzer.int_incr (Analyzer.total_hits st)
     else Analyzer.total_hits st,
     if starts_with_letter r && hs_contains cluster w
     then Analyzer.record_hit (Analyzer.cluster_hits st) w
     else Analyzer.cluster_hits st) in
  let fs1 := fold_left (Filter.char_step vs ps) (r ++ [c]) fs in
  let fs2 := Filter.flush_last vs ps (fold_left (Filter.char_step vs ps) r fs) in
  let st1 := fold_left (Analyzer.char_step cluster) (r ++ [c]) st in
  let st2 :=
    Analyzer.flush_last cluster (fold_left (Analyzer.char_step cluster) r st) in
  length w = Z.to_nat (MAX_WORD_LEN - 1)
  /\ Filter.tokens fs1 = toks /\ Filter.wbuf fs1 = []
  /\ Filter.tokens fs2 = toks
  /\ (Analyzer.total_tokens st1, Analyzer.total_hits st1,
      Analyzer.cluster_hits st1) = counts
  /\ Analyzer.wbuf st1 = []
  /\ (Analyzer.total_tokens st2, Analyzer.total_hits st2,
      Analyzer.cluster_hits st2) = counts.
Proof.
  intros Hfb Hab Hr Hlen Hc w toks counts fs1 fs2 st1 st2.
  assert (Hne : r <> []) by (intros ->; cbn in Hlen; lia).
  subst fs1 fs2 st1 st2.
  rewrite (read_word vs ps fs r c Hfb Hne Hr Hc).
  rewrite (read_last_word vs ps fs r Hfb Hne Hr).
  rewrite (an_read_word cluster st r c Hab Hne Hr Hc).
  rewrite (an_read_last_word cluster st r Hab Hne Hr).
  cbn [Filter.tokens Filter.wbuf].
  pose proof (filter_long_run vs ps fs r Hfb Hlen) as Ef. cbv zeta in Ef.
  destruct (analyzer_long_run cluster st r Hab Hne) as (A1 & A2 & A3).
  unfold Analyzer.reset_word.
  cbn [Analyzer.total_tokens Analyzer.total_hits Analyzer.cluster_hits
       Analyzer.wbuf].
  split; [by apply long_run_cut|].
  split; [exact Ef|]. split; [done|]. split; [exact Ef|].
  split; [|split; [done|]]; subst counts; by rewrite A1, A2, A3.
Qed.

Lemma long_run_is_one_cut_token_witness :
  Filter.tokens
    (fold_left (Filter.char_step hs_init hs_init)
               (replicate 70 "a"%char ++ [" "%char])
               (Filter.open_file Filter.tok_init))
  = [Filter.mkToken (replicate 63 "a"%char) false false 0 1].
Proof.
  destruct (long_run_is_one_cut_token hs_init hs_init hs_init
              (Filter.open_file Filter.tok_init) Analyzer.init
              (replicate 70 "a"%char) " "%char)
    as (_ & Ht & _).
  - reflexivity.
  - reflexivity.
  - apply Forall_replicate. reflexivity.
  - vm_compute. lia.
  - reflexivity.
  - rewrite Ht. vm_compute. reflexivity.
Defined.

(** A run of 65 word characters that starts with a hyphen: no token in the
    filter, no token in the analyzer. *)
Lemma long_run_without_leading_letter_gives_no_token :
  Forall (fun a => is_word_char a = true) hyphen_run
  /\ (Z.to_nat (MAX_WORD_LEN - 1) < length hyphen_run)%nat
  /\ Filter.tokens
       (Filter.tokenize (load_defaults hs_init VOID_CLUSTER)
                        (load_defaults hs_init PERSONALITY_MARKERS)
                        [hyphen_run ++ [" "%char]]) = []
  /\ Filter.tokens
       (Filter.tokenize (load_defaults hs_init VOID_CLUSTER)
                        (load_defaults hs_init PERSONALITY_MARKERS)
                        [hyphen_run]) = []
  /\ Analyzer.total_tokens
       (Analyzer.process (load_defaults hs_init DEFAULT_CLUSTER)
                         [hyphen_run ++ [" "%char]]) = 0
  /\ Analyzer.total_tokens
       (Analyzer.process (load_defaults hs_init DEFAULT_CLUSTER)
                         [hyphen_run]) = 0.
Proof.
  split.
  { unfold hyphen_run. constructor; [reflexivity|].
    apply Forall_replicate. reflexivity. }
  split; [vm_compute; lia|].
  split_and!; vm_compute; reflexivity.
Qed.

(** ** The z-test *)

(** C6: for every [int] hit count, every positive [int] total and every
    baseline, the z-test of both programs is, in binary64 arithmetic, the
    quotient of [hits/total - p0] by the standard error
    [sqrt (p0 * (1 - p0) / total)], except that it is exactly 0 when the
    standard error is below [1e-15]. *)
Theorem z_test_formula (hits total : Z) (p0 : float) :
  0 < total <= 2147483647 -> -2147483648 <= hits <= 2147483647 ->
  let n := double_of_int total in
  let se := PrimFloat.sqrt (p0 * (1 - p0) / n)%float in
  let z := ((double_of_int hits / n - p0) / se)%float in
  Filter.z_test hits total p0 = Analyzer.z_test hits total p0
  /\ Analyzer.z_test hits total p0
     = (if (se <? 1e-15)%float then 0%float else z)
  /\ ((se <? 1e-15)%float = true -> Filter.z_test hits total p0 = 0%float)
  /\ ((se <? 1e-15)%float = false -> Filter.z_test hits total p0 = z).
Proof.
  intros Hpos Hhits n se z.
  assert (E : Filter.z_test hits total p0
              = if (se <? 1e-15)%float then 0%float else z).
  { unfold Filter.z_test. destruct (Z.leb_spec total 0); [lia|]. reflexivity. }
  assert (E' : Analyzer.z_test hits total p0
               = if (se <? 1e-15)%float then 0%float else z) by reflexivity.
  rewrite E, E'. split; [reflexivity|]. split; [reflexivity|].
  split; intros ->; reflexivity.
Qed.

Lemma z_test_formula_witness :
  0 < 141 <= 2147483647 /\ -2147483648 <= 0 <= 2147483647
  /\ Filter.z_test 0 141 0.01 = Analyzer.z_test 0 141 0.01.
Proof.
  assert (Hpos : 0 < 141 <= 2147483647) by lia.
  assert (Hhits : -2147483648 <= 0 <= 2147483647) by lia.
  split; [exact Hpos|]. split; [exact Hhits|].
  exact (proj1 (z_test_formula 0 141 0.01 Hpos Hhits)).
Defined.

(** The guard at work: the score is exactly 0 for the baselines 0 and 1 and
    for one as small as [1e-40]; it is not for a baseline of one in a
    hundred. *)
Lemma z_test_degenerate_baselines :
  Filter.z_test 7 141 0 = 0%float
  /\ Filter.z_test 7 141 1 = 0%float
  /\ Filter.z_test 7 141 1e-40 = 0%float
  /\ Analyzer.z_test 7 141 0 = 0%float
  /\ Analyzer.z_test 7 141 1 = 0%float
  /\ (Filter.z_test 7 141 0.01 <? 0)%float = false.
Proof. vm_compute. by split_and!. Qed.

(** Scenario A, first half: with no hit among 141 tokens and a baseline of
    0.01, the z-score of both programs lies between -1.2 and -1.19. *)
Lemma scenario_A_z_score :
  (Analyzer.z_test 0 141 0.01 <? -1.19)%float = true
  /\ (-1.2 <? Analyzer.z_test 0 141 0.01)%float = true
  /\ Filter.z_test 0 141 0.01 = Analyzer.z_test 0 141 0.01.
Proof. vm_compute. by split_and!. Qed.

End CrossFacts.
